(** * Image upload lifecycle: presign, confirm, delete

    A shallow embedding of the server side of the upload flow:
    the bearer-token check ([app/api/images/auth.ts]), the request
    schemas ([zod/images.ts]), the record-store statements
    ([db/operations/images.ts]), the grant issuer ([utils/r2.ts]) and the
    three route handlers (presign, confirm, files/DELETE), followed by
    the rest of the record store, the GET handler and the parts of the
    browser code that build the requests.

    Conventions.
    - The [images] table is a list of rows in storage order; an UPDATE maps
      over the rows and RETURNING yields the rows it changed.
    - Everything outside the process (clock, S3 signer, S3 batch delete,
      uuid generator, availability of the database for the insert) is a
      field of [World]; a handler is a function of the world, the request
      and the table, and returns a response and the new table.
    - [None] stands for a JavaScript exception where a collaborator may
      throw, for [undefined] on optional values, and for [NaN] on the
      result of [parseInt].
    - JSON numbers are integers ([Z]); a handler reads the clock once.
    - The refusal of the insert (by the database or by the primary key) is
      a field of [World].
    - The columns [id] and [user_id] are of type uuid.  Modules [Db],
      [Confirm] and [Files] give the statements and the handlers on uuids
      in the spelling the database prints, lower case with dashes, where a
      comparison of uuids is a comparison of text.  Module [Pg] gives the
      way PostgreSQL reads the text of a parameter as a uuid, and modules
      [ConfirmPg] and [FilesPg] give the same handlers on parameters as
      the request spells them: a statement throws on text that is no uuid
      and selects by value on any other spelling. *)

From Stdlib Require Import ZArith List String Ascii Bool Lia.
From Stdlib Require Import Sorted Permutation.
Import ListNotations.
Local Open Scope string_scope.
Local Open Scope Z_scope.

(* ================================================================== *)
(** ** JavaScript helpers *)

Module Js.

(** Template-literal rendering of a possibly undefined string. *)
Definition tmpl (o : option string) : string :=
  match o with
  | Some s => s
  | None => "undefined"
  end.

(** [x || d] on a possibly undefined string: the empty string is falsy. *)
Definition or_default (o : option string) (d : string) : string :=
  match o with
  | Some EmptyString => d
  | Some s => s
  | None => d
  end.

(** [!x] on a possibly undefined string. *)
Definition falsy (o : option string) : bool :=
  match o with
  | Some EmptyString => true
  | Some _ => false
  | None => true
  end.

(** [arr.includes(x)] on an array of strings. *)
Definition includes (arr : list string) (x : string) : bool :=
  existsb (String.eqb x) arr.

Definition is_ws (c : ascii) : bool :=
  let n := nat_of_ascii c in
  (Nat.eqb n 32 || Nat.eqb n 9 || Nat.eqb n 10 || Nat.eqb n 11
   || Nat.eqb n 12 || Nat.eqb n 13)%bool.

Fixpoint skip_ws (s : string) : string :=
  match s with
  | String c s' => if is_ws c then skip_ws s' else s
  | EmptyString => s
  end.

(** Value of a character read as a digit in a radix up to 36. *)
Definition digit_val (c : ascii) : option Z :=
  let n := Z.of_nat (nat_of_ascii c) in
  if (48 <=? n) && (n <=? 57) then Some (n - 48)
  else if (97 <=? n) && (n <=? 122) then Some (n - 87)
  else if (65 <=? n) && (n <=? 90) then Some (n - 55)
  else None.

(** Longest prefix of digits of the radix; [None] when there is none. *)
Fixpoint parse_digits (radix : Z) (s : string) (acc : option Z) : option Z :=
  match s with
  | EmptyString => acc
  | String c s' =>
      match digit_val c with
      | Some d =>
          if d <? radix
          then parse_digits radix s'
                 (Some (match acc with
                        | Some a => a * radix + d
                        | None => d
                        end))
          else acc
      | None => acc
      end
  end.

(** [parseInt(s)] without a radix argument: leading white space, a sign,
    a [0x] prefix, then digits.  [None] is [NaN]. *)
Definition parseInt (s : string) : option Z :=
  let s1 := skip_ws s in
  let '(neg, s2) :=
    match s1 with
    | String "-" r => (true, r)
    | String "+" r => (false, r)
    | _ => (false, s1)
    end in
  let '(radix, s3) :=
    match s2 with
    | String "0" (String "x" r) => (16, r)
    | String "0" (String "X" r) => (16, r)
    | _ => (10, s2)
    end in
  match parse_digits radix s3 None with
  | Some v => Some (if neg then - v else v)
  | None => None
  end.

(** [s.split(sep)] for a separator of one character. *)
Fixpoint split (sep : ascii) (s : string) : list string :=
  match s with
  | EmptyString => [EmptyString]
  | String c r =>
      if Ascii.eqb c sep then EmptyString :: split sep r
      else match split sep r with
           | h :: tl => String c h :: tl
           | [] => [String c EmptyString]
           end
  end.

End Js.

(* ================================================================== *)
(** ** Process environment and the constants read from it *)

Record ProcessEnv := {
  env_NEXT_PUBLIC_OUR_AUTH_TOKEN : option string;
  env_R2_PUBLIC_BASE_URL : option string;
  env_NEXT_PUBLIC_MAX_IMAGE_SIZE_KB : option string;
  env_MAX_IMAGE_SIZE_KB : option string;
  env_MAX_IMAGES : option string
}.

(** auth.ts: [const OUR_AUTH_TOKEN = process.env.NEXT_PUBLIC_OUR_AUTH_TOKEN] *)
Definition OUR_AUTH_TOKEN (env : ProcessEnv) : option string :=
  env_NEXT_PUBLIC_OUR_AUTH_TOKEN env.

(** presign/route.ts *)
Definition R2_PUBLIC_BASE_URL (env : ProcessEnv) : option string :=
  env_R2_PUBLIC_BASE_URL env.

(** presign/route.ts:
    [parseInt(process.env.NEXT_PUBLIC_MAX_IMAGE_SIZE_KB || '300')] *)
Definition IMAGE_EXPIRATION_SECONDS (env : ProcessEnv) : option Z :=
  Js.parseInt (Js.or_default (env_NEXT_PUBLIC_MAX_IMAGE_SIZE_KB env) "300").

(** zod/images.ts:
    [parseInt(process.env.MAX_IMAGE_SIZE_KB || '1024') * 1024] *)
Definition MAX_IMAGE_SIZE_BYTES (env : ProcessEnv) : option Z :=
  option_map (fun kb => kb * 1024)
    (Js.parseInt (Js.or_default (env_MAX_IMAGE_SIZE_KB env) "1024")).

(** zod/images.ts: [parseInt(process.env.MAX_IMAGES || '5')] *)
Definition MAX_IMAGES (env : ProcessEnv) : option Z :=
  Js.parseInt (Js.or_default (env_MAX_IMAGES env) "5").

(* ================================================================== *)
(** ** Requests *)

(** A parsed JSON value.  Object keys are looked up first match. *)
#[local] Unset Elimination Schemes.
Inductive Json :=
| JNull
| JBool (b : bool)
| JNum (z : Z)
| JStr (s : string)
| JArr (l : list Json)
| JObj (fields : list (string * Json)).
#[local] Set Elimination Schemes.

(** What a handler reads of a [NextRequest]: the value of
    [headers.get('authorization')] and the outcome of [request.json()]
    ([None] when the body is not JSON and the call throws). *)
Record NextRequest := {
  authorization : option string;
  body : option Json
}.

(* ================================================================== *)
(** ** Capability check (auth.ts) *)

Record AuthResult := {
  authenticated : bool;
  userId : option string
}.

Definition authCheck (env : ProcessEnv) (request : NextRequest) : AuthResult :=
  match authorization request with
  | None => {| authenticated := false; userId := None |}
  | Some authHeader =>
      if (authHeader =? "")%string
         || negb (authHeader =? "Bearer " ++ Js.tmpl (OUR_AUTH_TOKEN env))%string
      then {| authenticated := false; userId := None |}
      else {| authenticated := true; userId := OUR_AUTH_TOKEN env |}
  end.

(** The guard [!authenticated || !userId] of the confirm and files
    handlers: the caller identity when the guard lets the request pass. *)
Definition caller (env : ProcessEnv) (request : NextRequest) : option string :=
  let a := authCheck env request in
  if negb (authenticated a) || Js.falsy (userId a) then None else userId a.

(** The guard [!userId] of the presign handler. *)
Definition presign_caller (env : ProcessEnv) (request : NextRequest)
  : option string :=
  let a := authCheck env request in
  if Js.falsy (userId a) then None else userId a.

(* ================================================================== *)
(** ** Request schemas (zod/images.ts) *)

Module Zod.

Definition is_hex (c : ascii) : bool :=
  let n := nat_of_ascii c in
  ((Nat.leb 48 n && Nat.leb n 57)
   || (Nat.leb 97 n && Nat.leb n 102)
   || (Nat.leb 65 n && Nat.leb n 70))%bool.

(** Consume exactly [n] hexadecimal digits. *)
Fixpoint take_hex (n : nat) (s : string) : option string :=
  match n with
  | O => Some s
  | S n' =>
      match s with
      | String c r => if is_hex c then take_hex n' r else None
      | EmptyString => None
      end
  end.

Definition take_dash (s : string) : option string :=
  match s with
  | String "-" r => Some r
  | _ => None
  end.

Definition andThen {A B} (o : option A) (f : A -> option B) : option B :=
  match o with
  | Some a => f a
  | None => None
  end.

(** [z.string().uuid()]: five groups of 8, 4, 4, 4 and 12 hexadecimal
    digits joined by dashes, either case (the pattern of zod 3.23). *)
Definition uuid (s : string) : bool :=
  match
    andThen (take_hex 8 s) (fun s =>
    andThen (take_dash s) (fun s =>
    andThen (take_hex 4 s) (fun s =>
    andThen (take_dash s) (fun s =>
    andThen (take_hex 4 s) (fun s =>
    andThen (take_dash s) (fun s =>
    andThen (take_hex 4 s) (fun s =>
    andThen (take_dash s) (fun s =>
    take_hex 12 s))))))))
  with
  | Some EmptyString => true
  | _ => false
  end.

(** [.max(v)] rejects when [x > v]; the comparison is false on [NaN]. *)
Definition within_max (x : Z) (v : option Z) : bool :=
  match v with
  | Some m => negb (m <? x)
  | None => true
  end.

Fixpoint lookup (k : string) (fs : list (string * Json)) : option Json :=
  match fs with
  | [] => None
  | (k', v) :: r => if (k' =? k)%string then Some v else lookup k r
  end.

Fixpoint all {A} (elem : Json -> option A) (l : list Json) : option (list A) :=
  match l with
  | [] => Some []
  | j :: r =>
      match elem j, all elem r with
      | Some a, Some ar => Some (a :: ar)
      | _, _ => None
      end
  end.

(** [z.array(elem).min(1).max(v)] *)
Definition array_1_max {A} (elem : Json -> option A) (v : option Z) (j : Json)
  : option (list A) :=
  match j with
  | JArr l =>
      if (1 <=? Z.of_nat (List.length l))
         && within_max (Z.of_nat (List.length l)) v
      then all elem l else None
  | _ => None
  end.

End Zod.

Record SingleImageRequest := {
  fileId : string;
  fileType : string;
  fileSize : Z
}.

Inductive ConfirmStatus := confirm_completed | confirm_failed.

Record ImageUpdate := {
  imageId : string;
  u_status : ConfirmStatus
}.

Definition singleImageSchema (env : ProcessEnv) (j : Json)
  : option SingleImageRequest :=
  match j with
  | JObj fs =>
      match Zod.lookup "fileId" fs, Zod.lookup "fileType" fs,
            Zod.lookup "fileSize" fs with
      | Some (JStr i), Some (JStr ty), Some (JNum sz) =>
          if Zod.uuid i
             && (1 <=? Z.of_nat (String.length ty))
             && (0 <? sz)
             && Zod.within_max sz (MAX_IMAGE_SIZE_BYTES env)
          then Some {| fileId := i; fileType := ty; fileSize := sz |}
          else None
      | _, _, _ => None
      end
  | _ => None
  end.

Definition presignRequestSchema (env : ProcessEnv) (j : Json)
  : option (list SingleImageRequest) :=
  match j with
  | JObj fs =>
      match Zod.lookup "images" fs with
      | Some a => Zod.array_1_max (singleImageSchema env) (MAX_IMAGES env) a
      | None => None
      end
  | _ => None
  end.

Definition confirmUpdateSchema (j : Json) : option ImageUpdate :=
  match j with
  | JObj fs =>
      match Zod.lookup "imageId" fs, Zod.lookup "status" fs with
      | Some (JStr i), Some (JStr s) =>
          if Zod.uuid i then
            if (s =? "completed")%string
            then Some {| imageId := i; u_status := confirm_completed |}
            else if (s =? "failed")%string
            then Some {| imageId := i; u_status := confirm_failed |}
            else None
          else None
      | _, _ => None
      end
  | _ => None
  end.

Definition confirmUploadSchema (env : ProcessEnv) (j : Json)
  : option (list ImageUpdate) :=
  match j with
  | JObj fs =>
      match Zod.lookup "updates" fs with
      | Some a => Zod.array_1_max confirmUpdateSchema (MAX_IMAGES env) a
      | None => None
      end
  | _ => None
  end.

Definition uuidStringSchema (j : Json) : option string :=
  match j with
  | JStr s => if Zod.uuid s then Some s else None
  | _ => None
  end.

Definition deleteImagesSchema (env : ProcessEnv) (j : Json)
  : option (list string) :=
  match j with
  | JObj fs =>
      match Zod.lookup "imageIds" fs with
      | Some a => Zod.array_1_max uuidStringSchema (MAX_IMAGES env) a
      | None => None
      end
  | _ => None
  end.

(* ================================================================== *)
(** ** External collaborators *)

(** One entry of [Errors] in the output of the S3 batch delete. *)
Record S3Error := {
  err_Key : option string;
  err_Code : option string;
  err_Message : option string
}.

Record DeleteObjectsOutput := {
  Deleted : option (list string);
  Errors : option (list S3Error)
}.

Record World := {
  (** [Date.now()] in milliseconds; also the database clock *)
  now : Z;
  (** [getSignedUrl(S3, PutObjectCommand{Key, ContentType, ContentLength},
      {expiresIn})]; [None] when it rejects *)
  getSignedUrl : string -> string -> Z -> Z -> option string;
  (** [S3.send(DeleteObjectsCommand{keys})]; [None] when it rejects *)
  send_DeleteObjects : list string -> option DeleteObjectsOutput;
  (** the uuid that [gen_random_uuid()] gives the i-th row of an insert *)
  gen_random_uuid : nat -> string;
  (** the insert statement is refused by the database *)
  insert_refused : bool
}.

(* ================================================================== *)
(** ** Record store (db/schema.ts, db/operations/images.ts) *)

Module Db.

Inductive Status := pending | completed | failed | canceled | deleted.

Definition status_eqb (a b : Status) : bool :=
  match a, b with
  | pending, pending | completed, completed | failed, failed
  | canceled, canceled | deleted, deleted => true
  | _, _ => false
  end.

Record Image := {
  id : string;
  userId : string;
  objectKey : string;
  fileUrl : string;
  mimeType : string;
  sizeBytes : Z;
  status : Status;
  createdAt : Z;
  completedAt : option Z
}.

Record NewImage := {
  new_userId : string;
  new_objectKey : string;
  new_fileUrl : string;
  new_mimeType : string;
  new_sizeBytes : Z
}.

Definition Table := list Image.

(** [.set({ status, completedAt: new Date() })] *)
Definition set_status (s : Status) (at_ : Z) (r : Image) : Image :=
  {| id := id r; userId := userId r; objectKey := objectKey r;
     fileUrl := fileUrl r; mimeType := mimeType r; sizeBytes := sizeBytes r;
     status := s; createdAt := createdAt r; completedAt := Some at_ |}.

(** [inArray(column, values)], on values in the spelling the database
    prints; [Pg.uuid_in] gives that spelling for a parameter. *)
Definition inArray (x : string) (values : list string) : bool :=
  existsb (String.eqb x) values.

(** [UPDATE images SET .. WHERE hit RETURNING *]: the rows changed, and
    the table after the statement. *)
Definition update_returning (hit : Image -> bool) (set : Image -> Image)
    (t : Table) : list Image * Table :=
  (map set (filter hit t), map (fun r => if hit r then set r else r) t).

Fixpoint nodupb (l : list string) : bool :=
  match l with
  | [] => true
  | x :: r => negb (inArray x r) && nodupb r
  end.

(** The primary key on [id] admits the new rows. *)
Definition pk_admits (t : Table) (created : list Image) : bool :=
  forallb (fun r => negb (inArray (id r) (map id t))) created
  && nodupb (map id created).

Fixpoint insert_rows (w : World) (i : nat) (l : list NewImage) : list Image :=
  match l with
  | [] => []
  | n :: r =>
      {| id := gen_random_uuid w i; userId := new_userId n;
         objectKey := new_objectKey n; fileUrl := new_fileUrl n;
         mimeType := new_mimeType n; sizeBytes := new_sizeBytes n;
         status := pending; createdAt := now w; completedAt := None |}
      :: insert_rows w (S i) r
  end.

(** [db.insert(images).values(newImages).returning()]: one statement; a
    refused statement or a primary-key conflict inserts no row and
    throws. *)
Definition createImageRecordsBatch (w : World) (imageData : list NewImage)
    (t : Table) : option (list Image * Table) :=
  let createdImages := insert_rows w 0 imageData in
  if insert_refused w || negb (pk_admits t createdImages) then None
  else Some (createdImages, (t ++ createdImages)%list).

Definition to_status (s : ConfirmStatus) : Status :=
  match s with
  | confirm_completed => completed
  | confirm_failed => failed
  end.

Definition updateImageStatusBatch (w : World) (imageIds : list string)
    (s : ConfirmStatus) (uid : string) (t : Table) : list Image * Table :=
  update_returning
    (fun r => inArray (id r) imageIds && (userId r =? uid)%string)
    (set_status (to_status s) (now w)) t.

Definition getImageObjectKeysByUserAndIds (uid : string)
    (imageIds : list string) (t : Table) : list (string * string) :=
  map (fun r => (id r, objectKey r))
    (filter (fun r => (userId r =? uid)%string
                      && inArray (id r) imageIds
                      && status_eqb (status r) completed) t).

Definition markImagesAsDeleted (w : World) (imageIds : list string)
    (uid : string) (t : Table) : list Image * Table :=
  update_returning
    (fun r => inArray (id r) imageIds
              && (userId r =? uid)%string
              && status_eqb (status r) completed)
    (set_status deleted (now w)) t.

(** [.orderBy(images.createdAt)]: ascending by creation time.  Rows with
    the same creation time are kept in table order here; the database
    leaves their order open. *)
Fixpoint insert_by_createdAt (r : Image) (l : list Image) : list Image :=
  match l with
  | [] => [r]
  | x :: l' =>
      if createdAt r <=? createdAt x then r :: l
      else x :: insert_by_createdAt r l'
  end.

Definition orderBy_createdAt (l : list Image) : list Image :=
  fold_right insert_by_createdAt [] l.


(** [return updatedImage || null], for the first returned row. *)
Definition markImageCompleted (w : World) (imageId uid : string) (t : Table)
  : option Image * Table :=
  let '(updated, t') :=
    update_returning
      (fun r => (id r =? imageId)%string && (userId r =? uid)%string)
      (set_status completed (now w)) t in
  (nth_error updated 0, t').

Definition markImageFailed (w : World) (imageId : string) (t : Table)
  : option Image * Table :=
  let '(updated, t') :=
    update_returning (fun r => (id r =? imageId)%string)
      (set_status failed (now w)) t in
  (nth_error updated 0, t').




(** The columns [getCompletedImagesByUserId] selects. *)
Record CompletedImage := {
  ci_id : string;
  ci_fileUrl : string;
  ci_mimeType : string;
  ci_sizeBytes : Z;
  ci_status : Status;
  ci_createdAt : Z
}.

Definition select_completed (r : Image) : CompletedImage :=
  {| ci_id := id r; ci_fileUrl := fileUrl r; ci_mimeType := mimeType r;
     ci_sizeBytes := sizeBytes r; ci_status := status r;
     ci_createdAt := createdAt r |}.

Definition getCompletedImagesByUserId (uid : string) (t : Table)
  : list CompletedImage :=
  map select_completed
    (orderBy_createdAt
       (filter (fun r => (userId r =? uid)%string
                         && status_eqb (status r) completed) t)).

End Db.

(* ================================================================== *)
(** ** Parameters of type uuid (PostgreSQL, [uuid_in] and [uuid_out]) *)

Module Pg.

(** [isxdigit] *)
Definition isxdigit (c : ascii) : bool :=
  let n := nat_of_ascii c in
  ((Nat.leb 48 n && Nat.leb n 57)
   || (Nat.leb 97 n && Nat.leb n 102)
   || (Nat.leb 65 n && Nat.leb n 70))%bool.

(** A hexadecimal digit as [uuid_out] prints it: in lower case. *)
Definition out_digit (c : ascii) : ascii :=
  let n := nat_of_ascii c in
  if (Nat.leb 65 n && Nat.leb n 70)%bool then ascii_of_nat (n + 32)%nat
  else c.

(** [uuid_out] puts a dash after the bytes 4, 6, 8 and 10. *)
Definition dash_after (i : nat) : string :=
  if (Nat.eqb i 3 || Nat.eqb i 5 || Nat.eqb i 7 || Nat.eqb i 9)%bool
  then "-" else "".

(** [if (src[0] == '-' && (i % 2) == 1 && i < UUID_LEN - 1) src++] *)
Definition skip_dash (i : nat) (src : string) : string :=
  match src with
  | String d rest =>
      if (Ascii.eqb d "-" && Nat.odd i && Nat.ltb i 15)%bool then rest
      else src
  | EmptyString => src
  end.

(** The loop of [string_to_uuid] over the bytes [i], [i+1], ..: two
    hexadecimal digits each, a dash allowed after every second byte.
    Answers the text of the bytes read, as [uuid_out] prints them, and
    what is left of the input. *)
Fixpoint read_bytes (n i : nat) (src : string) : option (string * string) :=
  match n with
  | O => Some ("", src)
  | S n' =>
      match src with
      | String a (String b rest) =>
          if (isxdigit a && isxdigit b)%bool then
            match read_bytes n' (S i) (skip_dash i rest) with
            | Some (out, final) =>
                Some (String (out_digit a)
                        (String (out_digit b) (dash_after i ++ out)), final)
            | None => None
            end
          else None
      | _ => None
      end
  end.

(** The uuid a text parameter stands for, in the spelling the database
    prints and stores: sixteen bytes, optionally in braces.  [None] is
    the error [invalid input syntax for type uuid]. *)
Definition uuid_in (s : string) : option string :=
  let '(braces, src) :=
    match s with
    | String c r => if Ascii.eqb c "{" then (true, r) else (false, s)
    | EmptyString => (false, s)
    end in
  match read_bytes 16 0 src with
  | Some (out, rest) =>
      if (rest =? (if braces then "}" else ""))%string then Some out
      else None
  | None => None
  end.

Fixpoint uuid_in_all (l : list string) : option (list string) :=
  match l with
  | [] => Some []
  | x :: r =>
      match uuid_in x, uuid_in_all r with
      | Some c, Some cr => Some (c :: cr)
      | _, _ => None
      end
  end.

(** A text with its hexadecimal letters in lower case. *)
Fixpoint lower (s : string) : string :=
  match s with
  | EmptyString => EmptyString
  | String c r => String (out_digit c) (lower r)
  end.

(** The statements of the handlers with their parameters bound: the
    statement throws ([None]) when a parameter is no uuid, and runs on
    the uuids read otherwise. *)
Definition updateImageStatusBatch (w : World) (imageIds : list string)
    (s : ConfirmStatus) (uid : string) (t : Db.Table)
  : option (list Db.Image * Db.Table) :=
  match uuid_in_all imageIds, uuid_in uid with
  | Some ids, Some u => Some (Db.updateImageStatusBatch w ids s u t)
  | _, _ => None
  end.

Definition getImageObjectKeysByUserAndIds (uid : string)
    (imageIds : list string) (t : Db.Table) : option (list (string * string)) :=
  match uuid_in uid, uuid_in_all imageIds with
  | Some u, Some ids => Some (Db.getImageObjectKeysByUserAndIds u ids t)
  | _, _ => None
  end.

Definition markImagesAsDeleted (w : World) (imageIds : list string)
    (uid : string) (t : Db.Table) : option (list Db.Image * Db.Table) :=
  match uuid_in_all imageIds, uuid_in uid with
  | Some ids, Some u => Some (Db.markImagesAsDeleted w ids u t)
  | _, _ => None
  end.

Definition getCompletedImagesByUserId (uid : string) (t : Db.Table)
  : option (list Db.CompletedImage) :=
  match uuid_in uid with
  | Some u => Some (Db.getCompletedImagesByUserId u t)
  | None => None
  end.

Definition markImageCompleted (w : World) (imageId uid : string)
    (t : Db.Table) : option (option Db.Image * Db.Table) :=
  match uuid_in imageId, uuid_in uid with
  | Some i, Some u => Some (Db.markImageCompleted w i u t)
  | _, _ => None
  end.

Definition markImageFailed (w : World) (imageId : string) (t : Db.Table)
  : option (option Db.Image * Db.Table) :=
  match uuid_in imageId with
  | Some i => Some (Db.markImageFailed w i t)
  | None => None
  end.

End Pg.

(* ================================================================== *)
(** ** Object grant issuer (utils/r2.ts) *)

(** The [expiresIn] that [getSignedUrlForUpload] asks of the signer. *)
Definition upload_expiresIn : Z := 3600.

Definition getSignedUrlForUpload (w : World) (key contentType : string)
    (size : Z) : option string :=
  getSignedUrl w key contentType size upload_expiresIn.

Definition deleteFiles (w : World) (keys : list string)
  : option DeleteObjectsOutput :=
  send_DeleteObjects w keys.

(* ================================================================== *)
(** ** Route handlers *)

Record PresignResult := {
  res_objectKey : string;
  res_presignedUrl : string;
  res_publicFileUrl : string;
  res_imageId : string;
  (** [None] is an invalid date *)
  res_expiresAt : option Z
}.

Inductive Response :=
| Unauthorized                                   (* 401 *)
| InvalidRequest                                 (* 400 *)
| InternalError                                  (* 500 *)
| PresignOk (results : list PresignResult)       (* 200 *)
| ConfirmOk (updatedCount : nat)                 (* 200 *)
| NoImagesFound                                  (* 403, no id list *)
| SomeImagesMissing (missingImageIds : list string) (* 403 *)
| StorageDeleteErrors (details : list S3Error)   (* 500 *)
| StorageDeleteFailed                            (* 500 *)
| DeleteOk (deletedCount : nat) (deletedImages : list (string * string)).

Definition http_status (r : Response) : Z :=
  match r with
  | Unauthorized => 401
  | InvalidRequest => 400
  | InternalError => 500
  | PresignOk _ => 200
  | ConfirmOk _ => 200
  | NoImagesFound => 403
  | SomeImagesMissing _ => 403
  | StorageDeleteErrors _ => 500
  | StorageDeleteFailed => 500
  | DeleteOk _ _ => 200
  end.

(** The ids a 403 response names, if it names any. *)
Definition reported_ids (r : Response) : option (list string) :=
  match r with
  | SomeImagesMissing ids => Some ids
  | _ => None
  end.

(** *** presign/route.ts *)

Module Presign.

(** What the per-image callback of STEP 3 returns. *)
Record Presigned := {
  objectKey : string;
  presignedUrl : string;
  publicFileUrl : string;
  fileType_ : string;
  fileSize_ : Z;
  expiresAt : option Z
}.

Definition object_key (uid : string) (image : SingleImageRequest) : string :=
  uid ++ "/" ++ fileId image.

Definition presign_one (env : ProcessEnv) (w : World) (uid : string)
    (image : SingleImageRequest) : option Presigned :=
  let objectKey := object_key uid image in
  let publicFileUrl := Js.tmpl (R2_PUBLIC_BASE_URL env) ++ "/" ++ objectKey in
  match getSignedUrlForUpload w objectKey (fileType image) (fileSize image) with
  | None => None
  | Some url =>
      Some {| objectKey := objectKey;
              presignedUrl := url;
              publicFileUrl := publicFileUrl;
              fileType_ := fileType image;
              fileSize_ := fileSize image;
              expiresAt :=
                option_map (fun secs => now w + secs * 1000)
                  (IMAGE_EXPIRATION_SECONDS env) |}
  end.

(** [Promise.all(items.map(f))]: rejects when one of the calls does. *)
Fixpoint promise_all {A B} (f : A -> option B) (l : list A)
  : option (list B) :=
  match l with
  | [] => Some []
  | a :: r =>
      match f a, promise_all f r with
      | Some b, Some br => Some (b :: br)
      | _, _ => None
      end
  end.

Definition image_data (uid : string) (p : Presigned) : Db.NewImage :=
  {| Db.new_userId := uid;
     Db.new_objectKey := objectKey p;
     Db.new_fileUrl := publicFileUrl p;
     Db.new_mimeType := fileType_ p;
     Db.new_sizeBytes := fileSize_ p |}.

(** [presignedResults.map((result, index) => .. imageRecords[index].id ..)];
    reading [.id] of a missing record throws. *)
Fixpoint combine_results (index : nat) (presignedResults : list Presigned)
    (imageRecords : list Db.Image) : option (list PresignResult) :=
  match presignedResults with
  | [] => Some []
  | p :: r =>
      match nth_error imageRecords index,
            combine_results (S index) r imageRecords with
      | Some rec, Some rs =>
          Some ({| res_objectKey := objectKey p;
                   res_presignedUrl := presignedUrl p;
                   res_publicFileUrl := publicFileUrl p;
                   res_imageId := Db.id rec;
                   res_expiresAt := expiresAt p |} :: rs)
      | _, _ => None
      end
  end.

Definition POST (env : ProcessEnv) (w : World) (request : NextRequest)
    (t : Db.Table) : Response * Db.Table :=
  match presign_caller env request with
  | None => (Unauthorized, t)
  | Some uid =>
      match body request with
      | None => (InternalError, t)
      | Some b =>
          match presignRequestSchema env b with
          | None => (InvalidRequest, t)
          | Some images =>
              match promise_all (presign_one env w uid) images with
              | None => (InternalError, t)
              | Some presignedResults =>
                  let imageData := map (image_data uid) presignedResults in
                  match Db.createImageRecordsBatch w imageData t with
                  | None => (InternalError, t)
                  | Some (imageRecords, t') =>
                      match combine_results 0 presignedResults imageRecords with
                      | None => (InternalError, t')
                      | Some results => (PresignOk results, t')
                      end
                  end
              end
          end
      end
  end.

End Presign.

(** *** confirm/route.ts *)

(** The handler on a token and ids in the spelling the database prints;
    [ConfirmPg] is the handler on any token and any spelling. *)
Module Confirm.

(** The accumulator of STEP 3: a group is undefined until its first id. *)
Record Grouped := {
  g_completed : option (list string);
  g_failed : option (list string)
}.

Definition push (acc : option (list string)) (x : string)
  : option (list string) :=
  Some ((match acc with Some l => l | None => [] end) ++ [x])%list.

Definition group_step (acc : Grouped) (update : ImageUpdate) : Grouped :=
  match u_status update with
  | confirm_completed =>
      {| g_completed := push (g_completed acc) (imageId update);
         g_failed := g_failed acc |}
  | confirm_failed =>
      {| g_completed := g_completed acc;
         g_failed := push (g_failed acc) (imageId update) |}
  end.

Definition groupedUpdates (updates : list ImageUpdate) : Grouped :=
  fold_left group_step updates {| g_completed := None; g_failed := None |}.

(** [if (group && group.length > 0) { .. updateImageStatusBatch .. }] *)
Definition process (w : World) (group : option (list string))
    (s : ConfirmStatus) (uid : string) (t : Db.Table)
  : list Db.Image * Db.Table :=
  match group with
  | Some (i :: ids) => Db.updateImageStatusBatch w (i :: ids) s uid t
  | _ => ([], t)
  end.

Definition POST (env : ProcessEnv) (w : World) (request : NextRequest)
    (t : Db.Table) : Response * Db.Table :=
  match caller env request with
  | None => (Unauthorized, t)
  | Some uid =>
      match body request with
      | None => (InternalError, t)
      | Some b =>
          match confirmUploadSchema env b with
          | None => (InvalidRequest, t)
          | Some updates =>
              let g := groupedUpdates updates in
              let '(completedImages, t1) :=
                process w (g_completed g) confirm_completed uid t in
              let '(failedImages, t2) :=
                process w (g_failed g) confirm_failed uid t1 in
              let allUpdatedImages := (completedImages ++ failedImages)%list in
              (ConfirmOk (List.length allUpdatedImages), t2)
          end
      end
  end.

End Confirm.

(** *** files/route.ts, DELETE *)

(** The handlers on a token and ids in the spelling the database prints;
    [FilesPg] has them on any token and any spelling. *)
Module Files.

(** [response.Errors && response.Errors.length > 0] *)
Definition has_errors (response : DeleteObjectsOutput) : bool :=
  match Errors response with
  | Some (_ :: _) => true
  | _ => false
  end.

Definition DELETE (env : ProcessEnv) (w : World) (request : NextRequest)
    (t : Db.Table) : Response * Db.Table :=
  match caller env request with
  | None => (Unauthorized, t)
  | Some uid =>
      match body request with
      | None => (InternalError, t)
      | Some b =>
          match deleteImagesSchema env b with
          | None => (InvalidRequest, t)
          | Some imageIds =>
              let imageObjectKeys :=
                Db.getImageObjectKeysByUserAndIds uid imageIds t in
              if Nat.eqb (List.length imageObjectKeys) 0
              then (NoImagesFound, t)
              else
                let foundImageIds := map fst imageObjectKeys in
                let missingImageIds :=
                  filter (fun i => negb (Js.includes foundImageIds i)) imageIds in
                if Nat.ltb 0 (List.length missingImageIds)
                then (SomeImagesMissing missingImageIds, t)
                else
                  let objectKeys := map snd imageObjectKeys in
                  match deleteFiles w objectKeys with
                  | None => (StorageDeleteFailed, t)
                  | Some response =>
                      if has_errors response
                      then (StorageDeleteErrors
                              (match Errors response with
                               | Some l => l
                               | None => []
                               end), t)
                      else
                        let '(deletedImages, t') :=
                          Db.markImagesAsDeleted w imageIds uid t in
                        (DeleteOk (List.length deletedImages)
                           (map (fun img => (Db.id img, Db.objectKey img))
                              deletedImages), t')
                  end
          end
      end
  end.

(** GET: the completed images of the caller, status 200; [inl] is an
    error response. *)
Definition GET (env : ProcessEnv) (request : NextRequest) (t : Db.Table)
  : Response + list Db.CompletedImage :=
  match caller env request with
  | None => inl Unauthorized
  | Some uid => inr (Db.getCompletedImagesByUserId uid t)
  end.

End Files.

(** *** confirm/route.ts and files/route.ts on parameters as spelled *)

Module ConfirmPg.

(** [if (group && group.length > 0) { .. updateImageStatusBatch .. }] *)
Definition process (w : World) (group : option (list string))
    (s : ConfirmStatus) (uid : string) (t : Db.Table)
  : option (list Db.Image * Db.Table) :=
  match group with
  | Some (i :: ids) => Pg.updateImageStatusBatch w (i :: ids) s uid t
  | _ => Some ([], t)
  end.

(** A statement that throws is caught by the handler, which answers 500;
    what an earlier statement wrote stays written. *)
Definition POST (env : ProcessEnv) (w : World) (request : NextRequest)
    (t : Db.Table) : Response * Db.Table :=
  match caller env request with
  | None => (Unauthorized, t)
  | Some uid =>
      match body request with
      | None => (InternalError, t)
      | Some b =>
          match confirmUploadSchema env b with
          | None => (InvalidRequest, t)
          | Some updates =>
              let g := Confirm.groupedUpdates updates in
              match process w (Confirm.g_completed g) confirm_completed uid t
              with
              | None => (InternalError, t)
              | Some (completedImages, t1) =>
                  match process w (Confirm.g_failed g) confirm_failed uid t1
                  with
                  | None => (InternalError, t1)
                  | Some (failedImages, t2) =>
                      let allUpdatedImages :=
                        (completedImages ++ failedImages)%list in
                      (ConfirmOk (List.length allUpdatedImages), t2)
                  end
              end
          end
      end
  end.

End ConfirmPg.

Module FilesPg.

(** [foundImageIds.includes(id)] compares the id as the request spells it
    with the ids as the database printed them. *)
Definition DELETE (env : ProcessEnv) (w : World) (request : NextRequest)
    (t : Db.Table) : Response * Db.Table :=
  match caller env request with
  | None => (Unauthorized, t)
  | Some uid =>
      match body request with
      | None => (InternalError, t)
      | Some b =>
          match deleteImagesSchema env b with
          | None => (InvalidRequest, t)
          | Some imageIds =>
              match Pg.getImageObjectKeysByUserAndIds uid imageIds t with
              | None => (InternalError, t)
              | Some imageObjectKeys =>
                  if Nat.eqb (List.length imageObjectKeys) 0
                  then (NoImagesFound, t)
                  else
                    let foundImageIds := map fst imageObjectKeys in
                    let missingImageIds :=
                      filter (fun i => negb (Js.includes foundImageIds i))
                        imageIds in
                    if Nat.ltb 0 (List.length missingImageIds)
                    then (SomeImagesMissing missingImageIds, t)
                    else
                      let objectKeys := map snd imageObjectKeys in
                      match deleteFiles w objectKeys with
                      | None => (StorageDeleteFailed, t)
                      | Some response =>
                          if Files.has_errors response
                          then (StorageDeleteErrors
                                  (match Errors response with
                                   | Some l => l
                                   | None => []
                                   end), t)
                          else
                            match Pg.markImagesAsDeleted w imageIds uid t with
                            | None => (InternalError, t)
                            | Some (deletedImages, t') =>
                                (DeleteOk (List.length deletedImages)
                                   (map (fun img =>
                                           (Db.id img, Db.objectKey img))
                                      deletedImages), t')
                            end
                      end
              end
          end
      end
  end.

Definition GET (env : ProcessEnv) (request : NextRequest) (t : Db.Table)
  : Response + list Db.CompletedImage :=
  match caller env request with
  | None => inl Unauthorized
  | Some uid =>
      match Pg.getCompletedImagesByUserId uid t with
      | None => inl InternalError
      | Some completedImages => inr completedImages
      end
  end.

End FilesPg.

(* ================================================================== *)
(** ** The browser side (app/uploader.tsx, components/ui/images-table.tsx) *)

Module Client.

(** uploader.tsx: [const MAX_IMAGES = 5] *)
Definition MAX_IMAGES : nat := 5.

(** [onDrop]: [selectedFiles] is the state the handler closed over at
    render time, [prev] the state its updater receives. *)
Definition onDrop {File : Type} (selectedFiles prev acceptedFiles : list File)
  : list File :=
  let totalFiles := (List.length selectedFiles + List.length acceptedFiles)%nat in
  if Nat.ltb MAX_IMAGES totalFiles then prev
  else (prev ++ acceptedFiles)%list.

Fixpoint filter_index {A : Type} (keep : nat -> bool) (index : nat)
    (l : list A) : list A :=
  match l with
  | [] => []
  | x :: r =>
      if keep index then x :: filter_index keep (S index) r
      else filter_index keep (S index) r
  end.

(** [prev.filter((_, index) => index !== indexToRemove)] *)
Definition handleRemoveFile {File : Type} (indexToRemove : nat)
    (prev : list File) : list File :=
  filter_index (fun index => negb (Nat.eqb index indexToRemove)) 0 prev.

(** The header every call sends:
    [`Bearer ${process.env.NEXT_PUBLIC_OUR_AUTH_TOKEN}`]. *)
Definition authorization_header (env : ProcessEnv) : string :=
  "Bearer " ++ Js.tmpl (OUR_AUTH_TOKEN env).

(** The request as the browser builds it; it is the request the handler
    receives when the value of the header travels unchanged. *)
Definition send (env : ProcessEnv) (data : Json) : NextRequest :=
  {| authorization := Some (authorization_header env); body := Some data |}.

(** HTTP white space: space, tab, line feed, carriage return. *)
Definition http_ws (c : ascii) : bool :=
  let n := nat_of_ascii c in
  (Nat.eqb n 32 || Nat.eqb n 9 || Nat.eqb n 10 || Nat.eqb n 13)%bool.

Fixpoint trim_end (s : string) : string :=
  match s with
  | EmptyString => EmptyString
  | String c r =>
      match trim_end r with
      | EmptyString => if http_ws c then EmptyString else String c EmptyString
      | r' => String c r'
      end
  end.

Fixpoint trim_start (s : string) : string :=
  match s with
  | String c r => if http_ws c then trim_start r else s
  | EmptyString => EmptyString
  end.

(** The value of a header as it is read on the other side: without the
    white space at its ends. *)
Definition header_value (s : string) : string := trim_start (trim_end s).

(** The request the handler receives. *)
Definition arrives (env : ProcessEnv) (data : Json) : NextRequest :=
  {| authorization := Some (header_value (authorization_header env));
     body := Some data |}.

(** [{ images: preparedImages.map(img => ({ fileId, fileType, fileSize })) }] *)
Definition presign_body (preparedImages : list SingleImageRequest) : Json :=
  JObj [("images",
         JArr (map (fun img =>
                      JObj [("fileId", JStr (fileId img));
                            ("fileType", JStr (fileType img));
                            ("fileSize", JNum (fileSize img))])
                 preparedImages))].

Definition status_text (s : ConfirmStatus) : string :=
  match s with
  | confirm_completed => "completed"
  | confirm_failed => "failed"
  end.

(** [{ updates: uploadStatuses }] *)
Definition confirm_body (uploadStatuses : list ImageUpdate) : Json :=
  JObj [("updates",
         JArr (map (fun u =>
                      JObj [("imageId", JStr (imageId u));
                            ("status", JStr (status_text (u_status u)))])
                 uploadStatuses))].

(** What the upload of one presigned result pushes on [uploadStatuses]. *)
Definition upload_status (result : PresignResult) (success : bool)
  : ImageUpdate :=
  {| imageId := res_imageId result;
     u_status := if success then confirm_completed else confirm_failed |}.

(** images-table.tsx: [{ imageIds: [imageId] }] *)
Definition delete_body (imageId : string) : Json :=
  JObj [("imageIds", JArr [JStr imageId])].

(** images-table.tsx: [image.mimeType.split('/')[1] || 'jpg'] *)
Definition fileExtension (mimeType : string) : string :=
  match nth_error (Js.split "/" mimeType) 1 with
  | Some EmptyString => "jpg"
  | Some e => e
  | None => "jpg"
  end.

(** [`image-${image.id}.${fileExtension}`] *)
Definition filename (id mimeType : string) : string :=
  "image-" ++ id ++ "." ++ fileExtension mimeType.

End Client.

(* ================================================================== *)
(** ** Notions used to state the properties *)

(** The row filter of [updateImageStatusBatch] and of
    [markImagesAsDeleted]. *)
Definition confirm_hit (imageIds : list string) (uid : string) (r : Db.Image)
  : bool :=
  Db.inArray (Db.id r) imageIds && (Db.userId r =? uid)%string.

Definition delete_hit (imageIds : list string) (uid : string) (r : Db.Image)
  : bool :=
  Db.inArray (Db.id r) imageIds && (Db.userId r =? uid)%string
  && Db.status_eqb (Db.status r) Db.completed.

Definition confirm_status_eqb (a b : ConfirmStatus) : bool :=
  match a, b with
  | confirm_completed, confirm_completed => true
  | confirm_failed, confirm_failed => true
  | _, _ => false
  end.

(** The ids a confirm request lists under one outcome, in request order. *)
Definition ids_of (s : ConfirmStatus) (updates : list ImageUpdate)
  : list string :=
  map imageId (filter (fun u => confirm_status_eqb (u_status u) s) updates).

Definition extend (acc : option (list string)) (l : list string)
  : option (list string) :=
  match l with
  | [] => acc
  | _ => Some ((match acc with Some a => a | None => [] end) ++ l)%list
  end.

(** The rows a delete request resolves to, the requested ids it does not
    resolve, and whether the storage delete of a batch of keys comes back
    without throwing and without a per-key error. *)
Definition resolved (uid : string) (imageIds : list string) (t : Db.Table)
  : list (string * string) :=
  Db.getImageObjectKeysByUserAndIds uid imageIds t.

Definition missing (uid : string) (imageIds : list string) (t : Db.Table)
  : list string :=
  filter (fun i => negb (Js.includes (map fst (resolved uid imageIds t)) i))
    imageIds.

Definition storage_clean (w : World) (keys : list string) : bool :=
  match deleteFiles w keys with
  | Some response => negb (Files.has_errors response)
  | None => false
  end.

(** One batch update seen on a single row, and the two batch updates of a
    confirm request (completed group first, failed group second). *)
Definition batch_row (w : World) (imageIds : list string) (s : ConfirmStatus)
    (uid : string) (r : Db.Image) : Db.Image :=
  if confirm_hit imageIds uid r
  then Db.set_status (Db.to_status s) (now w) r else r.

Definition confirm_row (w : World) (uid : string) (updates : list ImageUpdate)
    (r : Db.Image) : Db.Image :=
  batch_row w (ids_of confirm_failed updates) confirm_failed uid
    (batch_row w (ids_of confirm_completed updates) confirm_completed uid r).

(** Number of rows a batch update of these ids for this owner matches. *)
Definition matched (imageIds : list string) (uid : string) (t : Db.Table)
  : nat :=
  List.length (filter (confirm_hit imageIds uid) t).

(** The columns no statement of the handlers writes. *)
Definition same_identity (r r' : Db.Image) : Prop :=
  Db.id r' = Db.id r /\ Db.userId r' = Db.userId r
  /\ Db.objectKey r' = Db.objectKey r /\ Db.fileUrl r' = Db.fileUrl r
  /\ Db.mimeType r' = Db.mimeType r /\ Db.sizeBytes r' = Db.sizeBytes r
  /\ Db.createdAt r' = Db.createdAt r.

(** Reading the parameters as uuids: an id a confirm request lists under
    an outcome, or a delete request names, as the database reads it; the
    updates of a confirm request with every id in lower case; and the
    rows the lookup of a delete request resolves to, none when it
    throws. *)
Definition listed (s : ConfirmStatus) (updates : list ImageUpdate)
    (c : string) : Prop :=
  exists i, In {| imageId := i; u_status := s |} updates
            /\ Pg.uuid_in i = Some c.

Definition lower_update (u : ImageUpdate) : ImageUpdate :=
  {| imageId := Pg.lower (imageId u); u_status := u_status u |}.

Definition looked_up (uid : string) (imageIds : list string) (t : Db.Table)
  : list (string * string) :=
  match Pg.getImageObjectKeysByUserAndIds uid imageIds t with
  | Some l => l
  | None => []
  end.

(** The ids of a group of [groupedUpdates]. *)
Definition group_ids (group : option (list string)) : list string :=
  match group with
  | Some l => l
  | None => []
  end.

(** A token every character of which is a visible ASCII character. *)
Definition visible (c : ascii) : bool :=
  let n := nat_of_ascii c in (Nat.leb 33 n && Nat.leb n 126)%bool.

Fixpoint all_visible (s : string) : bool :=
  match s with
  | EmptyString => true
  | String c r => visible c && all_visible r
  end.

(** The bounds of the request schemas, read as propositions: the size of
    a batch, and one image of a presign request.  An upper bound only
    binds when its constant is a number. *)
Definition valid_batch (env : ProcessEnv) (n : nat) : Prop :=
  (1 <= n)%nat /\ forall m, MAX_IMAGES env = Some m -> Z.of_nat n <= m.

Definition valid_image (env : ProcessEnv) (img : SingleImageRequest) : Prop :=
  Zod.uuid (fileId img) = true
  /\ fileType img <> ""
  /\ 0 < fileSize img
  /\ forall m, MAX_IMAGE_SIZE_BYTES env = Some m -> fileSize img <= m.

(* ================================================================== *)
(** ** Sample inputs *)

Module Sample.

Definition alice : string := "aaaaaaaa-aaaa-4aaa-8aaa-aaaaaaaaaaaa".
Definition bob : string := "bbbbbbbb-bbbb-4bbb-8bbb-bbbbbbbbbbbb".

Definition r1 : string := "00000000-0000-4000-8000-000000000001".
Definition r2 : string := "00000000-0000-4000-8000-000000000002".
Definition r3 : string := "00000000-0000-4000-8000-000000000003".
Definition f1 : string := "123e4567-e89b-42d3-a456-426614174000".

(** Only the token and the public base url are set. *)
Definition env : ProcessEnv :=
  {| env_NEXT_PUBLIC_OUR_AUTH_TOKEN := Some alice;
     env_R2_PUBLIC_BASE_URL := Some "https://cdn.example";
     env_NEXT_PUBLIC_MAX_IMAGE_SIZE_KB := None;
     env_MAX_IMAGE_SIZE_KB := None;
     env_MAX_IMAGES := None |}.

Definition uuid_of (i : nat) : string :=
  match i with
  | O => r1
  | S O => r2
  | _ => r3
  end.

(** Every collaborator answers. *)
Definition world : World :=
  {| now := 1700000000000;
     getSignedUrl := fun key _ _ _ => Some ("https://r2.example/" ++ key);
     send_DeleteObjects :=
       fun keys => Some {| Deleted := Some keys; Errors := None |};
     gen_random_uuid := uuid_of;
     insert_refused := false |}.

(** The storage delete reports an error for every key. *)
Definition world_s3_errors : World :=
  {| now := 1700000000000;
     getSignedUrl := fun key _ _ _ => Some ("https://r2.example/" ++ key);
     send_DeleteObjects :=
       fun keys =>
         Some {| Deleted := None;
                 Errors :=
                   Some (map (fun k => {| err_Key := Some k;
                                          err_Code := Some "InternalError";
                                          err_Message := None |}) keys) |};
     gen_random_uuid := uuid_of;
     insert_refused := false |}.


Definition row (i owner : string) (s : Db.Status) : Db.Image :=
  {| Db.id := i; Db.userId := owner;
     Db.objectKey := owner ++ "/" ++ f1;
     Db.fileUrl := "https://cdn.example/" ++ owner ++ "/" ++ f1;
     Db.mimeType := "image/webp"; Db.sizeBytes := 500000;
     Db.status := s; Db.createdAt := 1600000000000;
     Db.completedAt := None |}.

Definition request (b : Json) : NextRequest :=
  {| authorization := Some ("Bearer " ++ alice); body := Some b |}.

Definition update (i outcome : string) : Json :=
  JObj [("imageId", JStr i); ("status", JStr outcome)].

Definition confirm (l : list Json) : NextRequest :=
  request (JObj [("updates", JArr l)]).

Definition delete (ids : list string) : NextRequest :=
  request (JObj [("imageIds", JArr (map JStr ids))]).

Definition image (i : string) : Json :=
  JObj [("fileId", JStr i); ("fileType", JStr "image/webp");
        ("fileSize", JNum 500000)].

Definition presign (l : list Json) : NextRequest :=
  request (JObj [("images", JArr l)]).

(** An id with letters, in lower and in upper case, and a token that is
    no uuid. *)
Definition ra : string := "0000000a-0000-4000-8000-00000000000a".
Definition RA : string := "0000000A-0000-4000-8000-00000000000A".

Definition env_plain_token : ProcessEnv :=
  {| env_NEXT_PUBLIC_OUR_AUTH_TOKEN := Some "secret";
     env_R2_PUBLIC_BASE_URL := Some "https://cdn.example";
     env_NEXT_PUBLIC_MAX_IMAGE_SIZE_KB := None;
     env_MAX_IMAGE_SIZE_KB := None;
     env_MAX_IMAGES := None |}.

Definition plain_request (b : Json) : NextRequest :=
  {| authorization := Some "Bearer secret"; body := Some b |}.

Definition env_empty_token : ProcessEnv :=
  {| env_NEXT_PUBLIC_OUR_AUTH_TOKEN := Some "";
     env_R2_PUBLIC_BASE_URL := Some "https://cdn.example";
     env_NEXT_PUBLIC_MAX_IMAGE_SIZE_KB := None;
     env_MAX_IMAGE_SIZE_KB := None;
     env_MAX_IMAGES := None |}.

End Sample.

(* ================================================================== *)
(** * Properties *)

(** ** The capability check *)

Lemma authCheck_cases env request :
  (authorization request = Some ("Bearer " ++ Js.tmpl (OUR_AUTH_TOKEN env))
   /\ authCheck env request
      = {| authenticated := true; userId := OUR_AUTH_TOKEN env |})
  \/ (authorization request <> Some ("Bearer " ++ Js.tmpl (OUR_AUTH_TOKEN env))
      /\ authCheck env request
         = {| authenticated := false; userId := None |}).
Proof.
  unfold authCheck.
  destruct (authorization request) as [h|]; [|right; split; [discriminate|reflexivity]].
  destruct (String.eqb_spec h "") as [E|E]; cbn [orb].
  - right. split; [|reflexivity]. subst h. cbn. discriminate.
  - destruct (String.eqb_spec h ("Bearer " ++ Js.tmpl (OUR_AUTH_TOKEN env)))
      as [E'|E']; cbn [negb].
    + left. split; [now subst|reflexivity].
    + right. split; [congruence|reflexivity].
Qed.

Lemma caller_token env request uid :
  caller env request = Some uid ->
  OUR_AUTH_TOKEN env = Some uid /\ uid <> ""
  /\ authorization request = Some ("Bearer " ++ uid).
Proof.
  unfold caller.
  destruct (authCheck_cases env request) as [[Hh ->]|[_ ->]]; cbn.
  - destruct (OUR_AUTH_TOKEN env) as [[|c s]|]; cbn; try discriminate.
    intros [= <-]. repeat split; [discriminate|exact Hh].
  - discriminate.
Qed.

Lemma presign_caller_eq env request :
  presign_caller env request = caller env request.
Proof.
  unfold presign_caller, caller.
  destruct (authCheck_cases env request) as [[_ ->]|[_ ->]]; reflexivity.
Qed.

(** C10. [authCheck] authenticates a request exactly when its
    authorization header is the text [Bearer ] followed by the configured
    token; the identity it hands out is the token itself, so any two
    authenticated requests get the same identity, and the guarded handlers
    scope every authenticated request to one and the same owner. *)
Theorem authCheck_one_identity (env : ProcessEnv) :
  (forall request,
      authenticated (authCheck env request) = true
      <-> authorization request
          = Some ("Bearer " ++ Js.tmpl (OUR_AUTH_TOKEN env)))
  /\ (forall request,
         authenticated (authCheck env request) = true ->
         userId (authCheck env request) = OUR_AUTH_TOKEN env)
  /\ (forall r1 r2,
         authenticated (authCheck env r1) = true ->
         authenticated (authCheck env r2) = true ->
         userId (authCheck env r1) = userId (authCheck env r2))
  /\ (forall r1 r2 u1 u2,
         caller env r1 = Some u1 -> caller env r2 = Some u2 -> u1 = u2).
Proof.
  repeat split.
  - destruct (authCheck_cases env request) as [[Hh ->]|[Hh ->]]; cbn;
      [trivial|discriminate].
  - destruct (authCheck_cases env request) as [[Hh ->]|[Hh ->]]; cbn;
      [trivial|contradiction].
  - intros request.
    destruct (authCheck_cases env request) as [[_ ->]|[_ ->]]; cbn;
      [trivial|discriminate].
  - intros r1 r2.
    destruct (authCheck_cases env r1) as [[_ ->]|[_ ->]];
      destruct (authCheck_cases env r2) as [[_ ->]|[_ ->]]; cbn;
      trivial; discriminate.
  - intros r1 r2 u1 u2 H1 H2.
    apply caller_token in H1 as [H1 _]. apply caller_token in H2 as [H2 _].
    congruence.
Qed.

(** A concrete instance: two authenticated requests with
    different bodies get the same identity. *)
Lemma authCheck_one_identity_witness :
  userId (authCheck Sample.env (Sample.delete [Sample.r1]))
  = userId (authCheck Sample.env (Sample.confirm [])).
Proof.
  exact (proj1 (proj2 (proj2 (authCheck_one_identity Sample.env)))
           (Sample.delete [Sample.r1]) (Sample.confirm [])
           eq_refl eq_refl).
Defined.

(** ** The record store *)

Section UpdateReturning.

Variable hit : Db.Image -> bool.
Variable set : Db.Image -> Db.Image.

Lemma update_returning_nth t i r :
  nth_error t i = Some r ->
  nth_error (snd (Db.update_returning hit set t)) i
  = Some (if hit r then set r else r).
Proof.
  intros H. cbn [Db.update_returning snd].
  rewrite nth_error_map, H. reflexivity.
Qed.

Lemma update_returning_count t :
  List.length (fst (Db.update_returning hit set t))
  = List.length (filter hit t).
Proof. cbn. apply length_map. Qed.


Lemma update_returning_miss t :
  (forall r, In r t -> hit r = false) ->
  Db.update_returning hit set t = ([], t).
Proof.
  intros H. unfold Db.update_returning. f_equal.
  - induction t as [|a t IH]; cbn; [reflexivity|].
    rewrite (H a) by (left; reflexivity).
    apply IH. intros r Hr. apply H. right. exact Hr.
  - induction t as [|a t IH]; cbn; [reflexivity|].
    rewrite (H a) by (left; reflexivity). f_equal.
    apply IH. intros r Hr. apply H. right. exact Hr.
Qed.

End UpdateReturning.

Lemma inArray_In x l : Db.inArray x l = true <-> In x l.
Proof.
  unfold Db.inArray. rewrite existsb_exists. split.
  - intros (y & Hy & E). apply String.eqb_eq in E. now subst.
  - intros H. exists x. split; [exact H|apply String.eqb_refl].
Qed.

Lemma status_eqb_eq a b : Db.status_eqb a b = true <-> a = b.
Proof. destruct a, b; cbn; split; congruence. Qed.

Lemma confirm_hit_owner ids uid r :
  confirm_hit ids uid r = true -> Db.userId r = uid.
Proof.
  unfold confirm_hit. intros H. apply andb_prop in H as [_ H].
  now apply String.eqb_eq.
Qed.

Lemma delete_hit_inv ids uid r :
  delete_hit ids uid r = true ->
  In (Db.id r) ids /\ Db.userId r = uid /\ Db.status r = Db.completed.
Proof.
  unfold delete_hit. intros H.
  apply andb_prop in H as [H H3]. apply andb_prop in H as [H1 H2].
  repeat split; [now apply inArray_In|now apply String.eqb_eq
                |now apply status_eqb_eq].
Qed.

(** ** The handlers, step by step *)

Lemma fold_group_step updates : forall acc,
  Confirm.g_completed (fold_left Confirm.group_step updates acc)
  = extend (Confirm.g_completed acc) (ids_of confirm_completed updates)
  /\ Confirm.g_failed (fold_left Confirm.group_step updates acc)
     = extend (Confirm.g_failed acc) (ids_of confirm_failed updates).
Proof.
  induction updates as [|u us IH]; intros acc; [split; reflexivity|].
  cbn [fold_left]. destruct (IH (Confirm.group_step acc u)) as [Hc Hf].
  rewrite Hc, Hf. unfold Confirm.group_step, ids_of.
  cbn [filter]. destruct (u_status u); cbn [confirm_status_eqb map
    Confirm.g_completed Confirm.g_failed Confirm.push]; split;
    try reflexivity.
  - destruct (map imageId _) as [|x l]; cbn [extend]; [reflexivity|].
    unfold Confirm.push. now rewrite <- app_assoc.
  - destruct (map imageId _) as [|x l]; cbn [extend]; [reflexivity|].
    unfold Confirm.push. now rewrite <- app_assoc.
Qed.

Lemma groupedUpdates_spec updates :
  Confirm.g_completed (Confirm.groupedUpdates updates)
  = extend None (ids_of confirm_completed updates)
  /\ Confirm.g_failed (Confirm.groupedUpdates updates)
     = extend None (ids_of confirm_failed updates).
Proof. apply (fold_group_step updates). Qed.

Lemma process_extend w ids s uid t :
  Confirm.process w (extend None ids) s uid t
  = Db.updateImageStatusBatch w ids s uid t.
Proof.
  destruct ids as [|i ids]; [|reflexivity].
  cbn [extend Confirm.process]. unfold Db.updateImageStatusBatch.
  symmetry. apply update_returning_miss. reflexivity.
Qed.

(** What the confirm handler does once the request passed the guard and
    the schema: the completed group, then the failed group. *)
Lemma Confirm_POST_run env w request t uid b updates :
  caller env request = Some uid ->
  body request = Some b ->
  confirmUploadSchema env b = Some updates ->
  Confirm.POST env w request t
  = let c := Db.updateImageStatusBatch w (ids_of confirm_completed updates)
               confirm_completed uid t in
    let f := Db.updateImageStatusBatch w (ids_of confirm_failed updates)
               confirm_failed uid (snd c) in
    (ConfirmOk (List.length (fst c ++ fst f)), snd f).
Proof.
  intros Hc Hb Hs. unfold Confirm.POST. rewrite Hc, Hb, Hs.
  destruct (groupedUpdates_spec updates) as [-> ->].
  rewrite process_extend.
  destruct (Db.updateImageStatusBatch w (ids_of confirm_completed updates) _ _ _)
    as [c t1]. cbn [snd fst]. rewrite process_extend.
  destruct (Db.updateImageStatusBatch w (ids_of confirm_failed updates) _ _ _)
    as [f t2]. reflexivity.
Qed.

(** A confirm request that does not get that far leaves the table alone. *)
Lemma Confirm_POST_inv env w request t :
  snd (Confirm.POST env w request t) = t
  \/ exists uid b updates,
      caller env request = Some uid /\ body request = Some b
      /\ confirmUploadSchema env b = Some updates.
Proof.
  unfold Confirm.POST.
  destruct (caller env request) as [uid|]; [|left; reflexivity].
  destruct (body request) as [b|]; [|left; reflexivity].
  destruct (confirmUploadSchema env b) as [updates|] eqn:Hs;
    [|left; reflexivity].
  right. exists uid, b, updates. auto.
Qed.

Lemma Files_DELETE_run env w request t uid b imageIds :
  caller env request = Some uid ->
  body request = Some b ->
  deleteImagesSchema env b = Some imageIds ->
  Files.DELETE env w request t
  = match resolved uid imageIds t with
    | [] => (NoImagesFound, t)
    | _ :: _ =>
        match missing uid imageIds t with
        | _ :: _ => (SomeImagesMissing (missing uid imageIds t), t)
        | [] =>
            match deleteFiles w (map snd (resolved uid imageIds t)) with
            | None => (StorageDeleteFailed, t)
            | Some response =>
                if Files.has_errors response
                then (StorageDeleteErrors
                        (match Errors response with
                         | Some l => l
                         | None => []
                         end), t)
                else
                  let m := Db.markImagesAsDeleted w imageIds uid t in
                  (DeleteOk (List.length (fst m))
                     (map (fun img => (Db.id img, Db.objectKey img)) (fst m)),
                   snd m)
            end
        end
    end.
Proof.
  intros Hc Hb Hs. unfold Files.DELETE. rewrite Hc, Hb, Hs.
  fold (resolved uid imageIds t). fold (missing uid imageIds t).
  destruct (resolved uid imageIds t) as [|k ks] eqn:Hr; [reflexivity|].
  cbn [List.length Nat.eqb].
  destruct (missing uid imageIds t) as [|x xs]; [|reflexivity].
  cbn [List.length Nat.ltb Nat.leb].
  destruct (deleteFiles w _) as [response|]; [|reflexivity].
  destruct (Files.has_errors response); [reflexivity|].
  destruct (Db.markImagesAsDeleted w imageIds uid t). reflexivity.
Qed.

Lemma Files_DELETE_inv env w request t :
  snd (Files.DELETE env w request t) = t
  \/ exists uid b imageIds,
      caller env request = Some uid /\ body request = Some b
      /\ deleteImagesSchema env b = Some imageIds.
Proof.
  unfold Files.DELETE.
  destruct (caller env request) as [uid|]; [|left; reflexivity].
  destruct (body request) as [b|]; [|left; reflexivity].
  destruct (deleteImagesSchema env b) as [imageIds|] eqn:Hs;
    [|left; reflexivity].
  right. exists uid, b, imageIds. auto.
Qed.

(** The table after a delete request is the old table, or the old table
    after [markImagesAsDeleted] for the caller, and the latter only behind
    a clean storage delete. *)
Lemma Files_DELETE_table env w request t :
  snd (Files.DELETE env w request t) = t
  \/ exists uid b imageIds,
      caller env request = Some uid /\ body request = Some b
      /\ deleteImagesSchema env b = Some imageIds
      /\ storage_clean w (map snd (resolved uid imageIds t)) = true
      /\ Files.DELETE env w request t
         = (let m := Db.markImagesAsDeleted w imageIds uid t in
            (DeleteOk (List.length (fst m))
               (map (fun img => (Db.id img, Db.objectKey img)) (fst m)),
             snd m)).
Proof.
  destruct (Files_DELETE_inv env w request t)
    as [H|(uid & b & ids & Hc & Hb & Hs)]; [left; exact H|].
  rewrite (Files_DELETE_run env w request t uid b ids Hc Hb Hs).
  unfold storage_clean.
  destruct (resolved uid ids t) as [|k ks] eqn:Hr; [left; reflexivity|].
  destruct (missing uid ids t) as [|x xs]; [|left; reflexivity].
  destruct (deleteFiles w _) as [response|] eqn:Hd; [|left; reflexivity].
  destruct (Files.has_errors response) eqn:He; [left; reflexivity|].
  right. exists uid, b, ids. rewrite Hr, Hd, He. repeat split; trivial.
Qed.



(** ** Ownership *)

Lemma batch_row_other w ids s uid r :
  Db.userId r <> uid -> batch_row w ids s uid r = r.
Proof.
  intros H. unfold batch_row.
  destruct (confirm_hit ids uid r) eqn:E; [|reflexivity].
  apply confirm_hit_owner in E. contradiction.
Qed.

Lemma updateImageStatusBatch_rows w ids s uid t :
  snd (Db.updateImageStatusBatch w ids s uid t)
  = map (batch_row w ids s uid) t.
Proof. reflexivity. Qed.

Lemma delete_hit_other ids uid r :
  Db.userId r <> uid -> delete_hit ids uid r = false.
Proof.
  intros H. destruct (delete_hit ids uid r) eqn:E; [|reflexivity].
  apply delete_hit_inv in E as (_ & E & _). contradiction.
Qed.

Lemma markImagesAsDeleted_other w ids uid t i r :
  nth_error t i = Some r -> Db.userId r <> uid ->
  nth_error (snd (Db.markImagesAsDeleted w ids uid t)) i = Some r.
Proof.
  intros Hn Ho. unfold Db.markImagesAsDeleted.
  rewrite (update_returning_nth _ _ _ _ _ Hn).
  fold (delete_hit ids uid r). now rewrite delete_hit_other.
Qed.

Lemma updateImageStatusBatch_other w ids s uid t i r :
  nth_error t i = Some r -> Db.userId r <> uid ->
  nth_error (snd (Db.updateImageStatusBatch w ids s uid t)) i = Some r.
Proof.
  intros Hn Ho. rewrite updateImageStatusBatch_rows, nth_error_map, Hn.
  cbn. now rewrite batch_row_other.
Qed.

Lemma Files_DELETE_ok env w request t n imgs :
  fst (Files.DELETE env w request t) = DeleteOk n imgs ->
  exists uid b imageIds,
    caller env request = Some uid /\ body request = Some b
    /\ deleteImagesSchema env b = Some imageIds
    /\ n = List.length (fst (Db.markImagesAsDeleted w imageIds uid t))
    /\ imgs = map (fun img => (Db.id img, Db.objectKey img))
                (fst (Db.markImagesAsDeleted w imageIds uid t)).
Proof.
  unfold Files.DELETE.
  destruct (caller env request) as [uid|]; [|discriminate].
  destruct (body request) as [b|]; [|discriminate].
  destruct (deleteImagesSchema env b) as [ids|] eqn:Hs; [|discriminate].
  destruct (Nat.eqb _ 0); [discriminate|].
  destruct (Nat.ltb 0 _); [discriminate|].
  destruct (deleteFiles w _) as [response|]; [|discriminate].
  destruct (Files.has_errors response); [discriminate|].
  destruct (Db.markImagesAsDeleted w ids uid t) as [d t'] eqn:Hm.
  cbn [fst]. intros [= <- <-]. exists uid, b, ids. rewrite Hm.
  repeat split; trivial.
Qed.



(** ** Confirm *)

Lemma ids_of_In s updates i :
  In i (ids_of s updates)
  <-> In {| imageId := i; u_status := s |} updates.
Proof.
  unfold ids_of. rewrite in_map_iff. split.
  - intros ([j s'] & E & H). cbn in E. subst j.
    apply filter_In in H as [H Hs]. cbn in Hs.
    destruct s', s; try discriminate; exact H.
  - intros H. exists {| imageId := i; u_status := s |}.
    split; [reflexivity|]. apply filter_In. split; [exact H|].
    destruct s; reflexivity.
Qed.

Lemma ids_of_listed s updates i :
  In i (ids_of s updates) -> In i (map imageId updates).
Proof.
  intros H. apply ids_of_In in H.
  apply in_map_iff. exists {| imageId := i; u_status := s |}. auto.
Qed.

Lemma confirm_hit_true ids uid r :
  In (Db.id r) ids -> Db.userId r = uid -> confirm_hit ids uid r = true.
Proof.
  intros Hi Ho. unfold confirm_hit.
  apply andb_true_intro. split; [now apply inArray_In|].
  subst uid. apply String.eqb_refl.
Qed.

Lemma confirm_hit_false ids uid r :
  ~ In (Db.id r) ids \/ Db.userId r <> uid -> confirm_hit ids uid r = false.
Proof.
  intros H. destruct (confirm_hit ids uid r) eqn:E; [|reflexivity].
  unfold confirm_hit in E. apply andb_prop in E as [E1 E2].
  apply inArray_In in E1. apply String.eqb_eq in E2. tauto.
Qed.

Lemma batch_row_key w ids s uid r :
  Db.id (batch_row w ids s uid r) = Db.id r
  /\ Db.userId (batch_row w ids s uid r) = Db.userId r.
Proof. unfold batch_row. destruct (confirm_hit ids uid r); auto. Qed.

Lemma confirm_hit_batch_row ids uid w ids' s' uid' r :
  confirm_hit ids uid (batch_row w ids' s' uid' r) = confirm_hit ids uid r.
Proof.
  unfold confirm_hit.
  destruct (batch_row_key w ids' s' uid' r) as [-> ->]. reflexivity.
Qed.

Lemma confirm_hit_confirm_row ids uid w uid' updates r :
  confirm_hit ids uid (confirm_row w uid' updates r) = confirm_hit ids uid r.
Proof. unfold confirm_row. now rewrite !confirm_hit_batch_row. Qed.

Lemma matched_map ids uid (g : Db.Image -> Db.Image) t :
  (forall r, confirm_hit ids uid (g r) = confirm_hit ids uid r) ->
  matched ids uid (map g t) = matched ids uid t.
Proof.
  intros Hg. unfold matched.
  induction t as [|a t IH]; cbn [map filter]; [reflexivity|].
  rewrite Hg. destruct (confirm_hit ids uid a); cbn [List.length];
    now rewrite IH.
Qed.

Lemma Confirm_POST_rows env w request t uid b updates :
  caller env request = Some uid ->
  body request = Some b ->
  confirmUploadSchema env b = Some updates ->
  snd (Confirm.POST env w request t) = map (confirm_row w uid updates) t.
Proof.
  intros Hc Hb Hs.
  rewrite (Confirm_POST_run env w request t uid b updates Hc Hb Hs).
  cbn [snd]. rewrite !updateImageStatusBatch_rows, map_map. reflexivity.
Qed.

Lemma Confirm_POST_count env w request t uid b updates :
  caller env request = Some uid ->
  body request = Some b ->
  confirmUploadSchema env b = Some updates ->
  fst (Confirm.POST env w request t)
  = ConfirmOk (matched (ids_of confirm_completed updates) uid t
               + matched (ids_of confirm_failed updates) uid t).
Proof.
  intros Hc Hb Hs.
  rewrite (Confirm_POST_run env w request t uid b updates Hc Hb Hs).
  cbn [fst]. f_equal. rewrite length_app.
  unfold Db.updateImageStatusBatch at 1 2.
  rewrite !update_returning_count, updateImageStatusBatch_rows.
  fold (confirm_hit (ids_of confirm_completed updates) uid).
  fold (confirm_hit (ids_of confirm_failed updates) uid).
  fold (matched (ids_of confirm_completed updates) uid t).
  f_equal.
  apply (matched_map (ids_of confirm_failed updates) uid).
  intros r. apply confirm_hit_batch_row.
Qed.

Lemma confirm_row_cases w uid updates r :
  confirm_row w uid updates r
  = if confirm_hit (ids_of confirm_failed updates) uid r
    then Db.set_status Db.failed (now w) r
    else if confirm_hit (ids_of confirm_completed updates) uid r
         then Db.set_status Db.completed (now w) r
         else r.
Proof.
  unfold confirm_row. unfold batch_row at 1.
  rewrite confirm_hit_batch_row. unfold batch_row.
  destruct (confirm_hit (ids_of confirm_failed updates) uid r);
    destruct (confirm_hit (ids_of confirm_completed updates) uid r);
    reflexivity.
Qed.

Lemma confirm_row_status_again w1 w2 uid updates r :
  Db.status (confirm_row w2 uid updates (confirm_row w1 uid updates r))
  = Db.status (confirm_row w1 uid updates r).
Proof.
  rewrite (confirm_row_cases w2), !confirm_hit_confirm_row.
  rewrite (confirm_row_cases w1).
  destruct (confirm_hit (ids_of confirm_failed updates) uid r);
    destruct (confirm_hit (ids_of confirm_completed updates) uid r);
    reflexivity.
Qed.

(** C2, as the code has it.  Repeating a confirm request matches the same
    rows again, because rows are selected by id and owner and not by
    status: the second call answers with the same [updatedCount] as the
    first and leaves every status as the first call left it. *)
Theorem confirm_twice_same_count env w1 w2 request t :
  fst (Confirm.POST env w2 request (snd (Confirm.POST env w1 request t)))
  = fst (Confirm.POST env w1 request t)
  /\ map Db.status
       (snd (Confirm.POST env w2 request
               (snd (Confirm.POST env w1 request t))))
     = map Db.status (snd (Confirm.POST env w1 request t)).
Proof.
  destruct (caller env request) as [uid|] eqn:Hc;
    [|unfold Confirm.POST; rewrite Hc; split; reflexivity].
  destruct (body request) as [b|] eqn:Hb;
    [|unfold Confirm.POST; rewrite Hc, Hb; split; reflexivity].
  destruct (confirmUploadSchema env b) as [updates|] eqn:Hs;
    [|unfold Confirm.POST; rewrite Hc, Hb, Hs; split; reflexivity].
  rewrite (Confirm_POST_count env w2 request _ uid b updates Hc Hb Hs).
  rewrite (Confirm_POST_rows env w2 request _ uid b updates Hc Hb Hs).
  rewrite (Confirm_POST_count env w1 request _ uid b updates Hc Hb Hs).
  rewrite (Confirm_POST_rows env w1 request _ uid b updates Hc Hb Hs).
  split.
  - rewrite !matched_map; [reflexivity| |];
      intros r; apply confirm_hit_confirm_row.
  - rewrite !map_map. apply map_ext. intros r.
    apply confirm_row_status_again.
Qed.

(** C2 fails on the code: the second confirm of the same completed record
    reports one updated row again, not zero. *)
Lemma confirm_again_counts_again :
  fst (Confirm.POST Sample.env Sample.world
         (Sample.confirm [Sample.update Sample.r1 "completed"])
         [Sample.row Sample.r1 Sample.alice Db.pending])
  = ConfirmOk 1
  /\ fst (Confirm.POST Sample.env Sample.world
            (Sample.confirm [Sample.update Sample.r1 "completed"])
            (snd (Confirm.POST Sample.env Sample.world
                    (Sample.confirm [Sample.update Sample.r1 "completed"])
                    [Sample.row Sample.r1 Sample.alice Db.pending])))
     = ConfirmOk 1.
Proof. split; vm_compute; reflexivity. Qed.

Lemma filter_map_comm {A B} (p : B -> bool) (g : A -> B) l :
  filter p (map g l) = map g (filter (fun a => p (g a)) l).
Proof.
  induction l as [|a l IH]; cbn; [reflexivity|].
  destruct (p (g a)); cbn; now rewrite IH.
Qed.

Lemma filter_comm {A} (p q : A -> bool) l :
  filter p (filter q l) = filter q (filter p l).
Proof.
  induction l as [|a l IH]; cbn; [reflexivity|].
  destruct (p a) eqn:Hp; destruct (q a) eqn:Hq; cbn;
    rewrite ?Hp, ?Hq, IH; reflexivity.
Qed.

(** Under the primary key, the rows carrying the id of a stored row are
    that row alone. *)
Lemma filter_id_unique t r :
  NoDup (map Db.id t) -> In r t ->
  filter (fun x => (Db.id x =? Db.id r)%string) t = [r].
Proof.
  induction t as [|a t IH]; cbn [map filter In]; [contradiction|].
  intros Hnd [->|Hin]; inversion Hnd as [|? ? Hnotin Hnd']; subst.
  - rewrite String.eqb_refl. f_equal.
    clear IH Hnd Hnd'. induction t as [|x t IH]; cbn; [reflexivity|].
    cbn in Hnotin. destruct (String.eqb_spec (Db.id x) (Db.id r)) as [E|E].
    + exfalso. apply Hnotin. left. exact E.
    + apply IH. intros H. apply Hnotin. right. exact H.
  - destruct (String.eqb_spec (Db.id a) (Db.id r)) as [E|E].
    + exfalso. apply Hnotin. rewrite E. now apply in_map.
    + now apply IH.
Qed.

Lemma filter_id_set s at_ i l :
  filter (fun x => (Db.id x =? i)%string) (map (Db.set_status s at_) l)
  = map (Db.set_status s at_) (filter (fun x => (Db.id x =? i)%string) l).
Proof. apply filter_map_comm. Qed.

Lemma filter_id_batch_row w ids s uid i l :
  filter (fun x => (Db.id x =? i)%string) (map (batch_row w ids s uid) l)
  = map (batch_row w ids s uid) (filter (fun x => (Db.id x =? i)%string) l).
Proof.
  rewrite filter_map_comm. f_equal. apply filter_ext. intros a.
  now destruct (batch_row_key w ids s uid a) as [-> _].
Qed.

(** ** Delete *)

Lemma includes_In l x : Js.includes l x = true <-> In x l.
Proof. apply inArray_In. Qed.

Lemma resolved_In uid ids t i :
  In i (map fst (resolved uid ids t))
  <-> exists r, In r t /\ Db.id r = i /\ Db.userId r = uid
                /\ In i ids /\ Db.status r = Db.completed.
Proof.
  unfold resolved, Db.getImageObjectKeysByUserAndIds.
  rewrite map_map. cbn [fst]. rewrite in_map_iff. split.
  - intros (r & <- & Hr). apply filter_In in Hr as [Hr Hh].
    apply andb_prop in Hh as [Hh H3]. apply andb_prop in Hh as [H1 H2].
    exists r. repeat split; trivial;
      [now apply String.eqb_eq|now apply inArray_In|now apply status_eqb_eq].
  - intros (r & Hr & <- & Ho & Hi & Hst). exists r. split; [reflexivity|].
    apply filter_In. split; [exact Hr|].
    rewrite Ho, Hst, String.eqb_refl. cbn.
    rewrite (proj2 (inArray_In _ _) Hi). reflexivity.
Qed.

Lemma same_id_same_row t r r0 :
  NoDup (map Db.id t) -> In r t -> In r0 t -> Db.id r0 = Db.id r -> r0 = r.
Proof.
  intros Hnd Hr Hr0 E.
  assert (H : In r0 (filter (fun x => (Db.id x =? Db.id r)%string) t)).
  { apply filter_In. split; [exact Hr0|]. rewrite E. apply String.eqb_refl. }
  rewrite (filter_id_unique t r Hnd Hr) in H.
  destruct H as [H|[]]. now symmetry.
Qed.

(** A requested id that does not resolve to a completed row of the caller
    stops the request at one of the two 403 gates. *)
Lemma Files_DELETE_gate env w request t uid b imageIds i :
  caller env request = Some uid ->
  body request = Some b ->
  deleteImagesSchema env b = Some imageIds ->
  In i imageIds ->
  ~ In i (map fst (resolved uid imageIds t)) ->
  (resolved uid imageIds t = []
   /\ Files.DELETE env w request t = (NoImagesFound, t))
  \/ (resolved uid imageIds t <> []
      /\ In i (missing uid imageIds t)
      /\ Files.DELETE env w request t
         = (SomeImagesMissing (missing uid imageIds t), t)).
Proof.
  intros Hc Hb Hs Hi Hnot.
  rewrite (Files_DELETE_run env w request t uid b imageIds Hc Hb Hs).
  assert (Hm : In i (missing uid imageIds t)).
  { unfold missing. apply filter_In. split; [exact Hi|].
    destruct (Js.includes _ i) eqn:E; [|reflexivity].
    apply includes_In in E. contradiction. }
  destruct (resolved uid imageIds t) as [|p ps] eqn:Hr; [left; auto|].
  right. split; [discriminate|]. split; [exact Hm|].
  destruct (missing uid imageIds t); [contradiction|reflexivity].
Qed.

(** ** Presign *)

Lemma promise_all_Forall2 {A B} (f : A -> option B) l l' :
  Presign.promise_all f l = Some l' ->
  Forall2 (fun a b => f a = Some b) l l'.
Proof.
  revert l'. induction l as [|a l IH]; cbn; intros l'.
  - intros [= <-]. constructor.
  - destruct (f a) as [y|] eqn:Ha; [|discriminate].
    destruct (Presign.promise_all f l) as [ys|]; [|discriminate].
    intros [= <-]. constructor; [exact Ha|now apply IH].
Qed.


Lemma insert_rows_length w i l :
  List.length (Db.insert_rows w i l) = List.length l.
Proof.
  revert i. induction l as [|n l IH]; intros i; cbn; [reflexivity|].
  now rewrite IH.
Qed.

Lemma insert_rows_pending w i l :
  Forall (fun r => Db.status r = Db.pending /\ Db.completedAt r = None)
    (Db.insert_rows w i l).
Proof.
  revert i. induction l as [|n l IH]; intros i; cbn; constructor; auto.
Qed.

Lemma insert_rows_fields w i l :
  map Db.objectKey (Db.insert_rows w i l) = map Db.new_objectKey l
  /\ map Db.userId (Db.insert_rows w i l) = map Db.new_userId l.
Proof.
  revert i. induction l as [|n l IH]; intros i; cbn; [auto|].
  destruct (IH (S i)) as [-> ->]. auto.
Qed.

(** How a result of the response relates to the presigned item it is
    built from. *)
Lemma combine_results_total ps : forall pre recs,
  List.length recs = List.length ps ->
  exists results,
    Presign.combine_results (List.length pre) ps (pre ++ recs) = Some results
    /\ Forall2 (fun p r => res_expiresAt r = Presign.expiresAt p
                           /\ res_objectKey r = Presign.objectKey p
                           /\ res_presignedUrl r = Presign.presignedUrl p)
         ps results.
Proof.
  induction ps as [|p ps IH]; intros pre recs Hlen.
  - exists []. cbn. auto.
  - destruct recs as [|rec recs]; [discriminate|].
    cbn [Presign.combine_results].
    rewrite nth_error_app2, Nat.sub_diag by apply Nat.le_refl.
    cbn [nth_error].
    destruct (IH (pre ++ [rec])%list recs) as (rs & Hrs & HF).
    { cbn in Hlen. now injection Hlen. }
    rewrite length_app, <- app_assoc in Hrs. cbn in Hrs.
    rewrite Nat.add_1_r in Hrs. rewrite Hrs.
    eexists. split; [reflexivity|]. constructor; cbn; auto.
Qed.

Lemma Forall2_In_r {A B} (R : A -> B -> Prop) l l' y :
  Forall2 R l l' -> In y l' -> exists x, In x l /\ R x y.
Proof.
  induction 1 as [|a b l l' Hab _ IH]; cbn; [contradiction|].
  intros [<-|Hin]; [eauto|].
  destruct (IH Hin) as (x & Hx & HR). eauto.
Qed.

Lemma Presign_POST_run env w request t uid b images :
  presign_caller env request = Some uid ->
  body request = Some b ->
  presignRequestSchema env b = Some images ->
  Presign.POST env w request t
  = match Presign.promise_all (Presign.presign_one env w uid) images with
    | None => (InternalError, t)
    | Some presignedResults =>
        match Db.createImageRecordsBatch w
                (map (Presign.image_data uid) presignedResults) t with
        | None => (InternalError, t)
        | Some (imageRecords, t') =>
            match Presign.combine_results 0 presignedResults imageRecords with
            | None => (InternalError, t')
            | Some results => (PresignOk results, t')
            end
        end
    end.
Proof.
  intros Hc Hb Hs. unfold Presign.POST. now rewrite Hc, Hb, Hs.
Qed.

(** The successful run of the presign handler, spelled out. *)
Lemma Presign_POST_cases env w request t uid b images :
  presign_caller env request = Some uid ->
  body request = Some b ->
  presignRequestSchema env b = Some images ->
  Presign.POST env w request t = (InternalError, t)
  \/ exists ps results,
      Presign.promise_all (Presign.presign_one env w uid) images = Some ps
      /\ Presign.POST env w request t
         = (PresignOk results,
            (t ++ Db.insert_rows w 0 (map (Presign.image_data uid) ps))%list)
      /\ Forall2 (fun image p =>
                    Presign.presign_one env w uid image = Some p)
           images ps
      /\ Forall2 (fun p r => res_expiresAt r = Presign.expiresAt p
                             /\ res_objectKey r = Presign.objectKey p
                             /\ res_presignedUrl r = Presign.presignedUrl p)
           ps results.
Proof.
  intros Hc Hb Hs.
  rewrite (Presign_POST_run env w request t uid b images Hc Hb Hs).
  destruct (Presign.promise_all _ images) as [ps|] eqn:Hps;
    [|left; reflexivity].
  unfold Db.createImageRecordsBatch.
  destruct (insert_refused w || _)%bool; [left; reflexivity|].
  destruct (combine_results_total ps []
              (Db.insert_rows w 0 (map (Presign.image_data uid) ps)))
    as (rs & Hrs & Hrest).
  { now rewrite insert_rows_length, length_map. }
  cbn [List.length app] in Hrs. rewrite Hrs.
  right. exists ps, rs. repeat split; trivial.
  now apply promise_all_Forall2.
Qed.



(** The scenario of the specification: one image presigned for a caller
    gives one pending row and one result. *)
Example presign_sample_run :
  Presign.POST Sample.env Sample.world
    (Sample.presign [Sample.image Sample.f1]) []
  = (PresignOk
       [{| res_objectKey := Sample.alice ++ "/" ++ Sample.f1;
           res_presignedUrl :=
             "https://r2.example/" ++ Sample.alice ++ "/" ++ Sample.f1;
           res_publicFileUrl :=
             "https://cdn.example/" ++ Sample.alice ++ "/" ++ Sample.f1;
           res_imageId := Sample.r1;
           res_expiresAt := Some (now Sample.world + 300000) |}],
     [{| Db.id := Sample.r1; Db.userId := Sample.alice;
         Db.objectKey := Sample.alice ++ "/" ++ Sample.f1;
         Db.fileUrl :=
           "https://cdn.example/" ++ Sample.alice ++ "/" ++ Sample.f1;
         Db.mimeType := "image/webp"; Db.sizeBytes := 500000;
         Db.status := Db.pending; Db.createdAt := now Sample.world;
         Db.completedAt := None |}]).
Proof. vm_compute. reflexivity. Qed.

Lemma Presign_POST_ok env w request t results t' :
  Presign.POST env w request t = (PresignOk results, t') ->
  exists uid b images,
    presign_caller env request = Some uid /\ body request = Some b
    /\ presignRequestSchema env b = Some images.
Proof.
  unfold Presign.POST.
  destruct (presign_caller env request) as [uid|]; [|discriminate].
  destruct (body request) as [b|]; [|discriminate].
  destruct (presignRequestSchema env b) as [images|] eqn:Hs; [|discriminate].
  intros _. exists uid, b, images. auto.
Qed.

Lemma presign_one_inv env w uid image p :
  Presign.presign_one env w uid image = Some p ->
  Presign.objectKey p = Presign.object_key uid image
  /\ Presign.expiresAt p
     = option_map (fun secs => now w + secs * 1000)
         (IMAGE_EXPIRATION_SECONDS env)
  /\ getSignedUrl w (Presign.objectKey p) (fileType image) (fileSize image)
       upload_expiresIn = Some (Presign.presignedUrl p).
Proof.
  unfold Presign.presign_one.
  destruct (getSignedUrlForUpload w _ _ _) as [url|] eqn:Hu; [|discriminate].
  intros [= <-]. cbn. auto.
Qed.

(** C6, evaluated on the code.  With NEXT_PUBLIC_MAX_IMAGE_SIZE_KB unset,
    every result of a successful presign carries an [expiresAt] of the
    request time plus 300 seconds, although its URL was signed with an
    [expiresIn] of 3600 seconds: the reported expiry is not the expiry of
    the grant. *)
Theorem presign_expiresAt_default env w request t results t' :
  env_NEXT_PUBLIC_MAX_IMAGE_SIZE_KB env = None ->
  Presign.POST env w request t = (PresignOk results, t') ->
  upload_expiresIn = 3600
  /\ Forall (fun r =>
               res_expiresAt r = Some (now w + 300 * 1000)
               /\ res_expiresAt r <> Some (now w + upload_expiresIn * 1000)
               /\ exists ty sz,
                   getSignedUrl w (res_objectKey r) ty sz upload_expiresIn
                   = Some (res_presignedUrl r))
       results.
Proof.
  intros Henv Hrun. split; [reflexivity|].
  destruct (Presign_POST_ok _ _ _ _ _ _ Hrun)
    as (uid & b & images & Hc & Hb & Hs).
  destruct (Presign_POST_cases env w request t uid b images Hc Hb Hs)
    as [H|(ps & rs & _ & Hrun' & Hps & Hrs)]; [congruence|].
  assert (rs = results) as -> by congruence.
  apply Forall_forall. intros r Hr.
  destruct (Forall2_In_r _ _ _ _ Hrs Hr) as (p & Hp & He & Hk & Hu).
  destruct (Forall2_In_r _ _ _ _ Hps Hp) as (image & _ & Hone).
  apply presign_one_inv in Hone as (_ & Hexp & Hsig).
  assert (Hsecs : IMAGE_EXPIRATION_SECONDS env = Some 300)
    by (unfold IMAGE_EXPIRATION_SECONDS; rewrite Henv; reflexivity).
  rewrite Hsecs in Hexp. cbn [option_map] in Hexp.
  rewrite He, Hexp, Hk, Hu. repeat split.
  - unfold upload_expiresIn. intros [= H]. lia.
  - eauto.
Qed.

(** A concrete instance: the sample request. *)
Lemma presign_expiresAt_default_witness :
  Forall (fun r =>
            res_expiresAt r = Some (now Sample.world + 300 * 1000)
            /\ res_expiresAt r
               <> Some (now Sample.world + upload_expiresIn * 1000)
            /\ exists ty sz,
                getSignedUrl Sample.world (res_objectKey r) ty sz
                  upload_expiresIn
                = Some (res_presignedUrl r))
    (match fst (Presign.POST Sample.env Sample.world
                  (Sample.presign [Sample.image Sample.f1]) []) with
     | PresignOk results => results
     | _ => []
     end).
Proof.
  exact (proj2 (presign_expiresAt_default Sample.env Sample.world
                  (Sample.presign [Sample.image Sample.f1]) [] _ _
                  eq_refl eq_refl)).
Defined.

Lemma all_Forall2 {A} (elem : Json -> option A) l l' :
  Zod.all elem l = Some l' -> Forall2 (fun j a => elem j = Some a) l l'.
Proof.
  revert l'. induction l as [|j l IH]; cbn; intros l'.
  - intros [= <-]. constructor.
  - destruct (elem j) as [a|] eqn:Hj; [|discriminate].
    destruct (Zod.all elem l) as [ar|]; [|discriminate].
    intros [= <-]. constructor; [exact Hj|now apply IH].
Qed.

Lemma array_1_max_Forall2 {A} (elem : Json -> option A) v j l' :
  Zod.array_1_max elem v j = Some l' ->
  exists l, j = JArr l /\ Forall2 (fun j a => elem j = Some a) l l'.
Proof.
  unfold Zod.array_1_max. destruct j; try discriminate.
  destruct (_ && _)%bool; [|discriminate].
  intros H. eexists. split; [reflexivity|now apply all_Forall2].
Qed.

Lemma singleImageSchema_uuid env j image :
  singleImageSchema env j = Some image -> Zod.uuid (fileId image) = true.
Proof.
  unfold singleImageSchema. destruct j; try discriminate.
  destruct (Zod.lookup "fileId" fields) as [[| | |i| |]|]; try discriminate.
  destruct (Zod.lookup "fileType" fields) as [[| | |ty| |]|]; try discriminate.
  destruct (Zod.lookup "fileSize" fields) as [[| |sz| | |]|]; try discriminate.
  destruct (Zod.uuid i) eqn:Hu; cbn [andb]; [|discriminate].
  destruct (_ && _)%bool; [|discriminate].
  now intros [= <-].
Qed.

Lemma presignRequestSchema_uuid env b images :
  presignRequestSchema env b = Some images ->
  Forall (fun image => Zod.uuid (fileId image) = true) images.
Proof.
  unfold presignRequestSchema. destruct b; try discriminate.
  destruct (Zod.lookup "images" fields) as [a|]; [|discriminate].
  intros H. apply array_1_max_Forall2 in H as (l & _ & HF).
  apply Forall_forall. intros image Hin.
  destruct (Forall2_In_r _ _ _ _ HF Hin) as (j & _ & Hj).
  now apply singleImageSchema_uuid in Hj.
Qed.

Lemma append_inj_l (p a b : string) : p ++ a = p ++ b -> a = b.
Proof.
  induction p as [|c p IH]; cbn; [trivial|].
  intros [= H]. now apply IH.
Qed.

Lemma NoDup_map_inj {A B} (h : A -> B) l :
  (forall x y, h x = h y -> x = y) ->
  NoDup (map h l) <-> NoDup l.
Proof.
  intros Hinj. induction l as [|a l IH]; cbn.
  - split; constructor.
  - split; intros H; inversion H as [|? ? Hnot Hnd]; subst; constructor.
    + intros Hin. apply Hnot. now apply in_map.
    + now apply IH.
    + intros Hin. apply in_map_iff in Hin as (x & E & Hx).
      apply Hinj in E. now subst.
    + now apply IH.
Qed.

Lemma presigned_keys env w uid images ps :
  Forall2 (fun image p => Presign.presign_one env w uid image = Some p)
    images ps ->
  map Presign.objectKey ps = map (Presign.object_key uid) images.
Proof.
  induction 1 as [|image p images ps Hone _ IH]; cbn; [reflexivity|].
  apply presign_one_inv in Hone as (-> & _). now rewrite IH.
Qed.

(** C7, as the code has it.  The presign schema requires every fileId to
    be a well-formed UUID and does not compare the fileIds of a batch.
    The rows created for an accepted batch carry the storage keys
    [ownerId/fileId] of its items, in order, so two of them share a
    storage key exactly when their items share a fileId. *)
Theorem presign_keys_follow_fileIds env w request t uid b images :
  presign_caller env request = Some uid ->
  body request = Some b ->
  presignRequestSchema env b = Some images ->
  Forall (fun image => Zod.uuid (fileId image) = true) images
  /\ (forall results t',
         Presign.POST env w request t = (PresignOk results, t') ->
         exists created,
           t' = (t ++ created)%list
           /\ map Db.objectKey created
              = map (Presign.object_key uid) images
           /\ (NoDup (map Db.objectKey created)
               <-> NoDup (map fileId images))).
Proof.
  intros Hc Hb Hs. split; [now apply (presignRequestSchema_uuid env b)|].
  intros results t' Hrun.
  destruct (Presign_POST_cases env w request t uid b images Hc Hb Hs)
    as [H|(ps & rs & _ & Hrun' & Hps & _)]; [congruence|].
  exists (Db.insert_rows w 0 (map (Presign.image_data uid) ps)).
  assert (Hkeys : map Db.objectKey
                    (Db.insert_rows w 0 (map (Presign.image_data uid) ps))
                  = map (Presign.object_key uid) images).
  { rewrite (proj1 (insert_rows_fields w 0 _)), map_map. cbn.
    now apply (presigned_keys env w). }
  split; [congruence|]. split; [exact Hkeys|].
  rewrite Hkeys.
  change (map (Presign.object_key uid) images)
    with (map (fun image => (fun i => uid ++ "/" ++ i) (fileId image)) images).
  rewrite <- (map_map fileId (fun i => uid ++ "/" ++ i)).
  apply NoDup_map_inj. intros x y E.
  apply append_inj_l in E. now injection E.
Qed.

(** C7 fails on the code: a batch that repeats one fileId passes the
    schema, and the handler creates two rows with the same storage key. *)
Lemma presign_accepts_repeated_fileId :
  presignRequestSchema Sample.env
    (JObj [("images", JArr [Sample.image Sample.f1; Sample.image Sample.f1])])
  = Some [{| fileId := Sample.f1; fileType := "image/webp";
             fileSize := 500000 |};
          {| fileId := Sample.f1; fileType := "image/webp";
             fileSize := 500000 |}]
  /\ map Db.objectKey
       (snd (Presign.POST Sample.env Sample.world
               (Sample.presign [Sample.image Sample.f1;
                                Sample.image Sample.f1]) []))
     = [Sample.alice ++ "/" ++ Sample.f1; Sample.alice ++ "/" ++ Sample.f1]
  /\ map Db.status
       (snd (Presign.POST Sample.env Sample.world
               (Sample.presign [Sample.image Sample.f1;
                                Sample.image Sample.f1]) []))
     = [Db.pending; Db.pending].
Proof. repeat split; vm_compute; reflexivity. Qed.

(** A concrete instance: the sample request. *)
Lemma presign_keys_follow_fileIds_witness :
  Forall (fun image => Zod.uuid (fileId image) = true)
    [{| fileId := Sample.f1; fileType := "image/webp";
        fileSize := 500000 |}].
Proof.
  exact (proj1 (presign_keys_follow_fileIds Sample.env Sample.world
                  (Sample.presign [Sample.image Sample.f1]) []
                  Sample.alice
                  (JObj [("images", JArr [Sample.image Sample.f1])])
                  [{| fileId := Sample.f1; fileType := "image/webp";
                      fileSize := 500000 |}]
                  eq_refl eq_refl eq_refl)).
Defined.

(* ================================================================== *)
(** * Further properties of the code *)

(** ** Listing *)

Lemma insert_by_createdAt_perm r l :
  Permutation (r :: l) (Db.insert_by_createdAt r l).
Proof.
  induction l as [|x l IH]; cbn; [reflexivity|].
  destruct (Db.createdAt r <=? Db.createdAt x); [reflexivity|].
  rewrite perm_swap. now constructor.
Qed.

Lemma orderBy_createdAt_perm l : Permutation l (Db.orderBy_createdAt l).
Proof.
  induction l as [|r l IH]; cbn; [reflexivity|].
  rewrite <- insert_by_createdAt_perm. now constructor.
Qed.

Lemma insert_by_createdAt_sorted r l :
  StronglySorted (fun a b => Db.createdAt a <= Db.createdAt b) l ->
  StronglySorted (fun a b => Db.createdAt a <= Db.createdAt b)
    (Db.insert_by_createdAt r l).
Proof.
  induction 1 as [|x l Hs IH Hx]; cbn.
  - repeat constructor.
  - destruct (Z.leb_spec (Db.createdAt r) (Db.createdAt x)) as [Hle|Hgt].
    + constructor; [now constructor|].
      constructor; [exact Hle|].
      rewrite Forall_forall in *. intros y Hy. specialize (Hx y Hy). lia.
    + constructor; [exact IH|].
      rewrite Forall_forall in *. intros y Hy.
      apply (Permutation_in _ (Permutation_sym (insert_by_createdAt_perm r l)))
        in Hy.
      destruct Hy as [<-|Hy]; [lia|now apply Hx].
Qed.

Lemma orderBy_createdAt_sorted l :
  StronglySorted (fun a b => Db.createdAt a <= Db.createdAt b)
    (Db.orderBy_createdAt l).
Proof.
  induction l as [|r l IH]; cbn; [constructor|].
  now apply insert_by_createdAt_sorted.
Qed.

Lemma StronglySorted_map {A B} (R : B -> B -> Prop) (g : A -> B) l :
  StronglySorted (fun a b => R (g a) (g b)) l -> StronglySorted R (map g l).
Proof.
  induction 1 as [|x l Hs IH Hx]; cbn; constructor; [exact IH|].
  rewrite Forall_forall in *. intros y Hy.
  apply in_map_iff in Hy as (a & <- & Ha). now apply Hx.
Qed.

Lemma getCompletedImagesByUserId_In uid t c :
  In c (Db.getCompletedImagesByUserId uid t)
  <-> exists r, In r t /\ Db.userId r = uid /\ Db.status r = Db.completed
                /\ c = Db.select_completed r.
Proof.
  unfold Db.getCompletedImagesByUserId. rewrite in_map_iff. split.
  - intros (r & <- & Hr).
    apply (Permutation_in _ (Permutation_sym (orderBy_createdAt_perm _))) in Hr.
    apply filter_In in Hr as [Hr Hh]. apply andb_prop in Hh as [H1 H2].
    exists r. repeat split; trivial;
      [now apply String.eqb_eq|now apply status_eqb_eq].
  - intros (r & Hr & Ho & Hs & ->). exists r. split; [reflexivity|].
    apply (Permutation_in _ (orderBy_createdAt_perm _)).
    apply filter_In. split; [exact Hr|].
    rewrite Ho, Hs, String.eqb_refl. reflexivity.
Qed.

(** ** Single-row statements of the record store *)

Lemma filter_none {A} (p : A -> bool) l :
  (forall x, In x l -> p x = false) -> filter p l = [].
Proof.
  induction l as [|a l IH]; cbn; [reflexivity|]. intros H.
  rewrite (H a) by (left; reflexivity).
  apply IH. intros x Hx. apply H. right. exact Hx.
Qed.

Lemma nth_error_0_None {A} (l : list A) : nth_error l 0 = None <-> l = [].
Proof. destruct l; cbn; split; congruence. Qed.

Lemma filter_nil_iff {A} (p : A -> bool) l :
  filter p l = [] <-> forall x, In x l -> p x = false.
Proof.
  split; [|apply filter_none].
  intros H x Hx. destruct (p x) eqn:E; [|reflexivity].
  assert (Hin : In x (filter p l)) by (apply filter_In; auto).
  rewrite H in Hin. contradiction.
Qed.

Lemma pk_admits_fresh t created r :
  Db.pk_admits t created = true -> In r created ->
  ~ In (Db.id r) (map Db.id t).
Proof.
  unfold Db.pk_admits. intros H Hr Hin.
  apply andb_prop in H as [H _]. rewrite forallb_forall in H.
  specialize (H r Hr). apply inArray_In in Hin. now rewrite Hin in H.
Qed.




(** ** Guards *)

Lemma caller_Some_iff env request uid :
  caller env request = Some uid
  <-> OUR_AUTH_TOKEN env = Some uid /\ uid <> ""
      /\ authorization request = Some ("Bearer " ++ uid).
Proof.
  split; [apply caller_token|].
  intros (Ht & Hne & Hh). unfold caller.
  destruct (authCheck_cases env request) as [[_ ->]|[Hx _]]; cbn.
  - rewrite Ht. destruct uid; [congruence|reflexivity].
  - rewrite Ht in Hx. cbn in Hx. contradiction.
Qed.

Lemma falsy_token_no_caller env request :
  Js.falsy (OUR_AUTH_TOKEN env) = true -> caller env request = None.
Proof.
  intros Hf. destruct (caller env request) as [uid|] eqn:Hc; [|reflexivity].
  apply caller_token in Hc as (Ht & Hne & _). rewrite Ht in Hf.
  destruct uid; [congruence|discriminate].
Qed.

(** X5. When the token variable is unset or empty, every request to every
    handler is answered 401 and the table stays as it is, also a request
    whose header [authCheck] itself accepts (the text [Bearer undefined]
    when the variable is unset). *)
Theorem unset_token_locks_every_handler env w request t :
  Js.falsy (OUR_AUTH_TOKEN env) = true ->
  Presign.POST env w request t = (Unauthorized, t)
  /\ Confirm.POST env w request t = (Unauthorized, t)
  /\ Files.DELETE env w request t = (Unauthorized, t)
  /\ Files.GET env request t = inl Unauthorized
  /\ (OUR_AUTH_TOKEN env = None ->
      authorization request = Some "Bearer undefined" ->
      authenticated (authCheck env request) = true).
Proof.
  intros Hf. pose proof (falsy_token_no_caller env request Hf) as Hc.
  unfold Presign.POST, Confirm.POST, Files.DELETE, Files.GET.
  rewrite presign_caller_eq, Hc. repeat split.
  intros Ht Hh.
  destruct (authCheck_cases env request) as [[_ ->]|[Hx _]]; [reflexivity|].
  rewrite Ht, Hh in Hx. cbn in Hx. contradiction.
Qed.

(** A concrete instance: no token configured, and a request that sends
    the header [Bearer undefined]. *)
Lemma unset_token_locks_every_handler_witness :
  Files.DELETE
    {| env_NEXT_PUBLIC_OUR_AUTH_TOKEN := None;
       env_R2_PUBLIC_BASE_URL := None;
       env_NEXT_PUBLIC_MAX_IMAGE_SIZE_KB := None;
       env_MAX_IMAGE_SIZE_KB := None;
       env_MAX_IMAGES := None |}
    Sample.world
    {| authorization := Some "Bearer undefined";
       body := Some (Client.delete_body Sample.r1) |}
    [Sample.row Sample.r1 "undefined" Db.completed]
  = (Unauthorized, [Sample.row Sample.r1 "undefined" Db.completed]).
Proof.
  exact (proj1 (proj2 (proj2
           (unset_token_locks_every_handler
              {| env_NEXT_PUBLIC_OUR_AUTH_TOKEN := None;
                 env_R2_PUBLIC_BASE_URL := None;
                 env_NEXT_PUBLIC_MAX_IMAGE_SIZE_KB := None;
                 env_MAX_IMAGE_SIZE_KB := None;
                 env_MAX_IMAGES := None |}
              Sample.world
              {| authorization := Some "Bearer undefined";
                 body := Some (Client.delete_body Sample.r1) |}
              [Sample.row Sample.r1 "undefined" Db.completed] eq_refl)))).
Defined.

(** X7. A request that is turned away with 400 or 401 changes no row, in
    each of the three writing handlers; the presign and the delete handler
    change no row either when they answer with any other error. *)
Theorem rejected_requests_change_nothing env w request t :
  (http_status (fst (Presign.POST env w request t)) <> 200 ->
   snd (Presign.POST env w request t) = t)
  /\ (http_status (fst (Files.DELETE env w request t)) <> 200 ->
      snd (Files.DELETE env w request t) = t)
  /\ (http_status (fst (Confirm.POST env w request t)) = 400
      \/ http_status (fst (Confirm.POST env w request t)) = 401 ->
      snd (Confirm.POST env w request t) = t).
Proof.
  repeat split.
  - unfold Presign.POST.
    destruct (presign_caller env request) as [uid|] eqn:Hc; [|reflexivity].
    destruct (body request) as [b|] eqn:Hb; [|reflexivity].
    destruct (presignRequestSchema env b) as [images|] eqn:Hs; [|reflexivity].
    destruct (Presign_POST_cases env w request t uid b images Hc Hb Hs)
      as [H|(ps & rs & _ & H & _)];
      rewrite (Presign_POST_run env w request t uid b images Hc Hb Hs) in H;
      rewrite H; cbn; [reflexivity|congruence].
  - destruct (Files_DELETE_table env w request t)
      as [H|(uid & b & ids & _ & _ & _ & _ & ->)]; [now intros _|].
    cbn. congruence.
  - destruct (Confirm_POST_inv env w request t)
      as [H|(uid & b & updates & Hc & Hb & Hs)]; [now intros _|].
    rewrite (Confirm_POST_run env w request t uid b updates Hc Hb Hs).
    cbn. intros [H|H]; discriminate.
Qed.

(** A concrete instance: a delete request without a body field. *)
Lemma rejected_requests_change_nothing_witness :
  snd (Files.DELETE Sample.env Sample.world (Sample.request JNull)
         [Sample.row Sample.r1 Sample.alice Db.completed])
  = [Sample.row Sample.r1 Sample.alice Db.completed].
Proof.
  refine (proj1 (proj2 (rejected_requests_change_nothing Sample.env
                          Sample.world (Sample.request JNull)
                          [Sample.row Sample.r1 Sample.alice Db.completed]))
            _).
  discriminate.
Defined.

(** ** What the handlers keep *)

Lemma nodupb_NoDup l : Db.nodupb l = true -> NoDup l.
Proof.
  induction l as [|x l IH]; cbn; [constructor|].
  intros H. apply andb_prop in H as [Hx Hl]. constructor; [|now apply IH].
  intros Hin. apply inArray_In in Hin. now rewrite Hin in Hx.
Qed.

Lemma pk_admits_NoDup t created :
  NoDup (map Db.id t) -> Db.pk_admits t created = true ->
  NoDup (map Db.id (t ++ created)).
Proof.
  intros Hnd Hpk. rewrite map_app. apply NoDup_app; [exact Hnd| |].
  - unfold Db.pk_admits in Hpk. apply andb_prop in Hpk as [_ H].
    now apply nodupb_NoDup.
  - intros i Hi Hc. apply in_map_iff in Hc as (r & <- & Hr).
    now apply (pk_admits_fresh t created r Hpk Hr).
Qed.

(** The table after a presign request: the old one, or the old one with
    rows appended that the primary key admits. *)
Lemma Presign_POST_table env w request t :
  snd (Presign.POST env w request t) = t
  \/ exists created,
      snd (Presign.POST env w request t) = (t ++ created)%list
      /\ Db.pk_admits t created = true.
Proof.
  unfold Presign.POST.
  destruct (presign_caller env request) as [uid|]; [|left; reflexivity].
  destruct (body request) as [b|]; [|left; reflexivity].
  destruct (presignRequestSchema env b) as [images|]; [|left; reflexivity].
  destruct (Presign.promise_all _ images) as [ps|]; [|left; reflexivity].
  unfold Db.createImageRecordsBatch.
  destruct (insert_refused w || _)%bool eqn:Hok; [left; reflexivity|].
  apply orb_false_elim in Hok as [_ Hpk]. apply negb_false_iff in Hpk.
  right. eexists. split; [|exact Hpk].
  destruct (Presign.combine_results 0 ps _); reflexivity.
Qed.

Lemma set_status_identity s at_ r : same_identity r (Db.set_status s at_ r).
Proof. repeat split. Qed.

Lemma same_identity_refl r : same_identity r r.
Proof. repeat split. Qed.

Lemma same_identity_trans a b c :
  same_identity a b -> same_identity b c -> same_identity a c.
Proof.
  unfold same_identity. intros (?&?&?&?&?&?&?) (?&?&?&?&?&?&?).
  repeat split; congruence.
Qed.

Lemma batch_row_identity w ids s uid r :
  same_identity r (batch_row w ids s uid r).
Proof.
  unfold batch_row. destruct (confirm_hit ids uid r);
    [apply set_status_identity|apply same_identity_refl].
Qed.

Lemma confirm_row_identity w uid updates r :
  same_identity r (confirm_row w uid updates r).
Proof.
  unfold confirm_row.
  eapply same_identity_trans; apply batch_row_identity.
Qed.

(** Row by row, what a confirm and a delete request leave behind. *)
Lemma Confirm_POST_nth env w request t i r :
  nth_error t i = Some r ->
  nth_error (snd (Confirm.POST env w request t)) i = Some r
  \/ exists uid updates,
      caller env request = Some uid
      /\ nth_error (snd (Confirm.POST env w request t)) i
         = Some (confirm_row w uid updates r).
Proof.
  intros Hn.
  destruct (Confirm_POST_inv env w request t)
    as [->|(uid & b & updates & Hc & Hb & Hs)]; [left; exact Hn|].
  right. exists uid, updates. split; [exact Hc|].
  rewrite (Confirm_POST_rows env w request t uid b updates Hc Hb Hs).
  now rewrite nth_error_map, Hn.
Qed.

Lemma Files_DELETE_nth env w request t i r :
  nth_error t i = Some r ->
  nth_error (snd (Files.DELETE env w request t)) i = Some r
  \/ (Db.status r = Db.completed
      /\ Some (Db.userId r) = caller env request
      /\ nth_error (snd (Files.DELETE env w request t)) i
         = Some (Db.set_status Db.deleted (now w) r)).
Proof.
  intros Hn.
  destruct (Files_DELETE_table env w request t)
    as [->|(uid & b & ids & Hc & _ & _ & _ & ->)]; [left; exact Hn|].
  cbn [snd]. unfold Db.markImagesAsDeleted.
  rewrite (update_returning_nth _ _ _ _ _ Hn).
  fold (delete_hit ids uid r).
  destruct (delete_hit ids uid r) eqn:Hh; [right|left; reflexivity].
  apply delete_hit_inv in Hh as (_ & Ho & Hst).
  repeat split; trivial. congruence.
Qed.

(** X8. The primary key survives every handler: when no two rows share an
    id before a presign, confirm or delete request, none do after it. *)
Theorem handlers_keep_ids_unique env w request t :
  NoDup (map Db.id t) ->
  NoDup (map Db.id (snd (Presign.POST env w request t)))
  /\ NoDup (map Db.id (snd (Confirm.POST env w request t)))
  /\ NoDup (map Db.id (snd (Files.DELETE env w request t))).
Proof.
  intros Hnd. repeat split.
  - destruct (Presign_POST_table env w request t) as [->|(c & -> & Hpk)];
      [exact Hnd|now apply pk_admits_NoDup].
  - destruct (Confirm_POST_inv env w request t)
      as [->|(uid & b & updates & Hc & Hb & Hs)]; [exact Hnd|].
    rewrite (Confirm_POST_rows env w request t uid b updates Hc Hb Hs).
    rewrite map_map.
    erewrite map_ext; [exact Hnd|]. intros r.
    apply (confirm_row_identity w uid updates r).
  - destruct (Files_DELETE_table env w request t)
      as [->|(uid & b & ids & _ & _ & _ & _ & ->)]; [exact Hnd|].
    cbn [snd]. unfold Db.markImagesAsDeleted, Db.update_returning.
    cbn [snd]. rewrite map_map.
    erewrite map_ext; [exact Hnd|]. intros r. cbn beta.
    now destruct (_ && _)%bool.
Qed.

(** A concrete instance: a presign into a table that already holds the id
    the generator hands out. *)
Lemma handlers_keep_ids_unique_witness :
  NoDup (map Db.id
           (snd (Presign.POST Sample.env Sample.world
                   (Sample.presign [Sample.image Sample.f1])
                   [Sample.row Sample.r1 Sample.alice Db.pending]))).
Proof.
  refine (proj1 (handlers_keep_ids_unique Sample.env Sample.world
                   (Sample.presign [Sample.image Sample.f1])
                   [Sample.row Sample.r1 Sample.alice Db.pending] _)).
  repeat constructor. cbn. tauto.
Defined.

(** X9. No handler removes a row or rewrites its id, owner, storage key,
    public url, type, size or creation time: after a presign request every
    old row is unchanged at its place and new rows only follow; after a
    confirm or delete request the table has the same length and each row
    keeps those columns. *)
Theorem handlers_keep_identity env w request t :
  (forall i r,
      nth_error t i = Some r ->
      nth_error (snd (Presign.POST env w request t)) i = Some r
      /\ (exists r', nth_error (snd (Confirm.POST env w request t)) i = Some r'
                     /\ same_identity r r')
      /\ (exists r', nth_error (snd (Files.DELETE env w request t)) i = Some r'
                     /\ same_identity r r'))
  /\ (List.length t <= List.length (snd (Presign.POST env w request t)))%nat
  /\ List.length (snd (Confirm.POST env w request t)) = List.length t
  /\ List.length (snd (Files.DELETE env w request t)) = List.length t.
Proof.
  split; [intros i r Hn; repeat split|repeat split].
  - destruct (Presign_POST_table env w request t) as [->|(c & -> & _)];
      [exact Hn|].
    rewrite nth_error_app1; [exact Hn|].
    apply nth_error_Some. congruence.
  - destruct (Confirm_POST_nth env w request t i r Hn)
      as [H|(uid & updates & _ & H)]; rewrite H; eexists;
      (split; [reflexivity|]);
      [apply same_identity_refl|apply confirm_row_identity].
  - destruct (Files_DELETE_nth env w request t i r Hn)
      as [H|(_ & _ & H)]; rewrite H; eexists;
      (split; [reflexivity|]);
      [apply same_identity_refl|apply set_status_identity].
  - destruct (Presign_POST_table env w request t) as [->|(c & -> & _)];
      [lia|]. rewrite length_app. lia.
  - destruct (Confirm_POST_inv env w request t)
      as [->|(uid & b & updates & Hc & Hb & Hs)]; [reflexivity|].
    rewrite (Confirm_POST_rows env w request t uid b updates Hc Hb Hs).
    apply length_map.
  - destruct (Files_DELETE_table env w request t)
      as [->|(uid & b & ids & _ & _ & _ & _ & ->)]; [reflexivity|].
    cbn. apply length_map.
Qed.

(** A concrete instance: the row of a confirmed record. *)
Lemma handlers_keep_identity_witness :
  exists r',
    nth_error
      (snd (Confirm.POST Sample.env Sample.world
              (Sample.confirm [Sample.update Sample.r1 "completed"])
              [Sample.row Sample.r1 Sample.alice Db.pending])) 0
    = Some r'
    /\ same_identity (Sample.row Sample.r1 Sample.alice Db.pending) r'.
Proof.
  exact (proj1 (proj2 (proj1 (handlers_keep_identity Sample.env Sample.world
                                (Sample.confirm
                                   [Sample.update Sample.r1 "completed"])
                                [Sample.row Sample.r1 Sample.alice Db.pending])
                         0%nat _ eq_refl))).
Defined.



(** ** What the single-row statements write *)

(** X2. Both statements throw on an id that is no uuid.  Otherwise
    [markImageFailed] selects by id alone, the id compared as a uuid: the
    row with that id gets the status [failed] and the time of the call as
    completion time, whoever owns it, and is the row returned.
    [markImageCompleted] selects by id and owner: it gives the status
    [completed] to the row with that id of that owner and leaves every
    row of another owner as it is.  Neither writes another column or
    another row, and each answers null exactly when no row was
    selected. *)
Theorem markImageFailed_ignores_owner w imageId uid t :
  (Pg.uuid_in imageId = None ->
   Pg.markImageFailed w imageId t = None
   /\ Pg.markImageCompleted w imageId uid t = None)
  /\ (forall c,
         Pg.uuid_in imageId = Some c ->
         exists updated t',
           Pg.markImageFailed w imageId t = Some (updated, t')
           /\ (forall i r,
                  nth_error t i = Some r ->
                  exists r',
                    nth_error t' i = Some r'
                    /\ same_identity r r'
                    /\ (Db.id r = c ->
                        Db.status r' = Db.failed
                        /\ Db.completedAt r' = Some (now w))
                    /\ (Db.id r <> c -> r' = r))
           /\ (updated = None <-> forall r, In r t -> Db.id r <> c)
           /\ (forall x,
                  updated = Some x ->
                  Db.id x = c /\ Db.status x = Db.failed
                  /\ exists r, In r t /\ same_identity r x))
  /\ (forall c u,
         Pg.uuid_in imageId = Some c -> Pg.uuid_in uid = Some u ->
         exists updated t',
           Pg.markImageCompleted w imageId uid t = Some (updated, t')
           /\ (forall i r,
                  nth_error t i = Some r ->
                  exists r',
                    nth_error t' i = Some r'
                    /\ same_identity r r'
                    /\ (Db.id r = c -> Db.userId r = u ->
                        Db.status r' = Db.completed
                        /\ Db.completedAt r' = Some (now w))
                    /\ (Db.id r <> c \/ Db.userId r <> u -> r' = r))
           /\ (updated = None
               <-> forall r, In r t -> Db.id r <> c \/ Db.userId r <> u)).
Proof.
  unfold Pg.markImageFailed, Pg.markImageCompleted.
  split; [|split].
  - intros ->. split; reflexivity.
  - intros c ->.
    unfold Db.markImageFailed, Db.update_returning.
    eexists _, _. split; [reflexivity|]. split; [|split].
    + intros i r Hn. rewrite nth_error_map, Hn. cbn [option_map].
      eexists. split; [reflexivity|].
      destruct (String.eqb_spec (Db.id r) c) as [E|E].
      * split; [apply set_status_identity|]. split; [|contradiction].
        intros _. split; reflexivity.
      * split; [apply same_identity_refl|].
        split; [contradiction|reflexivity].
    + split.
      * intros H r Hr E.
        apply nth_error_0_None in H. apply map_eq_nil in H.
        apply (proj1 (filter_nil_iff _ _)) with (x := r) in H; [|exact Hr].
        cbn in H. subst c. now rewrite String.eqb_refl in H.
      * intros H. apply nth_error_0_None.
        rewrite filter_none; [reflexivity|].
        intros r Hr. apply String.eqb_neq. now apply H.
    + intros x Hx. apply nth_error_In in Hx.
      apply in_map_iff in Hx as (r & <- & Hr).
      apply filter_In in Hr as [Hr E]. apply String.eqb_eq in E.
      split; [exact E|]. split; [reflexivity|].
      exists r. split; [exact Hr|apply set_status_identity].
  - intros c u -> ->.
    unfold Db.markImageCompleted, Db.update_returning.
    eexists _, _. split; [reflexivity|]. split.
    + intros i r Hn. rewrite nth_error_map, Hn. cbn [option_map].
      eexists. split; [reflexivity|].
      destruct (String.eqb_spec (Db.id r) c) as [E|E];
        destruct (String.eqb_spec (Db.userId r) u) as [E'|E']; cbn [andb].
      * split; [apply set_status_identity|]. split; [|tauto].
        intros _ _. split; reflexivity.
      * split; [apply same_identity_refl|].
        split; [contradiction|reflexivity].
      * split; [apply same_identity_refl|].
        split; [contradiction|reflexivity].
      * split; [apply same_identity_refl|].
        split; [contradiction|reflexivity].
    + split.
      * intros H r Hr.
        apply nth_error_0_None in H. apply map_eq_nil in H.
        apply (proj1 (filter_nil_iff _ _)) with (x := r) in H; [|exact Hr].
        cbn in H. apply andb_false_iff in H.
        destruct H as [H|H]; apply String.eqb_neq in H; auto.
      * intros H. apply nth_error_0_None.
        rewrite filter_none; [reflexivity|].
        intros r Hr. apply andb_false_iff.
        destruct (H r Hr) as [E|E]; apply String.eqb_neq in E; auto.
Qed.

(** A concrete instance: [markImageFailed] on the id, in upper case, of a
    completed record of someone else. *)
Lemma markImageFailed_ignores_owner_witness :
  exists updated t' r',
    Pg.markImageFailed Sample.world Sample.RA
      [Sample.row Sample.ra Sample.bob Db.completed]
    = Some (updated, t')
    /\ nth_error t' 0 = Some r'
    /\ Db.status r' = Db.failed
    /\ Db.userId r' = Sample.bob.
Proof.
  destruct (proj1 (proj2
              (markImageFailed_ignores_owner Sample.world Sample.RA
                 Sample.alice
                 [Sample.row Sample.ra Sample.bob Db.completed]))
              Sample.ra eq_refl)
    as (updated & t' & Hrun & Hrows & _).
  destruct (Hrows 0%nat (Sample.row Sample.ra Sample.bob Db.completed)
              eq_refl) as (r' & Hn & Hid & Hf & _).
  exists updated, t', r'. split; [exact Hrun|]. split; [exact Hn|].
  split; [apply Hf; reflexivity|].
  destruct Hid as (_ & Ho & _). exact Ho.
Defined.

(** ** Counting in confirm *)

Lemma NoDup_map_filter {A B} (f : A -> B) (p : A -> bool) l :
  NoDup (map f l) -> NoDup (map f (filter p l)).
Proof.
  induction l as [|a l IH]; cbn; [trivial|].
  intros H. inversion H as [|? ? Hnot Hnd]; subst.
  destruct (p a); cbn; [constructor|]; auto.
  intros Hin. apply Hnot. apply in_map_iff in Hin as (x & E & Hx).
  apply filter_In in Hx as [Hx _]. rewrite <- E. now apply in_map.
Qed.

Lemma matched_le ids uid t :
  NoDup (map Db.id t) -> (matched ids uid t <= List.length ids)%nat.
Proof.
  intros Hnd. unfold matched.
  rewrite <- (length_map Db.id (filter (confirm_hit ids uid) t)).
  apply NoDup_incl_length; [now apply NoDup_map_filter|].
  intros i Hi. apply in_map_iff in Hi as (r & <- & Hr).
  apply filter_In in Hr as [_ Hh]. unfold confirm_hit in Hh.
  apply andb_prop in Hh as [Hh _]. now apply inArray_In.
Qed.

Lemma ids_of_split updates :
  (List.length (ids_of confirm_completed updates)
   + List.length (ids_of confirm_failed updates))%nat
  = List.length updates.
Proof.
  unfold ids_of. rewrite !length_map.
  induction updates as [|u us IH]; cbn; [reflexivity|].
  destruct (u_status u); cbn; lia.
Qed.

(** ** The request schemas *)

Lemma within_max_spec x v :
  Zod.within_max x v = true <-> forall m, v = Some m -> x <= m.
Proof.
  unfold Zod.within_max. destruct v as [m|].
  - rewrite negb_true_iff, Z.ltb_ge. split.
    + intros H m' [= <-]. exact H.
    + intros H. now apply H.
  - split; [discriminate|reflexivity].
Qed.

Lemma array_1_max_inv {A} (elem : Json -> option A) v j l' :
  Zod.array_1_max elem v j = Some l' ->
  exists l, j = JArr l /\ Zod.all elem l = Some l'
            /\ (1 <= List.length l')%nat
            /\ forall m, v = Some m -> Z.of_nat (List.length l') <= m.
Proof.
  unfold Zod.array_1_max. destruct j; try discriminate.
  destruct (_ && _)%bool eqn:Hb; [|discriminate].
  intros H. exists l. split; [reflexivity|]. split; [exact H|].
  apply andb_prop in Hb as [H1 H2].
  pose proof (Forall2_length (all_Forall2 _ _ _ H)) as Hlen.
  rewrite <- Hlen. split; [apply Z.leb_le in H1; lia|].
  now apply within_max_spec.
Qed.

Lemma all_map_encode {A} (elem : Json -> option A) (enc : A -> Json) items :
  (forall a, In a items -> elem (enc a) = Some a) ->
  Zod.all elem (map enc items) = Some items.
Proof.
  induction items as [|a items IH]; cbn; [reflexivity|]. intros H.
  rewrite (H a) by (left; reflexivity).
  rewrite IH; [reflexivity|]. intros x Hx. apply H. right. exact Hx.
Qed.

Lemma array_1_max_encode {A} (elem : Json -> option A) (enc : A -> Json)
    v items :
  (1 <= List.length items)%nat ->
  (forall m, v = Some m -> Z.of_nat (List.length items) <= m) ->
  (forall a, In a items -> elem (enc a) = Some a) ->
  Zod.array_1_max elem v (JArr (map enc items)) = Some items.
Proof.
  intros H1 H2 H. unfold Zod.array_1_max. rewrite length_map.
  rewrite (proj2 (within_max_spec _ _) H2).
  replace (1 <=? Z.of_nat (List.length items)) with true
    by (symmetry; apply Z.leb_le; lia).
  cbn [andb]. now apply all_map_encode.
Qed.

Lemma singleImageSchema_inv env j image :
  singleImageSchema env j = Some image -> valid_image env image.
Proof.
  unfold singleImageSchema. destruct j; try discriminate.
  destruct (Zod.lookup "fileId" fields) as [[| | |i| |]|]; try discriminate.
  destruct (Zod.lookup "fileType" fields) as [[| | |ty| |]|]; try discriminate.
  destruct (Zod.lookup "fileSize" fields) as [[| |sz| | |]|]; try discriminate.
  destruct (_ && _)%bool eqn:Hb; [|discriminate].
  intros [= <-]. unfold valid_image. cbn.
  apply andb_prop in Hb as [Hb H4]. apply andb_prop in Hb as [Hb H3].
  apply andb_prop in Hb as [H1 H2].
  repeat split; trivial.
  - intros ->. discriminate.
  - now apply Z.ltb_lt.
  - now apply within_max_spec.
Qed.

Lemma singleImageSchema_encode env image :
  valid_image env image ->
  singleImageSchema env
    (JObj [("fileId", JStr (fileId image));
           ("fileType", JStr (fileType image));
           ("fileSize", JNum (fileSize image))])
  = Some image.
Proof.
  intros (Hu & Ht & Hs & Hm). unfold singleImageSchema. cbn [Zod.lookup].
  cbn. rewrite Hu, (proj2 (Z.ltb_lt _ _) Hs),
    (proj2 (within_max_spec _ _) Hm).
  destruct image as [i ty sz]. cbn [fileId fileType fileSize] in *.
  destruct ty as [|c ty]; [congruence|].
  assert (Hlen : (1 <=? Z.of_nat (String.length (String c ty))) = true)
    by (apply Z.leb_le; cbn [String.length]; lia).
  rewrite Hlen. reflexivity.
Qed.

(** X12. The presign schema accepts a body only when it holds between one
    and MAX_IMAGES images, each with a well-formed UUID, a non-empty type
    and a size above zero and at most MAX_IMAGE_SIZE_BYTES; and it reads
    the body the browser code builds from such a batch back as that batch.
    A bound whose variable does not parse to a number is not enforced. *)
Theorem presignRequestSchema_accepts_exactly env :
  (forall b images,
      presignRequestSchema env b = Some images ->
      valid_batch env (List.length images)
      /\ Forall (valid_image env) images)
  /\ (forall images,
         valid_batch env (List.length images) ->
         Forall (valid_image env) images ->
         presignRequestSchema env (Client.presign_body images) = Some images).
Proof.
  split.
  - intros b images. unfold presignRequestSchema.
    destruct b; try discriminate.
    destruct (Zod.lookup "images" fields) as [a|]; [|discriminate].
    intros H. apply array_1_max_inv in H as (l & _ & Hall & H1 & H2).
    split; [split; assumption|].
    apply Forall_forall. intros image Hin.
    destruct (Forall2_In_r _ _ _ _ (all_Forall2 _ _ _ Hall) Hin)
      as (j & _ & Hj).
    now apply singleImageSchema_inv in Hj.
  - intros images [H1 H2] Hv. unfold presignRequestSchema, Client.presign_body.
    cbn [Zod.lookup]. cbn.
    apply array_1_max_encode; trivial.
    intros a Ha. apply singleImageSchema_encode.
    rewrite Forall_forall in Hv. now apply Hv.
Qed.

(** A concrete instance: the sample image under the default bounds. *)
Lemma presignRequestSchema_accepts_exactly_witness :
  presignRequestSchema Sample.env
    (Client.presign_body
       [{| fileId := Sample.f1; fileType := "image/webp";
           fileSize := 500000 |}])
  = Some [{| fileId := Sample.f1; fileType := "image/webp";
             fileSize := 500000 |}].
Proof.
  refine (proj2 (presignRequestSchema_accepts_exactly Sample.env) _ _ _).
  - split; [cbn; lia|].
    intros m H. vm_compute in H. injection H as <-. vm_compute. discriminate.
  - constructor; [|constructor]. repeat split.
    + discriminate.
    + intros m H. vm_compute in H. injection H as <-. vm_compute.
      discriminate.
Defined.

Lemma confirmUpdateSchema_inv j u :
  confirmUpdateSchema j = Some u -> Zod.uuid (imageId u) = true.
Proof.
  unfold confirmUpdateSchema. destruct j; try discriminate.
  destruct (Zod.lookup "imageId" fields) as [[| | |i| |]|]; try discriminate.
  destruct (Zod.lookup "status" fields) as [[| | |st| |]|]; try discriminate.
  destruct (Zod.uuid i) eqn:Hu; [|discriminate].
  destruct (st =? "completed")%string; [now intros [= <-]|].
  destruct (st =? "failed")%string; [now intros [= <-]|discriminate].
Qed.

Lemma confirmUpdateSchema_encode u :
  Zod.uuid (imageId u) = true ->
  confirmUpdateSchema
    (JObj [("imageId", JStr (imageId u));
           ("status", JStr (Client.status_text (u_status u)))])
  = Some u.
Proof.
  intros Hu. unfold confirmUpdateSchema. cbn [Zod.lookup]. cbn.
  rewrite Hu. destruct u as [i []]; reflexivity.
Qed.

(** X13. The confirm schema accepts a body only when it holds between one
    and MAX_IMAGES updates whose image ids are well-formed UUIDs, and it
    reads the body the browser code builds from its upload outcomes back as
    those updates: the two outcome words the browser sends are the two the
    schema knows. *)
Theorem confirmUploadSchema_accepts_exactly env :
  (forall b updates,
      confirmUploadSchema env b = Some updates ->
      valid_batch env (List.length updates)
      /\ Forall (fun u => Zod.uuid (imageId u) = true) updates)
  /\ (forall updates,
         valid_batch env (List.length updates) ->
         Forall (fun u => Zod.uuid (imageId u) = true) updates ->
         confirmUploadSchema env (Client.confirm_body updates) = Some updates).
Proof.
  split.
  - intros b updates. unfold confirmUploadSchema.
    destruct b; try discriminate.
    destruct (Zod.lookup "updates" fields) as [a|]; [|discriminate].
    intros H. apply array_1_max_inv in H as (l & _ & Hall & H1 & H2).
    split; [split; assumption|].
    apply Forall_forall. intros u Hin.
    destruct (Forall2_In_r _ _ _ _ (all_Forall2 _ _ _ Hall) Hin)
      as (j & _ & Hj).
    now apply confirmUpdateSchema_inv in Hj.
  - intros updates [H1 H2] Hv.
    unfold confirmUploadSchema, Client.confirm_body.
    cbn [Zod.lookup]. cbn.
    apply array_1_max_encode; trivial.
    intros u Hu. apply confirmUpdateSchema_encode.
    rewrite Forall_forall in Hv. now apply Hv.
Qed.

(** A concrete instance: one failed upload reported under the default
    bound. *)
Lemma confirmUploadSchema_accepts_exactly_witness :
  confirmUploadSchema Sample.env
    (Client.confirm_body
       [{| imageId := Sample.r1; u_status := confirm_failed |}])
  = Some [{| imageId := Sample.r1; u_status := confirm_failed |}].
Proof.
  refine (proj2 (confirmUploadSchema_accepts_exactly Sample.env) _ _ _).
  - split; [cbn; lia|].
    intros m H. vm_compute in H. injection H as <-. vm_compute. discriminate.
  - repeat constructor.
Defined.

(** X14. The delete schema accepts a body only when it holds between one
    and MAX_IMAGES ids, all well-formed UUIDs; it reads such a list back as
    it was sent, and so the single-id body the browser code builds.  The
    ids need not differ from one another. *)
Theorem deleteImagesSchema_accepts_exactly env :
  (forall b imageIds,
      deleteImagesSchema env b = Some imageIds ->
      valid_batch env (List.length imageIds)
      /\ Forall (fun i => Zod.uuid i = true) imageIds)
  /\ (forall imageIds,
         valid_batch env (List.length imageIds) ->
         Forall (fun i => Zod.uuid i = true) imageIds ->
         deleteImagesSchema env (JObj [("imageIds", JArr (map JStr imageIds))])
         = Some imageIds)
  /\ (forall i,
         valid_batch env 1 -> Zod.uuid i = true ->
         deleteImagesSchema env (Client.delete_body i) = Some [i]
         /\ deleteImagesSchema env
              (JObj [("imageIds", JArr [JStr i; JStr i])])
            = if Zod.within_max 2 (MAX_IMAGES env) then Some [i; i] else None).
Proof.
  assert (Henc : forall imageIds,
             valid_batch env (List.length imageIds) ->
             Forall (fun i => Zod.uuid i = true) imageIds ->
             deleteImagesSchema env
               (JObj [("imageIds", JArr (map JStr imageIds))])
             = Some imageIds).
  { intros ids [H1 H2] Hv. unfold deleteImagesSchema.
    cbn [Zod.lookup]. cbn.
    apply array_1_max_encode; trivial.
    intros i Hi. unfold uuidStringSchema.
    rewrite Forall_forall in Hv. now rewrite (Hv i Hi). }
  split; [|split; [exact Henc|]].
  - intros b ids. unfold deleteImagesSchema.
    destruct b; try discriminate.
    destruct (Zod.lookup "imageIds" fields) as [a|]; [|discriminate].
    intros H. apply array_1_max_inv in H as (l & _ & Hall & H1 & H2).
    split; [split; assumption|].
    apply Forall_forall. intros i Hin.
    destruct (Forall2_In_r _ _ _ _ (all_Forall2 _ _ _ Hall) Hin)
      as (j & _ & Hj).
    unfold uuidStringSchema in Hj. destruct j; try discriminate.
    destruct (Zod.uuid s) eqn:Hu; [|discriminate]. now injection Hj as <-.
  - intros i Hb Hu. split.
    + apply (Henc [i]); [exact Hb|]. now constructor.
    + unfold deleteImagesSchema. cbn [Zod.lookup]. cbn.
      unfold Zod.array_1_max. cbn [List.length Z.of_nat andb].
      change (1 <=? Z.of_nat 2) with true. cbn [andb].
      destruct (Zod.within_max _ _); [|reflexivity].
      cbn. unfold uuidStringSchema. now rewrite Hu.
Qed.

(** A concrete instance: the body the browser sends for one image. *)
Lemma deleteImagesSchema_accepts_exactly_witness :
  deleteImagesSchema Sample.env (Client.delete_body Sample.r1)
  = Some [Sample.r1].
Proof.
  refine (proj1 (proj2 (proj2 (deleteImagesSchema_accepts_exactly Sample.env))
                   Sample.r1 _ eq_refl)).
  split; [cbn; lia|].
  intros m H. vm_compute in H. injection H as <-. vm_compute. discriminate.
Defined.

Lemma list_ascii_app a b :
  list_ascii_of_string (a ++ b)
  = (list_ascii_of_string a ++ list_ascii_of_string b)%list.
Proof. induction a as [|c a IH]; cbn; [reflexivity|]. now rewrite IH. Qed.

Lemma string_length_app a b :
  String.length (a ++ b) = (String.length a + String.length b)%nat.
Proof. induction a as [|c a IH]; cbn; [reflexivity|]. now rewrite IH. Qed.

Lemma take_hex_inv n : forall s r,
  Zod.take_hex n s = Some r ->
  exists p, s = p ++ r /\ String.length p = n
            /\ Forall (fun c => Zod.is_hex c = true) (list_ascii_of_string p).
Proof.
  induction n as [|n IH]; intros s r; cbn.
  - intros [= <-]. exists "". repeat split. constructor.
  - destruct s as [|c s]; [discriminate|].
    destruct (Zod.is_hex c) eqn:Hc; [|discriminate].
    intros H. apply IH in H as (p & -> & Hl & Hp).
    exists (String c p). cbn. repeat split; [now rewrite Hl|].
    now constructor.
Qed.

Lemma take_dash_inv s r : Zod.take_dash s = Some r -> s = "-" ++ r.
Proof.
  unfold Zod.take_dash. destruct s as [|c s]; [discriminate|].
  destruct (Ascii.eqb_spec c "-") as [->|Hne].
  - now intros [= <-].
  - destruct c as [[] [] [] [] [] [] [] []]; try discriminate.
    now contradiction Hne.
Qed.

(** X15. A string the schemas accept as a UUID has exactly 36 characters,
    each a hexadecimal digit or a dash; in particular it holds no slash and
    no dot, so the storage key [ownerId/fileId] of an accepted image has no
    path separator after the owner part. *)
Theorem accepted_uuid_shape s :
  Zod.uuid s = true ->
  String.length s = 36%nat
  /\ Forall (fun c => Zod.is_hex c = true \/ c = "-"%char)
       (list_ascii_of_string s)
  /\ ~ In "/"%char (list_ascii_of_string s)
  /\ ~ In "."%char (list_ascii_of_string s).
Proof.
  unfold Zod.uuid, Zod.andThen. intros H.
  destruct (Zod.take_hex 8 s) as [s1|] eqn:E1; [|discriminate].
  destruct (Zod.take_dash s1) as [s2|] eqn:E2; [|discriminate].
  destruct (Zod.take_hex 4 s2) as [s3|] eqn:E3; [|discriminate].
  destruct (Zod.take_dash s3) as [s4|] eqn:E4; [|discriminate].
  destruct (Zod.take_hex 4 s4) as [s5|] eqn:E5; [|discriminate].
  destruct (Zod.take_dash s5) as [s6|] eqn:E6; [|discriminate].
  destruct (Zod.take_hex 4 s6) as [s7|] eqn:E7; [|discriminate].
  destruct (Zod.take_dash s7) as [s8|] eqn:E8; [|discriminate].
  destruct (Zod.take_hex 12 s8) as [[|c s9]|] eqn:E9; try discriminate.
  apply take_hex_inv in E1 as (p1 & -> & L1 & F1).
  apply take_dash_inv in E2 as ->.
  apply take_hex_inv in E3 as (p2 & -> & L2 & F2).
  apply take_dash_inv in E4 as ->.
  apply take_hex_inv in E5 as (p3 & -> & L3 & F3).
  apply take_dash_inv in E6 as ->.
  apply take_hex_inv in E7 as (p4 & -> & L4 & F4).
  apply take_dash_inv in E8 as ->.
  apply take_hex_inv in E9 as (p5 & -> & L5 & F5).
  assert (Hall : Forall (fun c => Zod.is_hex c = true \/ c = "-"%char)
                   (list_ascii_of_string
                      (p1 ++ "-" ++ p2 ++ "-" ++ p3 ++ "-" ++ p4 ++ "-"
                       ++ p5 ++ ""))).
  { rewrite !list_ascii_app. cbn [list_ascii_of_string].
    repeat (apply Forall_app; split);
      try (eapply Forall_impl; [|eassumption]; intros ? ?; left; assumption);
      try (constructor; [right; reflexivity|]); constructor. }
  split; [|split; [exact Hall|split]].
  - rewrite !string_length_app, L1, L2, L3, L4, L5. reflexivity.
  - intros Hin. rewrite Forall_forall in Hall.
    destruct (Hall _ Hin) as [Hx|Hx]; discriminate.
  - intros Hin. rewrite Forall_forall in Hall.
    destruct (Hall _ Hin) as [Hx|Hx]; discriminate.
Qed.

(** A concrete instance: the sample file id. *)
Lemma accepted_uuid_shape_witness :
  String.length Sample.f1 = 36%nat
  /\ Forall (fun c => Zod.is_hex c = true \/ c = "-"%char)
       (list_ascii_of_string Sample.f1)
  /\ ~ In "/"%char (list_ascii_of_string Sample.f1)
  /\ ~ In "."%char (list_ascii_of_string Sample.f1).
Proof. exact (accepted_uuid_shape Sample.f1 eq_refl). Defined.

(** ** Delete, continued *)

Lemma delete_hit_resolves ids uid r :
  ((Db.userId r =? uid)%string && Db.inArray (Db.id r) ids
   && Db.status_eqb (Db.status r) Db.completed)%bool
  = delete_hit ids uid r.
Proof.
  unfold delete_hit.
  now rewrite (andb_comm (Db.userId r =? uid)%string).
Qed.

Lemma marked_are_resolved w ids uid t :
  map (fun img => (Db.id img, Db.objectKey img))
    (fst (Db.markImagesAsDeleted w ids uid t))
  = resolved uid ids t.
Proof.
  unfold resolved, Db.getImageObjectKeysByUserAndIds,
    Db.markImagesAsDeleted, Db.update_returning.
  cbn [fst]. rewrite map_map. cbn.
  f_equal. apply filter_ext. intros r. symmetry. apply delete_hit_resolves.
Qed.

Lemma markImagesAsDeleted_rows w ids uid t :
  snd (Db.markImagesAsDeleted w ids uid t)
  = map (fun r => if delete_hit ids uid r
                  then Db.set_status Db.deleted (now w) r else r) t.
Proof. reflexivity. Qed.

(** A delete request answered 200, spelled out. *)
Lemma Files_DELETE_ok_run env w request t n imgs :
  fst (Files.DELETE env w request t) = DeleteOk n imgs ->
  exists uid b ids,
    caller env request = Some uid /\ body request = Some b
    /\ deleteImagesSchema env b = Some ids
    /\ imgs = resolved uid ids t
    /\ n = List.length imgs
    /\ resolved uid ids t <> []
    /\ missing uid ids t = []
    /\ storage_clean w (map snd (resolved uid ids t)) = true
    /\ snd (Files.DELETE env w request t)
       = map (fun r => if delete_hit ids uid r
                       then Db.set_status Db.deleted (now w) r else r) t.
Proof.
  intros Hok.
  destruct (Files_DELETE_ok env w request t n imgs Hok)
    as (uid & b & ids & Hc & Hb & Hs & Hn & Himgs).
  exists uid, b, ids. rewrite marked_are_resolved in Himgs.
  rewrite <- (length_map (fun img => (Db.id img, Db.objectKey img))),
    marked_are_resolved in Hn.
  repeat (split; [first [assumption|congruence]|]).
  rewrite (Files_DELETE_run env w request t uid b ids Hc Hb Hs) in Hok |- *.
  unfold storage_clean.
  destruct (resolved uid ids t) as [|k ks] eqn:Hr; [discriminate|].
  split; [discriminate|].
  destruct (missing uid ids t) as [|x xs]; [|discriminate].
  split; [reflexivity|].
  destruct (deleteFiles w _) as [response|]; [|discriminate].
  destruct (Files.has_errors response); [discriminate|].
  split; reflexivity.
Qed.


Lemma resolved_after_delete w ids uid t :
  resolved uid ids
    (map (fun r => if delete_hit ids uid r
                   then Db.set_status Db.deleted (now w) r else r) t)
  = [].
Proof.
  unfold resolved, Db.getImageObjectKeysByUserAndIds.
  rewrite filter_none; [reflexivity|].
  intros x Hx. apply in_map_iff in Hx as (r & <- & _).
  destruct (delete_hit ids uid r) eqn:Hh.
  - cbn. now rewrite andb_false_r.
  - now rewrite delete_hit_resolves.
Qed.

(** X17. A delete request that was answered 200 cannot be repeated: sent
    again against the table it left, it finds no completed row under the
    requested ids, is answered with the bare 403 and changes nothing,
    whatever the storage would say. *)
Theorem DELETE_again_finds_nothing env w1 w2 request t n imgs :
  fst (Files.DELETE env w1 request t) = DeleteOk n imgs ->
  Files.DELETE env w2 request (snd (Files.DELETE env w1 request t))
  = (NoImagesFound, snd (Files.DELETE env w1 request t)).
Proof.
  intros Hok.
  destruct (Files_DELETE_ok_run env w1 request t n imgs Hok)
    as (uid & b & ids & Hc & Hb & Hs & _ & _ & _ & _ & _ & Ht).
  rewrite Ht.
  rewrite (Files_DELETE_run env w2 request _ uid b ids Hc Hb Hs).
  now rewrite resolved_after_delete.
Qed.

(** A concrete instance: one completed record deleted twice. *)
Lemma DELETE_again_finds_nothing_witness :
  Files.DELETE Sample.env Sample.world_s3_errors (Sample.delete [Sample.r1])
    (snd (Files.DELETE Sample.env Sample.world (Sample.delete [Sample.r1])
            [Sample.row Sample.r1 Sample.alice Db.completed]))
  = (NoImagesFound,
     snd (Files.DELETE Sample.env Sample.world (Sample.delete [Sample.r1])
            [Sample.row Sample.r1 Sample.alice Db.completed])).
Proof.
  exact (DELETE_again_finds_nothing Sample.env Sample.world
           Sample.world_s3_errors (Sample.delete [Sample.r1])
           [Sample.row Sample.r1 Sample.alice Db.completed] _ _ eq_refl).
Defined.




Lemma deleteImagesSchema_nonempty env b ids :
  deleteImagesSchema env b = Some ids -> ids <> [].
Proof.
  unfold deleteImagesSchema. destruct b; try discriminate.
  destruct (Zod.lookup "imageIds" fields) as [a|]; [|discriminate].
  intros H. apply array_1_max_inv in H as (l & _ & _ & H1 & _).
  intros ->. cbn in H1. lia.
Qed.

(** X19. A delete request goes through whenever it can: if every requested
    id names a completed row of the caller and the storage delete of their
    keys comes back clean, the answer is 200 with the resolved rows; with
    ids unique in the table and in the request, [deletedCount] is the
    number of ids requested. *)
Theorem DELETE_succeeds_when_all_resolve env w request t uid b imageIds :
  caller env request = Some uid ->
  body request = Some b ->
  deleteImagesSchema env b = Some imageIds ->
  (forall i, In i imageIds ->
     exists r, In r t /\ Db.id r = i /\ Db.userId r = uid
               /\ Db.status r = Db.completed) ->
  storage_clean w (map snd (resolved uid imageIds t)) = true ->
  fst (Files.DELETE env w request t)
  = DeleteOk (List.length (resolved uid imageIds t)) (resolved uid imageIds t)
  /\ (NoDup (map Db.id t) -> NoDup imageIds ->
      List.length (resolved uid imageIds t) = List.length imageIds).
Proof.
  intros Hc Hb Hs Hall Hclean.
  assert (Hres : forall i, In i imageIds ->
                           In i (map fst (resolved uid imageIds t))).
  { intros i Hi. apply resolved_In.
    destruct (Hall i Hi) as (r & Hr & E & Ho & Hst). exists r. auto. }
  split.
  - rewrite (Files_DELETE_run env w request t uid b imageIds Hc Hb Hs).
    assert (Hmiss : missing uid imageIds t = []).
    { unfold missing. apply filter_none. intros i Hi.
      apply negb_false_iff, includes_In. now apply Hres. }
    rewrite Hmiss. unfold storage_clean in Hclean.
    destruct (resolved uid imageIds t) as [|k ks] eqn:Hr.
    + exfalso. destruct imageIds as [|i ids].
      * now apply (deleteImagesSchema_nonempty env b []).
      * destruct (Hres i (or_introl eq_refl)).
    + destruct (deleteFiles w _) as [response|]; [|discriminate].
      apply negb_true_iff in Hclean. rewrite Hclean. cbn [fst].
      rewrite <- Hr, <- (marked_are_resolved w), length_map.
      reflexivity.
  - intros Hnd Hndi.
    rewrite <- (length_map fst (resolved uid imageIds t)).
    apply Nat.le_antisymm.
    + apply NoDup_incl_length.
      * unfold resolved, Db.getImageObjectKeysByUserAndIds.
        rewrite map_map. cbn [fst]. now apply NoDup_map_filter.
      * intros i Hi.
        apply resolved_In in Hi as (_ & _ & _ & _ & Hi & _). exact Hi.
    + apply NoDup_incl_length; [exact Hndi|]. intros i Hi. now apply Hres.
Qed.

(** A concrete instance: two completed records of the caller deleted in
    one request. *)
Lemma DELETE_succeeds_when_all_resolve_witness :
  fst (Files.DELETE Sample.env Sample.world
         (Sample.delete [Sample.r1; Sample.r2])
         [Sample.row Sample.r1 Sample.alice Db.completed;
          Sample.row Sample.r2 Sample.alice Db.completed])
  = DeleteOk 2 [(Sample.r1, Sample.alice ++ "/" ++ Sample.f1);
                (Sample.r2, Sample.alice ++ "/" ++ Sample.f1)].
Proof.
  refine (proj1 (DELETE_succeeds_when_all_resolve Sample.env Sample.world
                   (Sample.delete [Sample.r1; Sample.r2])
                   [Sample.row Sample.r1 Sample.alice Db.completed;
                    Sample.row Sample.r2 Sample.alice Db.completed]
                   Sample.alice
                   (JObj [("imageIds", JArr [JStr Sample.r1; JStr Sample.r2])])
                   [Sample.r1; Sample.r2] eq_refl eq_refl eq_refl _ eq_refl)).
  intros i [<-|[<-|[]]].
  - exists (Sample.row Sample.r1 Sample.alice Db.completed).
    split; [left; reflexivity|repeat split].
  - exists (Sample.row Sample.r2 Sample.alice Db.completed).
    split; [right; left; reflexivity|repeat split].
Defined.

(** ** The browser side *)

Lemma trim_end_visible uid :
  uid <> "" -> all_visible uid = true -> Client.trim_end uid = uid.
Proof.
  induction uid as [|c r IH]; [contradiction|].
  intros _ Hv. cbn [all_visible] in Hv. apply andb_prop in Hv as [Hc Hr].
  cbn [Client.trim_end]. destruct r as [|c' r'].
  - cbn [Client.trim_end].
    assert (Client.http_ws c = false) as ->; [|reflexivity].
    destruct c as [[] [] [] [] [] [] [] []]; try reflexivity;
      discriminate Hc.
  - rewrite IH by (trivial; discriminate). reflexivity.
Qed.

Lemma trim_end_app p uid :
  uid <> "" -> all_visible uid = true ->
  Client.trim_end (p ++ uid) = p ++ uid.
Proof.
  intros Hne Hv. induction p as [|c p IH]; cbn [append Client.trim_end].
  - now apply trim_end_visible.
  - rewrite IH. destruct (p ++ uid) eqn:E; [|reflexivity].
    destruct p; [cbn in E; contradiction|discriminate].
Qed.

(** X6. The header the browser code builds is the one [authCheck]
    compares with, and it is read by the handler without the white space
    at its ends.  For a token that is set and made of visible ASCII
    characters, at least one, it arrives as it was sent: the request
    authenticates and passes the guard of the handlers with the token as
    caller.  With the variable unset both sides render it as [undefined]:
    the request authenticates and the guard of the handlers stops it.
    With the empty token the header arrives as [Bearer] without the space
    and [authCheck] refuses it. *)
Theorem client_requests_authenticate env data :
  (forall uid,
      OUR_AUTH_TOKEN env = Some uid ->
      uid <> "" -> all_visible uid = true ->
      Client.arrives env data = Client.send env data
      /\ authenticated (authCheck env (Client.arrives env data)) = true
      /\ userId (authCheck env (Client.arrives env data)) = Some uid
      /\ caller env (Client.arrives env data) = Some uid
      /\ presign_caller env (Client.arrives env data) = Some uid)
  /\ (OUR_AUTH_TOKEN env = None ->
      authenticated (authCheck env (Client.arrives env data)) = true
      /\ caller env (Client.arrives env data) = None
      /\ presign_caller env (Client.arrives env data) = None)
  /\ (OUR_AUTH_TOKEN env = Some "" ->
      authorization (Client.arrives env data) = Some "Bearer"
      /\ authenticated (authCheck env (Client.arrives env data)) = false).
Proof.
  split; [|split].
  - intros uid Ht Hne Hv.
    assert (Hsame : Client.arrives env data = Client.send env data).
    { unfold Client.arrives, Client.send, Client.header_value,
        Client.authorization_header.
      rewrite Ht. cbn [Js.tmpl]. rewrite (trim_end_app "Bearer " uid Hne Hv).
      reflexivity. }
    rewrite Hsame. split; [reflexivity|].
    destruct (authCheck_cases env (Client.send env data))
      as [[_ Ha]|[Hx _]]; [|exfalso; apply Hx; reflexivity].
    rewrite presign_caller_eq.
    assert (Hcall : caller env (Client.send env data) = Some uid).
    { apply caller_Some_iff. repeat split; trivial.
      cbn. unfold Client.authorization_header. now rewrite Ht. }
    rewrite Ha, Hcall, Ht. repeat split.
  - intros Ht.
    assert (Hsame : Client.arrives env data = Client.send env data).
    { unfold Client.arrives, Client.send, Client.authorization_header.
      now rewrite Ht. }
    rewrite Hsame.
    destruct (authCheck_cases env (Client.send env data))
      as [[_ Ha]|[Hx _]]; [|exfalso; apply Hx; reflexivity].
    rewrite presign_caller_eq.
    rewrite (falsy_token_no_caller env _) by now rewrite Ht.
    rewrite Ha. repeat split.
  - intros Ht.
    unfold authCheck, Client.arrives, Client.authorization_header.
    cbn [authorization]. rewrite Ht. split; reflexivity.
Qed.

(** A concrete instance: the token of the sample environment, and the
    empty token. *)
Lemma client_requests_authenticate_witness :
  caller Sample.env (Client.arrives Sample.env JNull) = Some Sample.alice
  /\ authenticated
       (authCheck Sample.env_empty_token
          (Client.arrives Sample.env_empty_token JNull)) = false.
Proof.
  split.
  - refine (proj1 (proj2 (proj2 (proj2
              (proj1 (client_requests_authenticate Sample.env JNull)
                 Sample.alice eq_refl _ eq_refl))))).
    discriminate.
  - exact (proj2 (proj2 (proj2
              (client_requests_authenticate Sample.env_empty_token JNull))
              eq_refl)).
Defined.

Lemma filter_index_keep_all {A} (keep : nat -> bool) (l : list A) :
  forall base,
    (forall i, (base <= i)%nat -> keep i = true) ->
    Client.filter_index keep base l = l.
Proof.
  induction l as [|x l IH]; intros base H; cbn; [reflexivity|].
  rewrite (H base) by lia. f_equal. apply IH. intros i Hi. apply H. lia.
Qed.

Lemma filter_index_split {A} (l : list A) : forall k base,
  Client.filter_index (fun index => negb (Nat.eqb index (base + k))) base l
  = (firstn k l ++ skipn (S k) l)%list.
Proof.
  induction l as [|x l IH]; intros k base.
  - cbn. now rewrite firstn_nil.
  - cbn [Client.filter_index]. destruct k as [|k].
    + rewrite Nat.add_0_r, Nat.eqb_refl. cbn.
      apply filter_index_keep_all. intros i Hi.
      apply negb_true_iff, Nat.eqb_neq. lia.
    + replace (Nat.eqb base (base + S k)) with false
        by (symmetry; apply Nat.eqb_neq; lia).
      cbn. f_equal.
      replace (base + S k)%nat with (S base + k)%nat by lia.
      apply IH.
Qed.

(** X20. [handleRemoveFile] drops exactly the file at the given index and
    keeps the others in order; an index past the end changes nothing. *)
Theorem handleRemoveFile_drops_one {File : Type} (k : nat) (prev : list File) :
  Client.handleRemoveFile k prev = (firstn k prev ++ skipn (S k) prev)%list
  /\ ((k < List.length prev)%nat ->
      S (List.length (Client.handleRemoveFile k prev)) = List.length prev)
  /\ ((List.length prev <= k)%nat -> Client.handleRemoveFile k prev = prev).
Proof.
  assert (E : Client.handleRemoveFile k prev
              = (firstn k prev ++ skipn (S k) prev)%list)
    by (apply (filter_index_split prev k 0)).
  rewrite E. split; [reflexivity|]. split.
  - intros Hlt. rewrite length_app, length_firstn, length_skipn. lia.
  - intros Hle. rewrite firstn_all2 by exact Hle.
    rewrite skipn_all2 by lia. apply app_nil_r.
Qed.

(** A concrete instance: the middle one of three files. *)
Lemma handleRemoveFile_drops_one_witness :
  S (List.length (Client.handleRemoveFile 1 ["a"; "b"; "c"]))
  = List.length ["a"; "b"; "c"].
Proof.
  refine (proj1 (proj2 (handleRemoveFile_drops_one 1 ["a"; "b"; "c"])) _).
  cbn. lia.
Defined.

(** X21. [onDrop] takes a drop whole or not at all, deciding on the
    selection the handler closed over; when that is the state it updates,
    the selection never grows past MAX_IMAGES. *)
Theorem onDrop_keeps_the_bound {File : Type}
    (selectedFiles prev acceptedFiles : list File) :
  (Client.onDrop selectedFiles prev acceptedFiles = prev
   \/ Client.onDrop selectedFiles prev acceptedFiles
      = (prev ++ acceptedFiles)%list)
  /\ (selectedFiles = prev ->
      (List.length prev <= Client.MAX_IMAGES)%nat ->
      (List.length (Client.onDrop selectedFiles prev acceptedFiles)
       <= Client.MAX_IMAGES)%nat)
  /\ ((Client.MAX_IMAGES
       < List.length selectedFiles + List.length acceptedFiles)%nat ->
      Client.onDrop selectedFiles prev acceptedFiles = prev)
  /\ ((List.length selectedFiles + List.length acceptedFiles
       <= Client.MAX_IMAGES)%nat ->
      Client.onDrop selectedFiles prev acceptedFiles
      = (prev ++ acceptedFiles)%list).
Proof.
  unfold Client.onDrop.
  destruct (Nat.ltb_spec Client.MAX_IMAGES
              (List.length selectedFiles + List.length acceptedFiles))
    as [Hgt|Hle].
  - repeat split; auto. lia.
  - repeat split; auto; try lia.
    intros -> _. rewrite length_app. exact Hle.
Qed.

(** A concrete instance: two files dropped on a selection of four. *)
Lemma onDrop_keeps_the_bound_witness :
  (List.length (Client.onDrop ["a"; "b"; "c"; "d"] ["a"; "b"; "c"; "d"]
                  ["e"; "f"])
   <= Client.MAX_IMAGES)%nat.
Proof.
  refine (proj1 (proj2 (onDrop_keeps_the_bound ["a"; "b"; "c"; "d"]
                          ["a"; "b"; "c"; "d"] ["e"; "f"])) eq_refl _).
  cbn. unfold Client.MAX_IMAGES. lia.
Defined.

Lemma split_segments sep s :
  Js.split sep s <> []
  /\ Forall (fun seg => ~ In sep (list_ascii_of_string seg)) (Js.split sep s).
Proof.
  induction s as [|c s [IHn IHf]]; cbn.
  - split; [discriminate|]. repeat constructor. intros [].
  - destruct (Ascii.eqb_spec c sep) as [->|Hne].
    + split; [discriminate|]. constructor; [intros []|exact IHf].
    + destruct (Js.split sep s) as [|h tl]; [contradiction|].
      split; [discriminate|].
      inversion IHf as [|? ? Hh Htl]; subst. constructor; [|exact Htl].
      cbn. intros [E|Hin]; [now apply Hne|now apply Hh].
Qed.

Lemma split_no_sep sep s :
  ~ In sep (list_ascii_of_string s) -> Js.split sep s = [s].
Proof.
  induction s as [|c s IH]; cbn; [reflexivity|]. intros H.
  destruct (Ascii.eqb_spec c sep) as [->|Hne]; [exfalso; auto|].
  rewrite IH by tauto. reflexivity.
Qed.

Lemma split_at_sep sep a b :
  ~ In sep (list_ascii_of_string a) ->
  Js.split sep (a ++ String sep b) = a :: Js.split sep b.
Proof.
  induction a as [|c a IH]; cbn.
  - now rewrite Ascii.eqb_refl.
  - intros H. destruct (Ascii.eqb_spec c sep) as [->|Hne]; [exfalso; auto|].
    rewrite IH by tauto. reflexivity.
Qed.

(** X22. The file extension of a download name is never empty and never
    holds a slash: it is the text between the first and the second slash
    of the MIME type, and [jpg] when the type has no slash or nothing
    follows the first one. *)
Theorem fileExtension_fallback mimeType :
  Client.fileExtension mimeType <> ""
  /\ ~ In "/"%char (list_ascii_of_string (Client.fileExtension mimeType))
  /\ (~ In "/"%char (list_ascii_of_string mimeType) ->
      Client.fileExtension mimeType = "jpg")
  /\ (forall a b rest,
         mimeType = a ++ "/" ++ b ++ rest ->
         ~ In "/"%char (list_ascii_of_string a) ->
         ~ In "/"%char (list_ascii_of_string b) ->
         rest = "" \/ (exists r, rest = String "/" r) ->
         Client.fileExtension mimeType = if (b =? "")%string then "jpg" else b).
Proof.
  unfold Client.fileExtension. repeat split.
  - destruct (nth_error _ 1) as [[|c e]|]; discriminate.
  - destruct (nth_error (Js.split "/" mimeType) 1) as [e|] eqn:He.
    + apply nth_error_In in He.
      pose proof (proj2 (split_segments "/" mimeType)) as HF.
      rewrite Forall_forall in HF. specialize (HF e He).
      destruct e; [|exact HF]. cbn. intros [H|[H|[H|[]]]]; discriminate.
    + cbn. intros [H|[H|[H|[]]]]; discriminate.
  - intros H. now rewrite split_no_sep.
  - intros a b rest -> Ha Hb Hrest.
    change (a ++ "/" ++ b ++ rest) with (a ++ String "/" (b ++ rest)).
    rewrite split_at_sep by exact Ha. cbn [nth_error].
    destruct Hrest as [->|(r & ->)].
    + rewrite split_no_sep
        by (rewrite list_ascii_app, app_nil_r; exact Hb).
      cbn [nth_error].
      replace (b ++ "") with b by (clear; induction b; cbn; congruence).
      destruct b; reflexivity.
    + rewrite split_at_sep by exact Hb. cbn [nth_error].
      destruct b; reflexivity.
Qed.

(** A concrete instance: the type the browser code uploads. *)
Lemma fileExtension_fallback_witness :
  Client.fileExtension "image/webp"
  = if ("webp" =? "")%string then "jpg" else "webp".
Proof.
  refine (proj2 (proj2 (proj2 (fileExtension_fallback "image/webp")))
            "image" "webp" "" eq_refl _ _ (or_introl eq_refl)).
  - cbn. intuition discriminate.
  - cbn. intuition discriminate.
Defined.

(** ** Presign, continued *)

(** A presign request answered 200, spelled out. *)
Lemma Presign_POST_ok_run env w request t results t' :
  Presign.POST env w request t = (PresignOk results, t') ->
  exists uid b images ps,
    presign_caller env request = Some uid /\ body request = Some b
    /\ presignRequestSchema env b = Some images
    /\ Forall2 (fun image p => Presign.presign_one env w uid image = Some p)
         images ps
    /\ t' = (t ++ Db.insert_rows w 0 (map (Presign.image_data uid) ps))%list
    /\ Db.pk_admits t (Db.insert_rows w 0 (map (Presign.image_data uid) ps))
       = true
    /\ Presign.combine_results 0 ps
         (Db.insert_rows w 0 (map (Presign.image_data uid) ps))
       = Some results.
Proof.
  unfold Presign.POST.
  destruct (presign_caller env request) as [uid|]; [|discriminate].
  destruct (body request) as [b|]; [|discriminate].
  destruct (presignRequestSchema env b) as [images|] eqn:Hs; [|discriminate].
  destruct (Presign.promise_all _ images) as [ps|] eqn:Hps; [|discriminate].
  unfold Db.createImageRecordsBatch.
  destruct (insert_refused w || _)%bool eqn:Hok; [discriminate|].
  apply orb_false_elim in Hok as [_ Hpk]. apply negb_false_iff in Hpk.
  destruct (Presign.combine_results 0 ps _) as [rs|] eqn:Hrs; [|discriminate].
  intros [= <- <-]. exists uid, b, images, ps.
  repeat split; trivial. now apply promise_all_Forall2.
Qed.


Lemma insert_rows_nth w l : forall i k n,
  nth_error l k = Some n ->
  nth_error (Db.insert_rows w i l) k
  = Some {| Db.id := gen_random_uuid w (i + k);
            Db.userId := Db.new_userId n;
            Db.objectKey := Db.new_objectKey n;
            Db.fileUrl := Db.new_fileUrl n;
            Db.mimeType := Db.new_mimeType n;
            Db.sizeBytes := Db.new_sizeBytes n;
            Db.status := Db.pending; Db.createdAt := now w;
            Db.completedAt := None |}.
Proof.
  induction l as [|x l IH]; intros i k n Hk; [destruct k; discriminate|].
  destruct k as [|k]; cbn in *.
  - injection Hk as <-. now rewrite Nat.add_0_r.
  - rewrite (IH (S i) k n Hk). now rewrite Nat.add_succ_r.
Qed.

Lemma combine_results_nth ps : forall pre recs rs k p,
  Presign.combine_results (List.length pre) ps (pre ++ recs) = Some rs ->
  nth_error ps k = Some p ->
  exists rec,
    nth_error recs k = Some rec
    /\ nth_error rs k
       = Some {| res_objectKey := Presign.objectKey p;
                 res_presignedUrl := Presign.presignedUrl p;
                 res_publicFileUrl := Presign.publicFileUrl p;
                 res_imageId := Db.id rec;
                 res_expiresAt := Presign.expiresAt p |}.
Proof.
  induction ps as [|q ps IH]; intros pre recs rs k p Hrs Hk;
    [destruct k; discriminate|].
  cbn [Presign.combine_results] in Hrs.
  rewrite nth_error_app2, Nat.sub_diag in Hrs by apply Nat.le_refl.
  destruct recs as [|rec recs]; [discriminate|]. cbn [nth_error] in Hrs.
  destruct (Presign.combine_results (S (List.length pre)) ps _)
    as [rs'|] eqn:Hrs'; [|discriminate].
  injection Hrs as <-.
  destruct k as [|k]; cbn [nth_error] in *.
  - injection Hk as <-. eauto.
  - apply (IH (pre ++ [rec])%list recs rs' k p); [|exact Hk].
    rewrite length_app, <- app_assoc. cbn. now rewrite Nat.add_1_r.
Qed.



Lemma array_1_max_out_of_bounds {A} (elem : Json -> option A) v l :
  l = [] \/ (exists m, v = Some m /\ m < Z.of_nat (List.length l)) ->
  Zod.array_1_max elem v (JArr l) = None.
Proof.
  unfold Zod.array_1_max. intros [->|(m & -> & Hm)]; [reflexivity|].
  unfold Zod.within_max. rewrite (proj2 (Z.ltb_lt _ _) Hm).
  now rewrite andb_false_r.
Qed.

(** X24. Batch bounds are enforced before anything else happens to the
    request: an authenticated presign, confirm or delete request whose
    array is empty, or longer than a MAX_IMAGES that is a number, is
    answered 400 and changes no row. *)
Theorem out_of_bounds_batches_rejected env w request t uid l :
  caller env request = Some uid ->
  l = [] \/ (exists m, MAX_IMAGES env = Some m /\ m < Z.of_nat (List.length l)) ->
  (body request = Some (JObj [("images", JArr l)]) ->
   Presign.POST env w request t = (InvalidRequest, t))
  /\ (body request = Some (JObj [("updates", JArr l)]) ->
      Confirm.POST env w request t = (InvalidRequest, t))
  /\ (body request = Some (JObj [("imageIds", JArr l)]) ->
      Files.DELETE env w request t = (InvalidRequest, t)).
Proof.
  intros Hc Hl. repeat split; intros Hb.
  - unfold Presign.POST. rewrite presign_caller_eq, Hc, Hb.
    unfold presignRequestSchema.
    change (Zod.lookup "images" [("images", JArr l)]) with (Some (JArr l)).
    cbv iota. now rewrite array_1_max_out_of_bounds.
  - unfold Confirm.POST. rewrite Hc, Hb.
    unfold confirmUploadSchema.
    change (Zod.lookup "updates" [("updates", JArr l)]) with (Some (JArr l)).
    cbv iota. now rewrite array_1_max_out_of_bounds.
  - unfold Files.DELETE. rewrite Hc, Hb.
    unfold deleteImagesSchema.
    change (Zod.lookup "imageIds" [("imageIds", JArr l)]) with (Some (JArr l)).
    cbv iota. now rewrite array_1_max_out_of_bounds.
Qed.

(** A concrete instance: six images against the default bound of five. *)
Lemma out_of_bounds_batches_rejected_witness :
  Presign.POST Sample.env Sample.world
    (Sample.presign [Sample.image Sample.f1; Sample.image Sample.f1;
                     Sample.image Sample.f1; Sample.image Sample.f1;
                     Sample.image Sample.f1; Sample.image Sample.f1]) []
  = (InvalidRequest, []).
Proof.
  refine (proj1 (out_of_bounds_batches_rejected Sample.env Sample.world
                   (Sample.presign
                      [Sample.image Sample.f1; Sample.image Sample.f1;
                       Sample.image Sample.f1; Sample.image Sample.f1;
                       Sample.image Sample.f1; Sample.image Sample.f1]) []
                   Sample.alice
                   [Sample.image Sample.f1; Sample.image Sample.f1;
                    Sample.image Sample.f1; Sample.image Sample.f1;
                    Sample.image Sample.f1; Sample.image Sample.f1]
                   eq_refl _) eq_refl).
  right. exists 5. split; reflexivity.
Defined.

(** ** From presign to the listing *)

Lemma combine_results_length ps : forall i recs rs,
  Presign.combine_results i ps recs = Some rs ->
  List.length rs = List.length ps.
Proof.
  induction ps as [|p ps IH]; intros i recs rs; cbn.
  - now intros [= <-].
  - destruct (nth_error recs i); [|discriminate].
    destruct (Presign.combine_results (S i) ps recs) as [rs'|] eqn:E;
      [|discriminate].
    intros [= <-]. cbn. f_equal. now apply (IH (S i) recs).
Qed.

Lemma presignRequestSchema_batch env b images :
  presignRequestSchema env b = Some images ->
  valid_batch env (List.length images).
Proof.
  unfold presignRequestSchema. destruct b; try discriminate.
  destruct (Zod.lookup "images" fields) as [a|]; [|discriminate].
  intros H. apply array_1_max_inv in H as (l & _ & _ & H1 & H2).
  split; assumption.
Qed.

Lemma ids_of_all_completed results :
  ids_of confirm_completed
    (map (fun r => Client.upload_status r true) results)
  = map res_imageId results
  /\ ids_of confirm_failed
       (map (fun r => Client.upload_status r true) results) = [].
Proof.
  unfold ids_of. induction results as [|r rs [IH1 IH2]]; cbn; [auto|].
  rewrite IH1, IH2. auto.
Qed.

Lemma insert_rows_owner w uid ps i row :
  In row (Db.insert_rows w i (map (Presign.image_data uid) ps)) ->
  Db.userId row = uid.
Proof.
  intros H. apply (in_map Db.userId) in H.
  rewrite (proj2 (insert_rows_fields w i _)), map_map in H. cbn in H.
  apply in_map_iff in H as (p & E & _). now symmetry.
Qed.

(** The rows the k-th result of a presign answer points at. *)
Lemma presign_result_row env w request t results t' r :
  Presign.POST env w request t = (PresignOk results, t') ->
  In r results ->
  exists row,
    In row t' /\ Db.id row = res_imageId r
    /\ Db.fileUrl row = res_publicFileUrl r
    /\ Some (Db.userId row) = presign_caller env request.
Proof.
  intros Hok Hr.
  destruct (Presign_POST_ok_run env w request t results t' Hok)
    as (uid & b & images & ps & Hc & _ & _ & _ & -> & _ & Hrs).
  apply In_nth_error in Hr as (k & Hk).
  assert (Hlt : (k < List.length ps)%nat).
  { rewrite <- (combine_results_length ps _ _ _ Hrs).
    apply nth_error_Some. congruence. }
  destruct (nth_error ps k) as [p|] eqn:Hp;
    [|apply nth_error_None in Hp; lia].
  destruct (combine_results_nth ps [] _ results k p Hrs Hp)
    as (row & Hrow & Hr').
  rewrite Hk in Hr'. injection Hr' as ->.
  exists row. split; [apply in_or_app; right; eapply nth_error_In; eauto|].
  rewrite (insert_rows_nth w _ 0 k (Presign.image_data uid p)) in Hrow
    by (now rewrite nth_error_map, Hp).
  injection Hrow as <-. cbn. rewrite Hc. auto.
Qed.

(** X25. The whole upload, as the browser code drives it: after a presign
    answered 200, confirming every returned image id as completed (the ids
    the database generated being well-formed UUIDs) updates exactly as many
    rows as results were returned, and a GET by the same caller then lists
    every one of them as completed under its public url. *)
Theorem presign_confirm_list env w w' request t results t1 :
  Presign.POST env w request t = (PresignOk results, t1) ->
  Forall (fun r => Zod.uuid (res_imageId r) = true) results ->
  let confirm :=
    Client.send env
      (Client.confirm_body
         (map (fun r => Client.upload_status r true) results)) in
  fst (Confirm.POST env w' confirm t1) = ConfirmOk (List.length results)
  /\ forall r,
      In r results ->
      exists images c,
        Files.GET env confirm (snd (Confirm.POST env w' confirm t1))
        = inr images
        /\ In c images
        /\ Db.ci_id c = res_imageId r
        /\ Db.ci_fileUrl c = res_publicFileUrl r
        /\ Db.ci_status c = Db.completed.
Proof.
  intros Hok Huuid confirm.
  destruct (Presign_POST_ok_run env w request t results t1 Hok)
    as (uid & b & images & ps & Hc & Hb & Hs & Hps & Ht & Hpk & Hrs).
  set (created := Db.insert_rows w 0 (map (Presign.image_data uid) ps)) in *.
  set (updates := map (fun r => Client.upload_status r true) results).
  rewrite presign_caller_eq in Hc.
  pose proof (caller_token env request uid Hc) as (Htok & Hne & _).
  assert (Hcc : caller env confirm = Some uid).
  { apply caller_Some_iff. repeat split; trivial. cbn.
    unfold Client.authorization_header. now rewrite Htok. }
  assert (Hlen : List.length results = List.length created).
  { rewrite (combine_results_length ps _ _ _ Hrs). unfold created.
    now rewrite insert_rows_length, length_map. }
  assert (Hsc : confirmUploadSchema env (Client.confirm_body updates)
                = Some updates).
  { unfold confirmUploadSchema, Client.confirm_body.
    change (Zod.lookup "updates" [("updates", ?a)]) with (Some a).
    cbv iota.
    pose proof (presignRequestSchema_batch env b images Hs) as [H1 H2].
    assert (Hl : List.length updates = List.length images).
    { unfold updates. rewrite length_map, Hlen. unfold created.
      rewrite insert_rows_length, length_map.
      symmetry. eapply Forall2_length; exact Hps. }
    apply array_1_max_encode.
    - now rewrite Hl.
    - rewrite Hl. exact H2.
    - intros u Hu. apply confirmUpdateSchema_encode.
      unfold updates in Hu. apply in_map_iff in Hu as (r & <- & Hr).
      rewrite Forall_forall in Huuid. now apply Huuid. }
  destruct (ids_of_all_completed results) as [Hcs Hfs].
  fold updates in Hcs, Hfs.
  assert (Hrow : forall r, In r results ->
             exists row, In row t1 /\ Db.id row = res_imageId r
                         /\ Db.fileUrl row = res_publicFileUrl r
                         /\ Db.userId row = uid).
  { intros r Hr.
    destruct (presign_result_row env w request t results t1 r Hok Hr)
      as (row & H1 & H2 & H3 & H4).
    rewrite presign_caller_eq, Hc in H4. exists row. repeat split; congruence. }
  split.
  - rewrite (Confirm_POST_count env w' confirm t1 uid _ updates Hcc eq_refl Hsc).
    f_equal. rewrite Hcs, Hfs, Ht. unfold matched.
    rewrite (filter_none (confirm_hit [] uid)) by reflexivity.
    rewrite filter_app, length_app, Nat.add_0_r.
    assert (Hids : map res_imageId results = map Db.id created).
    { apply nth_error_ext. intros k. rewrite !nth_error_map.
      destruct (nth_error ps k) as [p|] eqn:Hp.
      - destruct (combine_results_nth ps [] _ results k p Hrs Hp)
          as (row & Hrow' & Hr'). fold created in Hrow'.
        now rewrite Hrow', Hr'.
      - apply nth_error_None in Hp.
        rewrite (proj2 (nth_error_None results k)),
          (proj2 (nth_error_None created k)); [reflexivity| |].
        + unfold created. now rewrite insert_rows_length, length_map.
        + now rewrite (combine_results_length ps _ _ _ Hrs). }
    rewrite filter_none.
    + cbn [List.length Nat.add]. rewrite Hlen. f_equal.
      clear - Hids created. rewrite Hids.
      assert (Hall : forall x, In x created ->
                 confirm_hit (map Db.id created) uid x = true).
      { intros x Hx. apply confirm_hit_true; [now apply in_map|].
        now apply (insert_rows_owner w uid ps 0). }
      revert Hall. generalize (confirm_hit (map Db.id created) uid).
      generalize created. clear.
      induction created as [|x l IH]; intros h Hall; cbn; [reflexivity|].
      rewrite (Hall x) by (left; reflexivity).
      f_equal. apply IH. intros y Hy. apply Hall. right. exact Hy.
    + intros x Hx. apply confirm_hit_false. left. rewrite Hids.
      intros Hin. apply in_map_iff in Hin as (row & E & Hrow').
      apply (pk_admits_fresh t created row Hpk Hrow').
      rewrite E. now apply in_map.
  - intros r Hr. destruct (Hrow r Hr) as (row & Hin & Hid & Hurl & Ho).
    exists (Db.getCompletedImagesByUserId uid
              (snd (Confirm.POST env w' confirm t1))).
    exists (Db.select_completed (Db.set_status Db.completed (now w') row)).
    split; [unfold Files.GET; now rewrite Hcc|].
    split; [|cbn; auto].
    apply getCompletedImagesByUserId_In.
    exists (Db.set_status Db.completed (now w') row).
    repeat split; trivial.
    rewrite (Confirm_POST_rows env w' confirm t1 uid _ updates Hcc eq_refl Hsc).
    apply in_map_iff. exists row. split; [|exact Hin].
    rewrite confirm_row_cases, Hfs, Hcs.
    rewrite (confirm_hit_false [] uid row) by (left; intros []).
    rewrite confirm_hit_true; [reflexivity| |exact Ho].
    rewrite Hid. now apply in_map.
Qed.

(** A concrete instance: the sample image presigned and confirmed. *)
Lemma presign_confirm_list_witness :
  fst (Confirm.POST Sample.env Sample.world
         (Client.send Sample.env
            (Client.confirm_body
               [{| imageId := Sample.r1; u_status := confirm_completed |}]))
         (snd (Presign.POST Sample.env Sample.world
                 (Sample.presign [Sample.image Sample.f1]) [])))
  = ConfirmOk 1.
Proof.
  refine (proj1 (presign_confirm_list Sample.env Sample.world Sample.world
                   (Sample.presign [Sample.image Sample.f1]) [] _ _
                   eq_refl _)).
  repeat constructor.
Defined.

Lemma Presign_POST_appends env w request t :
  snd (Presign.POST env w request t) = t
  \/ exists uid ps,
      snd (Presign.POST env w request t)
      = (t ++ Db.insert_rows w 0 (map (Presign.image_data uid) ps))%list.
Proof.
  unfold Presign.POST.
  destruct (presign_caller env request) as [uid|]; [|left; reflexivity].
  destruct (body request) as [b|]; [|left; reflexivity].
  destruct (presignRequestSchema env b) as [images|]; [|left; reflexivity].
  destruct (Presign.promise_all _ images) as [ps|]; [|left; reflexivity].
  unfold Db.createImageRecordsBatch.
  destruct (insert_refused w || _)%bool; [left; reflexivity|].
  right. exists uid, ps.
  destruct (Presign.combine_results 0 ps _); reflexivity.
Qed.

(** X26. A presign request adds nothing to any listing: the rows it creates
    are pending, so a GET lists after it exactly what it listed before,
    for every caller. *)
Theorem presign_lists_nothing_new env w request t uid :
  Db.getCompletedImagesByUserId uid (snd (Presign.POST env w request t))
  = Db.getCompletedImagesByUserId uid t.
Proof.
  destruct (Presign_POST_appends env w request t) as [->|(u & ps & ->)];
    [reflexivity|].
  unfold Db.getCompletedImagesByUserId. rewrite filter_app.
  rewrite (filter_none _ (Db.insert_rows _ _ _)); [now rewrite app_nil_r|].
  intros row Hrow.
  pose proof (insert_rows_pending w 0 (map (Presign.image_data u) ps)) as H.
  rewrite Forall_forall in H. destruct (H row Hrow) as [Hp _].
  rewrite Hp. cbn. apply andb_false_r.
Qed.

(* ================================================================== *)
(** * The handlers on parameters as spelled *)

(** ** Reading a uuid *)

Lemma hex_not_dash c : Zod.is_hex c = true -> Ascii.eqb c "-" = false.
Proof.
  intros H. destruct (Ascii.eqb_spec c "-") as [->|];
    [discriminate H|reflexivity].
Qed.

Lemma hex_not_brace c : Zod.is_hex c = true -> Ascii.eqb c "{" = false.
Proof.
  intros H. destruct (Ascii.eqb_spec c "{") as [->|];
    [discriminate H|reflexivity].
Qed.

Lemma take_hex_cons n s r :
  Zod.take_hex (S n) s = Some r ->
  exists c s', s = String c s' /\ Zod.is_hex c = true
               /\ Zod.take_hex n s' = Some r.
Proof.
  cbn. destruct s as [|c s']; [discriminate|].
  destruct (Zod.is_hex c) eqn:E; [|discriminate]. eauto.
Qed.

Lemma read_bytes_pair n i a b rest :
  Zod.is_hex a = true -> Zod.is_hex b = true ->
  Pg.read_bytes (S n) i (String a (String b rest))
  = match Pg.read_bytes n (S i) (Pg.skip_dash i rest) with
    | Some (out, final) =>
        Some (String (Pg.out_digit a)
                (String (Pg.out_digit b) (Pg.dash_after i ++ out)), final)
    | None => None
    end.
Proof.
  intros Ha Hb. cbn [Pg.read_bytes].
  change Pg.isxdigit with Zod.is_hex. now rewrite Ha, Hb.
Qed.

Lemma skip_dash_hex i c rest :
  Zod.is_hex c = true -> Pg.skip_dash i (String c rest) = String c rest.
Proof. intros H. cbn. now rewrite (hex_not_dash c H). Qed.

(** An id the request schemas accept is a uuid for the database as well,
    and the database reads it as the same text in lower case. *)
Lemma uuid_in_zod s : Zod.uuid s = true -> Pg.uuid_in s = Some (Pg.lower s).
Proof.
  unfold Zod.uuid.
  destruct (Zod.take_hex 8 s) as [s1|] eqn:H1; cbn [Zod.andThen];
    [|discriminate].
  destruct (Zod.take_dash s1) as [s2|] eqn:D1; cbn [Zod.andThen];
    [|discriminate].
  destruct (Zod.take_hex 4 s2) as [s3|] eqn:H2; cbn [Zod.andThen];
    [|discriminate].
  destruct (Zod.take_dash s3) as [s4|] eqn:D2; cbn [Zod.andThen];
    [|discriminate].
  destruct (Zod.take_hex 4 s4) as [s5|] eqn:H3; cbn [Zod.andThen];
    [|discriminate].
  destruct (Zod.take_dash s5) as [s6|] eqn:D3; cbn [Zod.andThen];
    [|discriminate].
  destruct (Zod.take_hex 4 s6) as [s7|] eqn:H4; cbn [Zod.andThen];
    [|discriminate].
  destruct (Zod.take_dash s7) as [s8|] eqn:D4; cbn [Zod.andThen];
    [|discriminate].
  destruct (Zod.take_hex 12 s8) as [[|]|] eqn:H5; try discriminate.
  intros _.
  apply take_dash_inv in D1, D2, D3, D4. cbn in D1, D2, D3, D4.
  subst s1 s3 s5 s7.
  repeat match goal with
  | H : Zod.take_hex (S _) _ = Some _ |- _ =>
      let c := fresh "c" in let s := fresh "s" in let Hc := fresh "Hc" in
      apply take_hex_cons in H as (c & s & -> & Hc & H)
  | H : Zod.take_hex O _ = Some _ |- _ => cbn in H; injection H as ->
  end.
  unfold Pg.uuid_in.
  match goal with
  | |- context [Ascii.eqb ?c "{"] => rewrite (hex_not_brace c) by assumption
  end.
  repeat (rewrite read_bytes_pair by assumption;
          first [rewrite skip_dash_hex by assumption
                |cbn [Pg.skip_dash Ascii.eqb Bool.eqb andb Nat.odd Nat.even
                      negb Nat.ltb Nat.leb]]).
  reflexivity.
Qed.

Lemma out_digit_idem c : Pg.out_digit (Pg.out_digit c) = Pg.out_digit c.
Proof. destruct c as [[] [] [] [] [] [] [] []]; reflexivity. Qed.

Lemma lower_idem s : Pg.lower (Pg.lower s) = Pg.lower s.
Proof.
  induction s as [|c s IH]; cbn; [reflexivity|].
  now rewrite out_digit_idem, IH.
Qed.

Lemma uuid_in_all_zod ids :
  Forall (fun i => Zod.uuid i = true) ids ->
  Pg.uuid_in_all ids = Some (map Pg.lower ids).
Proof.
  induction 1 as [|i ids Hi _ IH]; cbn; [reflexivity|].
  now rewrite (uuid_in_zod i Hi), IH.
Qed.

Lemma Forall2_schema_uuid {A} (elem : Json -> option A) (key : A -> string)
    l l' :
  (forall j a, elem j = Some a -> Zod.uuid (key a) = true) ->
  Forall2 (fun j a => elem j = Some a) l l' ->
  Forall (fun a => Zod.uuid (key a) = true) l'.
Proof.
  intros Hk H. induction H as [|j a l l' Hj _ IH]; constructor; eauto.
Qed.

Lemma confirmUploadSchema_uuid env b updates :
  confirmUploadSchema env b = Some updates ->
  Forall (fun u => Zod.uuid (imageId u) = true) updates /\ updates <> [].
Proof.
  unfold confirmUploadSchema. destruct b; try discriminate.
  destruct (Zod.lookup "updates" fields) as [a|]; [|discriminate].
  intros H. split.
  - apply array_1_max_Forall2 in H as (l & _ & H).
    apply (Forall2_schema_uuid confirmUpdateSchema imageId l); [|exact H].
    apply confirmUpdateSchema_inv.
  - apply array_1_max_inv in H as (l & _ & _ & Hlen & _).
    intros ->. cbn in Hlen. lia.
Qed.

Lemma deleteImagesSchema_uuid env b imageIds :
  deleteImagesSchema env b = Some imageIds ->
  Forall (fun i => Zod.uuid i = true) imageIds.
Proof.
  unfold deleteImagesSchema. destruct b; try discriminate.
  destruct (Zod.lookup "imageIds" fields) as [a|]; [|discriminate].
  intros H. apply array_1_max_Forall2 in H as (l & _ & H).
  apply (Forall2_schema_uuid uuidStringSchema (fun i => i) l); [|exact H].
  intros j i. unfold uuidStringSchema. destruct j; try discriminate.
  destruct (Zod.uuid s) eqn:E; [|discriminate]. now intros [= <-].
Qed.

Lemma ids_of_lower s updates :
  ids_of s (map lower_update updates) = map Pg.lower (ids_of s updates).
Proof.
  unfold ids_of. rewrite filter_map_comm, !map_map. reflexivity.
Qed.

Lemma ids_of_uuid s updates :
  Forall (fun u => Zod.uuid (imageId u) = true) updates ->
  Forall (fun i => Zod.uuid i = true) (ids_of s updates).
Proof.
  intros H. apply Forall_forall. intros i Hi.
  apply ids_of_In in Hi. rewrite Forall_forall in H.
  apply (H _ Hi).
Qed.

(** An id is listed under an outcome, as the database reads it, when it
    is the lower-case spelling of an id the request lists there. *)
Lemma listed_In s updates c :
  Forall (fun u => Zod.uuid (imageId u) = true) updates ->
  listed s updates c <-> In c (ids_of s (map lower_update updates)).
Proof.
  intros Hz. rewrite ids_of_lower, in_map_iff. rewrite Forall_forall in Hz.
  split.
  - intros (i & Hi & Hr). exists i. split; [|now apply ids_of_In].
    pose proof (uuid_in_zod i (Hz _ Hi)) as E. cbn in E. congruence.
  - intros (i & <- & Hi). apply ids_of_In in Hi. exists i.
    split; [exact Hi|]. apply (uuid_in_zod i (Hz _ Hi)).
Qed.

(** ** Confirm *)

Lemma group_ids_extend l : group_ids (extend None l) = l.
Proof. now destruct l. Qed.

Lemma Pg_updateImageStatusBatch_run w ids s uid u t :
  Forall (fun i => Zod.uuid i = true) ids ->
  Pg.uuid_in uid = Some u ->
  Pg.updateImageStatusBatch w ids s uid t
  = Some (Db.updateImageStatusBatch w (map Pg.lower ids) s u t).
Proof.
  intros Hz Hu. unfold Pg.updateImageStatusBatch.
  now rewrite (uuid_in_all_zod ids Hz), Hu.
Qed.

Lemma Pg_updateImageStatusBatch_throws w ids s uid t :
  Pg.uuid_in uid = None -> Pg.updateImageStatusBatch w ids s uid t = None.
Proof.
  intros Hu. unfold Pg.updateImageStatusBatch. rewrite Hu.
  now destruct (Pg.uuid_in_all ids).
Qed.

Lemma ConfirmPg_process_extend w ids s uid u t :
  Forall (fun i => Zod.uuid i = true) ids ->
  Pg.uuid_in uid = Some u ->
  ConfirmPg.process w (extend None ids) s uid t
  = Some (Db.updateImageStatusBatch w (map Pg.lower ids) s u t).
Proof.
  intros Hz Hu. destruct ids as [|i ids].
  - cbn [extend ConfirmPg.process map]. f_equal.
    unfold Db.updateImageStatusBatch.
    symmetry. apply update_returning_miss. reflexivity.
  - cbn [extend ConfirmPg.process app].
    now apply Pg_updateImageStatusBatch_run.
Qed.

(** What the confirm handler does once the request passed the guard and
    the schema and the token reads as a uuid: the completed group, then
    the failed group, on the ids in lower case. *)
Lemma ConfirmPg_POST_run env w request t uid u b updates :
  caller env request = Some uid ->
  body request = Some b ->
  confirmUploadSchema env b = Some updates ->
  Pg.uuid_in uid = Some u ->
  ConfirmPg.POST env w request t
  = let c := Db.updateImageStatusBatch w
               (ids_of confirm_completed (map lower_update updates))
               confirm_completed u t in
    let f := Db.updateImageStatusBatch w
               (ids_of confirm_failed (map lower_update updates))
               confirm_failed u (snd c) in
    (ConfirmOk (List.length (fst c ++ fst f)), snd f).
Proof.
  intros Hc Hb Hs Hu. unfold ConfirmPg.POST. rewrite Hc, Hb, Hs.
  destruct (confirmUploadSchema_uuid env b updates Hs) as [Hz _].
  destruct (groupedUpdates_spec updates) as [-> ->].
  rewrite (ConfirmPg_process_extend w _ _ uid u t
             (ids_of_uuid confirm_completed updates Hz) Hu).
  rewrite !ids_of_lower.
  destruct (Db.updateImageStatusBatch w
              (map Pg.lower (ids_of confirm_completed updates)) _ _ _)
    as [c t1]. cbn [snd fst].
  rewrite (ConfirmPg_process_extend w _ _ uid u t1
             (ids_of_uuid confirm_failed updates Hz) Hu).
  destruct (Db.updateImageStatusBatch w
              (map Pg.lower (ids_of confirm_failed updates)) _ _ _)
    as [f t2]. reflexivity.
Qed.

(** With a token that is no uuid the first statement the handler issues
    throws. *)
Lemma ConfirmPg_POST_throws env w request t uid b updates :
  caller env request = Some uid ->
  body request = Some b ->
  confirmUploadSchema env b = Some updates ->
  Pg.uuid_in uid = None ->
  ConfirmPg.POST env w request t = (InternalError, t).
Proof.
  intros Hc Hb Hs Hu. unfold ConfirmPg.POST. rewrite Hc, Hb, Hs.
  destruct (confirmUploadSchema_uuid env b updates Hs) as [_ Hne].
  destruct (groupedUpdates_spec updates) as [-> ->].
  pose proof (ids_of_split updates) as Hsplit.
  destruct (ids_of confirm_completed updates) as [|i l].
  - cbn [extend ConfirmPg.process].
    destruct (ids_of confirm_failed updates) as [|j l'].
    + destruct updates; [contradiction|discriminate].
    + cbn [extend ConfirmPg.process app].
      now rewrite Pg_updateImageStatusBatch_throws.
  - cbn [extend ConfirmPg.process app].
    now rewrite Pg_updateImageStatusBatch_throws.
Qed.

Lemma ConfirmPg_POST_rows env w request t uid u b updates :
  caller env request = Some uid ->
  body request = Some b ->
  confirmUploadSchema env b = Some updates ->
  Pg.uuid_in uid = Some u ->
  snd (ConfirmPg.POST env w request t)
  = map (confirm_row w u (map lower_update updates)) t.
Proof.
  intros Hc Hb Hs Hu.
  rewrite (ConfirmPg_POST_run env w request t uid u b updates Hc Hb Hs Hu).
  cbn [snd]. rewrite !updateImageStatusBatch_rows, map_map. reflexivity.
Qed.

Lemma ConfirmPg_POST_count env w request t uid u b updates :
  caller env request = Some uid ->
  body request = Some b ->
  confirmUploadSchema env b = Some updates ->
  Pg.uuid_in uid = Some u ->
  fst (ConfirmPg.POST env w request t)
  = ConfirmOk
      (matched (ids_of confirm_completed (map lower_update updates)) u t
       + matched (ids_of confirm_failed (map lower_update updates)) u t).
Proof.
  intros Hc Hb Hs Hu.
  rewrite (ConfirmPg_POST_run env w request t uid u b updates Hc Hb Hs Hu).
  cbn [fst]. f_equal. rewrite length_app.
  unfold Db.updateImageStatusBatch at 1 2.
  rewrite !update_returning_count, updateImageStatusBatch_rows.
  fold (confirm_hit (ids_of confirm_completed (map lower_update updates)) u).
  fold (confirm_hit (ids_of confirm_failed (map lower_update updates)) u).
  fold (matched (ids_of confirm_completed (map lower_update updates)) u t).
  f_equal.
  apply (matched_map (ids_of confirm_failed (map lower_update updates)) u).
  intros r. apply confirm_hit_batch_row.
Qed.

(** On a token and ids in the spelling the database prints, the handler
    is the one of module [Confirm]. *)
Lemma ConfirmPg_POST_canonical env w request t :
  (forall uid, caller env request = Some uid -> Pg.uuid_in uid = Some uid) ->
  (forall b updates,
      body request = Some b -> confirmUploadSchema env b = Some updates ->
      map lower_update updates = updates) ->
  ConfirmPg.POST env w request t = Confirm.POST env w request t.
Proof.
  intros Hu Hl.
  destruct (caller env request) as [uid|] eqn:Hc;
    [|unfold ConfirmPg.POST, Confirm.POST; now rewrite Hc].
  destruct (body request) as [b|] eqn:Hb;
    [|unfold ConfirmPg.POST, Confirm.POST; now rewrite Hc, Hb].
  destruct (confirmUploadSchema env b) as [updates|] eqn:Hs;
    [|unfold ConfirmPg.POST, Confirm.POST; now rewrite Hc, Hb, Hs].
  rewrite (ConfirmPg_POST_run env w request t uid uid b updates Hc Hb Hs
             (Hu uid eq_refl)).
  rewrite (Confirm_POST_run env w request t uid b updates Hc Hb Hs).
  now rewrite (Hl b updates eq_refl Hs).
Qed.

(** Under a token that is no uuid a confirm request that passes the guard
    and the schema is answered 500, and so is a delete request. *)
Example plain_token_confirm :
  ConfirmPg.POST Sample.env_plain_token Sample.world
    (Sample.plain_request
       (JObj [("updates", JArr [Sample.update Sample.r1 "completed"])]))
    [Sample.row Sample.r1 Sample.alice Db.pending]
  = (InternalError, [Sample.row Sample.r1 Sample.alice Db.pending]).
Proof. vm_compute. reflexivity. Qed.

Example plain_token_delete :
  FilesPg.DELETE Sample.env_plain_token Sample.world
    (Sample.plain_request (JObj [("imageIds", JArr [JStr Sample.r1])]))
    [Sample.row Sample.r1 Sample.alice Db.completed]
  = (InternalError, [Sample.row Sample.r1 Sample.alice Db.completed]).
Proof. vm_compute. reflexivity. Qed.

(** C3, as the code has it.  The batch update of a confirm request selects
    rows by id and owner only, ids and owner compared as uuids: a row of
    the caller whose id the request lists, in any spelling, takes the
    requested status whatever its current status is (the failed group wins
    when the id is listed under both outcomes), with the time of the
    request as completion time; only rows that are not listed or not owned
    by the caller stay as they are.  With a token that is no uuid the
    update throws and the answer is 500. *)
Theorem confirm_ignores_current_status env w request t uid b updates :
  caller env request = Some uid ->
  body request = Some b ->
  confirmUploadSchema env b = Some updates ->
  (Pg.uuid_in uid = None ->
   ConfirmPg.POST env w request t = (InternalError, t))
  /\ (forall u i r,
         Pg.uuid_in uid = Some u ->
         nth_error t i = Some r ->
         exists r',
           nth_error (snd (ConfirmPg.POST env w request t)) i = Some r'
           /\ same_identity r r'
           /\ (Db.userId r = u ->
               listed confirm_failed updates (Db.id r) ->
               Db.status r' = Db.failed
               /\ Db.completedAt r' = Some (now w))
           /\ (Db.userId r = u ->
               listed confirm_completed updates (Db.id r) ->
               ~ listed confirm_failed updates (Db.id r) ->
               Db.status r' = Db.completed
               /\ Db.completedAt r' = Some (now w))
           /\ (Db.userId r <> u
               \/ (forall s, ~ listed s updates (Db.id r)) ->
               r' = r)).
Proof.
  intros Hc Hb Hs. split.
  - now apply (ConfirmPg_POST_throws env w request t uid b updates).
  - intros u i r Hu Hn.
    destruct (confirmUploadSchema_uuid env b updates Hs) as [Hz _].
    exists (confirm_row w u (map lower_update updates) r).
    rewrite (ConfirmPg_POST_rows env w request t uid u b updates Hc Hb Hs Hu).
    rewrite nth_error_map, Hn. split; [reflexivity|].
    split; [apply confirm_row_identity|].
    rewrite confirm_row_cases. repeat split.
    + rewrite confirm_hit_true;
        [reflexivity|now apply listed_In|assumption].
    + rewrite confirm_hit_true;
        [reflexivity|now apply listed_In|assumption].
    + rewrite (confirm_hit_false
                 (ids_of confirm_failed (map lower_update updates)) u r)
        by (left; now rewrite <- listed_In).
      rewrite confirm_hit_true;
        [reflexivity|now apply listed_In|assumption].
    + rewrite (confirm_hit_false
                 (ids_of confirm_failed (map lower_update updates)) u r)
        by (left; now rewrite <- listed_In).
      rewrite confirm_hit_true;
        [reflexivity|now apply listed_In|assumption].
    + intros H.
      assert (Hmiss : forall s,
                 confirm_hit (ids_of s (map lower_update updates)) u r
                 = false).
      { intros s. apply confirm_hit_false.
        destruct H as [H|H]; [right; exact H|left].
        rewrite <- listed_In by exact Hz. apply H. }
      now rewrite !Hmiss.
Qed.

(** C3 fails on the code: a record that is already [completed] and is
    listed as failed by its owner is matched, counted and moved to
    [failed]. *)
Lemma confirm_moves_completed_record :
  fst (ConfirmPg.POST Sample.env Sample.world
         (Sample.confirm [Sample.update Sample.r1 "failed"])
         [Sample.row Sample.r1 Sample.alice Db.completed])
  = ConfirmOk 1
  /\ map Db.status
       (snd (ConfirmPg.POST Sample.env Sample.world
               (Sample.confirm [Sample.update Sample.r1 "failed"])
               [Sample.row Sample.r1 Sample.alice Db.completed]))
     = [Db.failed].
Proof. split; vm_compute; reflexivity. Qed.

(** A concrete instance: a completed record listed as failed, its id
    spelled in upper case. *)
Lemma confirm_ignores_current_status_witness :
  exists r',
    nth_error
      (snd (ConfirmPg.POST Sample.env Sample.world
              (Sample.confirm [Sample.update Sample.RA "failed"])
              [Sample.row Sample.ra Sample.alice Db.completed])) 0
    = Some r'
    /\ Db.status r' = Db.failed
    /\ Db.completedAt r' = Some (now Sample.world).
Proof.
  destruct (proj2 (confirm_ignores_current_status Sample.env Sample.world
                     (Sample.confirm [Sample.update Sample.RA "failed"])
                     [Sample.row Sample.ra Sample.alice Db.completed]
                     Sample.alice
                     (JObj [("updates",
                             JArr [Sample.update Sample.RA "failed"])])
                     [{| imageId := Sample.RA; u_status := confirm_failed |}]
                     eq_refl eq_refl eq_refl)
              Sample.alice 0%nat
              (Sample.row Sample.ra Sample.alice Db.completed)
              eq_refl eq_refl)
    as (r' & Hn & _ & Hf & _).
  exists r'. split; [exact Hn|]. apply Hf; [reflexivity|].
  exists Sample.RA. split; [left; reflexivity|reflexivity].
Defined.

(** C9. When one confirm request lists the id of a record of the caller
    under both outcomes, the completed batch runs first and matches it, the
    failed batch runs second on the table the first left and matches it
    again: the record occurs twice among the updated rows that
    [updatedCount] counts, first as completed and then as failed, and it
    ends up [failed]. *)
Theorem confirm_both_outcomes env w request t uid u b updates k r :
  caller env request = Some uid ->
  body request = Some b ->
  confirmUploadSchema env b = Some updates ->
  Pg.uuid_in uid = Some u ->
  NoDup (map Db.id t) ->
  nth_error t k = Some r ->
  Db.userId r = u ->
  listed confirm_completed updates (Db.id r) ->
  listed confirm_failed updates (Db.id r) ->
  exists completedImages t1 failedImages t2,
    Pg.updateImageStatusBatch w
      (group_ids (Confirm.g_completed (Confirm.groupedUpdates updates)))
      confirm_completed uid t = Some (completedImages, t1)
    /\ Pg.updateImageStatusBatch w
         (group_ids (Confirm.g_failed (Confirm.groupedUpdates updates)))
         confirm_failed uid t1 = Some (failedImages, t2)
    /\ ConfirmPg.POST env w request t
       = (ConfirmOk (List.length (completedImages ++ failedImages)), t2)
    /\ map Db.status
         (filter (fun x => (Db.id x =? Db.id r)%string) completedImages)
       = [Db.completed]
    /\ map Db.status
         (filter (fun x => (Db.id x =? Db.id r)%string) failedImages)
       = [Db.failed]
    /\ exists r',
        nth_error t2 k = Some r'
        /\ Db.status r' = Db.failed
        /\ Db.completedAt r' = Some (now w)
        /\ same_identity r r'.
Proof.
  intros Hc Hb Hs Hu Hnd Hn Ho Hcm Hfl.
  destruct (confirmUploadSchema_uuid env b updates Hs) as [Hz _].
  assert (Hin : In r t) by (eapply nth_error_In; exact Hn).
  set (upd := map lower_update updates).
  assert (Hhc : confirm_hit (ids_of confirm_completed upd) u r = true)
    by (apply confirm_hit_true; [now apply listed_In|exact Ho]).
  assert (Hhf : confirm_hit (ids_of confirm_failed upd) u r = true)
    by (apply confirm_hit_true; [now apply listed_In|exact Ho]).
  set (c := Db.updateImageStatusBatch w (ids_of confirm_completed upd)
              confirm_completed u t).
  set (f := Db.updateImageStatusBatch w (ids_of confirm_failed upd)
              confirm_failed u (snd c)).
  exists (fst c), (snd c), (fst f), (snd f).
  destruct (groupedUpdates_spec updates) as [-> ->].
  rewrite !group_ids_extend.
  split; [|split; [|split; [|split; [|split]]]].
  - rewrite (Pg_updateImageStatusBatch_run w _ confirm_completed uid u t
               (ids_of_uuid confirm_completed updates Hz) Hu).
    rewrite <- ids_of_lower. fold upd. fold c. now destruct c.
  - rewrite (Pg_updateImageStatusBatch_run w _ confirm_failed uid u (snd c)
               (ids_of_uuid confirm_failed updates Hz) Hu).
    rewrite <- ids_of_lower. fold upd. fold f. now destruct f.
  - apply (ConfirmPg_POST_run env w request t uid u b updates Hc Hb Hs Hu).
  - subst c. unfold Db.updateImageStatusBatch.
    cbn [Db.update_returning fst].
    fold (confirm_hit (ids_of confirm_completed upd) u).
    rewrite filter_id_set, filter_comm, (filter_id_unique t r Hnd Hin).
    cbn [filter map]. rewrite Hhc. reflexivity.
  - subst f c.
    rewrite (updateImageStatusBatch_rows w _ confirm_completed u t).
    unfold Db.updateImageStatusBatch. cbn [Db.update_returning fst].
    fold (confirm_hit (ids_of confirm_failed upd) u).
    rewrite filter_id_set, filter_comm, filter_id_batch_row,
      (filter_id_unique t r Hnd Hin).
    cbn [filter map]. rewrite confirm_hit_batch_row, Hhf. reflexivity.
  - exists (confirm_row w u upd r). subst f c.
    rewrite !updateImageStatusBatch_rows, map_map.
    fold (confirm_row w u upd). rewrite nth_error_map, Hn.
    split; [reflexivity|].
    rewrite confirm_row_cases, Hhf.
    repeat split.
Qed.

(** A concrete instance: one pending record of the caller listed as
    completed and, in upper case, as failed, next to a record of someone
    else. *)
Lemma confirm_both_outcomes_witness :
  exists completedImages t1 failedImages t2,
    ConfirmPg.POST Sample.env Sample.world
      (Sample.confirm [Sample.update Sample.ra "completed";
                       Sample.update Sample.RA "failed"])
      [Sample.row Sample.ra Sample.alice Db.pending;
       Sample.row Sample.r2 Sample.bob Db.pending]
    = (ConfirmOk (List.length (completedImages ++ failedImages)), t2)
    /\ map Db.status
         (filter (fun x => (Db.id x =? Sample.ra)%string) completedImages)
       = [Db.completed]
    /\ map Db.status
         (filter (fun x => (Db.id x =? Sample.ra)%string) failedImages)
       = [Db.failed]
    /\ Pg.updateImageStatusBatch Sample.world [Sample.RA] confirm_failed
         Sample.alice t1 = Some (failedImages, t2).
Proof.
  destruct (confirm_both_outcomes Sample.env Sample.world
              (Sample.confirm [Sample.update Sample.ra "completed";
                               Sample.update Sample.RA "failed"])
              [Sample.row Sample.ra Sample.alice Db.pending;
               Sample.row Sample.r2 Sample.bob Db.pending]
              Sample.alice Sample.alice
              (JObj [("updates",
                      JArr [Sample.update Sample.ra "completed";
                            Sample.update Sample.RA "failed"])])
              [{| imageId := Sample.ra; u_status := confirm_completed |};
               {| imageId := Sample.RA; u_status := confirm_failed |}]
              0%nat (Sample.row Sample.ra Sample.alice Db.pending)
              eq_refl eq_refl eq_refl eq_refl)
    as (c & t1 & f & t2 & _ & Hf & Hrun & Hsc & Hsf & _).
  - repeat constructor; cbn; intuition discriminate.
  - reflexivity.
  - reflexivity.
  - exists Sample.ra. split; [left; reflexivity|reflexivity].
  - exists Sample.RA. split; [right; left; reflexivity|reflexivity].
  - exists c, t1, f, t2. repeat split; assumption.
Defined.

(** ** Counting in confirm *)

(** X11. Grouping a confirm request by outcome loses no update and adds
    none: the two groups of [groupedUpdates] hold exactly the ids the
    request lists under each outcome, as many as there are updates.  With
    ids unique in the table each update accounts for at most one updated
    row: the answer is 500 when the token is no uuid, and otherwise a 200
    whose [updatedCount] does not exceed the number of updates sent. *)
Theorem confirm_count_bounded env w request t uid b updates :
  caller env request = Some uid ->
  body request = Some b ->
  confirmUploadSchema env b = Some updates ->
  NoDup (map Db.id t) ->
  (forall i,
      (In i (group_ids (Confirm.g_completed (Confirm.groupedUpdates updates)))
       <-> In {| imageId := i; u_status := confirm_completed |} updates)
      /\ (In i (group_ids (Confirm.g_failed (Confirm.groupedUpdates updates)))
          <-> In {| imageId := i; u_status := confirm_failed |} updates))
  /\ (List.length
        (group_ids (Confirm.g_completed (Confirm.groupedUpdates updates)))
      + List.length
          (group_ids (Confirm.g_failed (Confirm.groupedUpdates updates))))%nat
     = List.length updates
  /\ ((Pg.uuid_in uid = None
       /\ fst (ConfirmPg.POST env w request t) = InternalError)
      \/ exists n,
          fst (ConfirmPg.POST env w request t) = ConfirmOk n
          /\ (n <= List.length updates)%nat).
Proof.
  intros Hc Hb Hs Hnd.
  destruct (groupedUpdates_spec updates) as [-> ->].
  rewrite !group_ids_extend. split; [|split].
  - intros i. split; apply ids_of_In.
  - apply ids_of_split.
  - destruct (Pg.uuid_in uid) as [u|] eqn:Hu.
    + right.
      rewrite (ConfirmPg_POST_count env w request t uid u b updates
                 Hc Hb Hs Hu).
      eexists. split; [reflexivity|].
      rewrite <- (ids_of_split updates).
      apply Nat.add_le_mono.
      * etransitivity; [now apply matched_le|].
        now rewrite ids_of_lower, length_map.
      * etransitivity; [now apply matched_le|].
        now rewrite ids_of_lower, length_map.
    + left. split; [reflexivity|].
      now rewrite (ConfirmPg_POST_throws env w request t uid b updates).
Qed.

(** A concrete instance: two updates, one of them for a record of someone
    else. *)
Lemma confirm_count_bounded_witness :
  (Pg.uuid_in Sample.alice = None
   /\ fst (ConfirmPg.POST Sample.env Sample.world
             (Sample.confirm [Sample.update Sample.r1 "completed";
                              Sample.update Sample.r2 "failed"])
             [Sample.row Sample.r1 Sample.alice Db.pending;
              Sample.row Sample.r2 Sample.bob Db.pending])
      = InternalError)
  \/ exists n,
      fst (ConfirmPg.POST Sample.env Sample.world
             (Sample.confirm [Sample.update Sample.r1 "completed";
                              Sample.update Sample.r2 "failed"])
             [Sample.row Sample.r1 Sample.alice Db.pending;
              Sample.row Sample.r2 Sample.bob Db.pending])
      = ConfirmOk n
      /\ (n <= 2)%nat.
Proof.
  refine (proj2 (proj2
            (confirm_count_bounded Sample.env Sample.world
               (Sample.confirm [Sample.update Sample.r1 "completed";
                                Sample.update Sample.r2 "failed"])
               [Sample.row Sample.r1 Sample.alice Db.pending;
                Sample.row Sample.r2 Sample.bob Db.pending]
               Sample.alice
               (JObj [("updates",
                       JArr [Sample.update Sample.r1 "completed";
                             Sample.update Sample.r2 "failed"])])
               [{| imageId := Sample.r1; u_status := confirm_completed |};
                {| imageId := Sample.r2; u_status := confirm_failed |}]
               eq_refl eq_refl eq_refl _))).
  repeat constructor; cbn; intuition discriminate.
Defined.

(** X27. A confirm request none of whose ids, read as uuids, names a row
    of the caller is still answered 200 when the token is a uuid: it
    reports zero updated rows and leaves the table as it was. *)
Theorem confirm_of_unknown_ids_is_silent env w request t uid u b updates :
  caller env request = Some uid ->
  body request = Some b ->
  confirmUploadSchema env b = Some updates ->
  Pg.uuid_in uid = Some u ->
  (forall r s, In r t -> Db.userId r = u -> ~ listed s updates (Db.id r)) ->
  ConfirmPg.POST env w request t = (ConfirmOk 0, t).
Proof.
  intros Hc Hb Hs Hu Hnone.
  destruct (confirmUploadSchema_uuid env b updates Hs) as [Hz _].
  assert (Hmiss : forall s r, In r t ->
            confirm_hit (ids_of s (map lower_update updates)) u r = false).
  { intros s r Hr. apply confirm_hit_false.
    destruct (String.eqb_spec (Db.userId r) u) as [Ho|Ho]; [left|now right].
    rewrite <- listed_In by exact Hz. now apply Hnone. }
  rewrite (surjective_pairing (ConfirmPg.POST env w request t)).
  rewrite (ConfirmPg_POST_count env w request t uid u b updates Hc Hb Hs Hu).
  rewrite (ConfirmPg_POST_rows env w request t uid u b updates Hc Hb Hs Hu).
  unfold matched. rewrite !filter_none by (apply Hmiss).
  cbn [List.length Nat.add].
  f_equal. rewrite <- (map_id t) at 2. apply map_ext_in. intros r Hr.
  now rewrite confirm_row_cases, !Hmiss.
Qed.

(** A concrete instance: the caller confirms the id of a record of someone
    else. *)
Lemma confirm_of_unknown_ids_is_silent_witness :
  ConfirmPg.POST Sample.env Sample.world
    (Sample.confirm [Sample.update Sample.r2 "completed"])
    [Sample.row Sample.r2 Sample.bob Db.pending]
  = (ConfirmOk 0, [Sample.row Sample.r2 Sample.bob Db.pending]).
Proof.
  refine (confirm_of_unknown_ids_is_silent Sample.env Sample.world
            (Sample.confirm [Sample.update Sample.r2 "completed"])
            [Sample.row Sample.r2 Sample.bob Db.pending]
            Sample.alice Sample.alice
            (JObj [("updates", JArr [Sample.update Sample.r2 "completed"])])
            [{| imageId := Sample.r2; u_status := confirm_completed |}]
            eq_refl eq_refl eq_refl eq_refl _).
  intros r s [<-|[]] Ho. discriminate Ho.
Defined.

(** ** Listing *)

(** X1. A GET by a request that fails the guard is answered 401, and a
    GET under a token that is no uuid 500, because the select throws.
    Otherwise the answer lists exactly the rows whose owner is the uuid
    the token stands for and whose status is completed, one entry per
    row, in ascending order of creation time. *)
Theorem GET_lists_own_completed env request t :
  (caller env request = None -> FilesPg.GET env request t = inl Unauthorized)
  /\ (forall uid,
         caller env request = Some uid -> Pg.uuid_in uid = None ->
         FilesPg.GET env request t = inl InternalError)
  /\ (forall uid u,
         caller env request = Some uid -> Pg.uuid_in uid = Some u ->
         FilesPg.GET env request t
         = inr (Db.getCompletedImagesByUserId u t)
         /\ (forall c,
                In c (Db.getCompletedImagesByUserId u t)
                <-> exists r, In r t /\ Db.userId r = u
                              /\ Db.status r = Db.completed
                              /\ c = Db.select_completed r)
         /\ List.length (Db.getCompletedImagesByUserId u t)
            = List.length
                (filter (fun r => (Db.userId r =? u)%string
                                  && Db.status_eqb (Db.status r) Db.completed)
                   t)
         /\ StronglySorted
              (fun a b => Db.ci_createdAt a <= Db.ci_createdAt b)
              (Db.getCompletedImagesByUserId u t)).
Proof.
  unfold FilesPg.GET, Pg.getCompletedImagesByUserId. split; [|split].
  - now intros ->.
  - now intros uid -> ->.
  - intros uid u -> ->. split; [reflexivity|]. split; [|split].
    + intros c. apply getCompletedImagesByUserId_In.
    + unfold Db.getCompletedImagesByUserId. rewrite length_map.
      symmetry. apply Permutation_length, orderBy_createdAt_perm.
    + unfold Db.getCompletedImagesByUserId.
      apply StronglySorted_map. apply orderBy_createdAt_sorted.
Qed.

(** A concrete instance: under a token that is no uuid the listing is
    refused with 500. *)
Lemma GET_lists_own_completed_witness :
  FilesPg.GET Sample.env_plain_token (Sample.plain_request JNull)
    [Sample.row Sample.r1 Sample.alice Db.completed]
  = inl InternalError.
Proof.
  exact (proj1 (proj2 (GET_lists_own_completed Sample.env_plain_token
                         (Sample.plain_request JNull)
                         [Sample.row Sample.r1 Sample.alice Db.completed]))
           "secret" eq_refl eq_refl).
Defined.

Lemma FilesPg_GET_canonical env request t :
  (forall uid, caller env request = Some uid -> Pg.uuid_in uid = Some uid) ->
  FilesPg.GET env request t = Files.GET env request t.
Proof.
  intros Hu. unfold FilesPg.GET, Files.GET, Pg.getCompletedImagesByUserId.
  destruct (caller env request) as [uid|]; [|reflexivity].
  now rewrite (Hu uid eq_refl).
Qed.

(** X28. Confirm does not look at the status it overwrites, so it also
    brings back a deleted record: a row of the caller, whatever its status,
    that a confirm request lists as completed and not as failed is listed
    as completed by the next GET, although a delete request may have
    removed its object from storage. *)
Theorem confirm_relists_any_status env w request t uid u b updates r :
  caller env request = Some uid ->
  body request = Some b ->
  confirmUploadSchema env b = Some updates ->
  Pg.uuid_in uid = Some u ->
  In r t -> Db.userId r = u ->
  listed confirm_completed updates (Db.id r) ->
  ~ listed confirm_failed updates (Db.id r) ->
  exists images c,
    FilesPg.GET env request (snd (ConfirmPg.POST env w request t))
    = inr images
    /\ In c images
    /\ Db.ci_id c = Db.id r
    /\ Db.ci_fileUrl c = Db.fileUrl r
    /\ Db.ci_status c = Db.completed.
Proof.
  intros Hc Hb Hs Hu Hr Ho Hcm Hnf.
  destruct (confirmUploadSchema_uuid env b updates Hs) as [Hz _].
  exists (Db.getCompletedImagesByUserId u
            (snd (ConfirmPg.POST env w request t))),
         (Db.select_completed (Db.set_status Db.completed (now w) r)).
  split; [unfold FilesPg.GET, Pg.getCompletedImagesByUserId;
          now rewrite Hc, Hu|].
  split; [|repeat split].
  apply getCompletedImagesByUserId_In.
  exists (Db.set_status Db.completed (now w) r). repeat split; trivial.
  rewrite (ConfirmPg_POST_rows env w request t uid u b updates Hc Hb Hs Hu).
  apply in_map_iff. exists r. split; [|exact Hr].
  rewrite confirm_row_cases.
  rewrite (confirm_hit_false
             (ids_of confirm_failed (map lower_update updates)) u r)
    by (left; now rewrite <- listed_In).
  rewrite confirm_hit_true; [reflexivity|now apply listed_In|exact Ho].
Qed.

(** A concrete instance: a deleted record of the caller confirmed as
    completed, its id spelled in upper case. *)
Lemma confirm_relists_any_status_witness :
  exists images c,
    FilesPg.GET Sample.env
      (Sample.confirm [Sample.update Sample.RA "completed"])
      (snd (ConfirmPg.POST Sample.env Sample.world
              (Sample.confirm [Sample.update Sample.RA "completed"])
              [Sample.row Sample.ra Sample.alice Db.deleted]))
    = inr images
    /\ In c images
    /\ Db.ci_id c = Sample.ra
    /\ Db.ci_status c = Db.completed.
Proof.
  destruct (confirm_relists_any_status Sample.env Sample.world
              (Sample.confirm [Sample.update Sample.RA "completed"])
              [Sample.row Sample.ra Sample.alice Db.deleted]
              Sample.alice Sample.alice
              (JObj [("updates",
                      JArr [Sample.update Sample.RA "completed"])])
              [{| imageId := Sample.RA; u_status := confirm_completed |}]
              (Sample.row Sample.ra Sample.alice Db.deleted)
              eq_refl eq_refl eq_refl eq_refl)
    as (images & c & Hg & Hin & Hid & _ & Hst).
  - left. reflexivity.
  - reflexivity.
  - exists Sample.RA. split; [left; reflexivity|reflexivity].
  - intros (i & [H|[]] & _). discriminate H.
  - exists images, c. repeat split; assumption.
Defined.

(** ** Delete *)

Lemma looked_up_run uid u imageIds t :
  Forall (fun i => Zod.uuid i = true) imageIds ->
  Pg.uuid_in uid = Some u ->
  Pg.getImageObjectKeysByUserAndIds uid imageIds t
  = Some (resolved u (map Pg.lower imageIds) t).
Proof.
  intros Hz Hu. unfold Pg.getImageObjectKeysByUserAndIds.
  now rewrite Hu, (uuid_in_all_zod imageIds Hz).
Qed.

(** What the delete handler does once the request passed the guard and
    the schema and the token reads as a uuid. *)
Lemma FilesPg_DELETE_run env w request t uid u b imageIds :
  caller env request = Some uid ->
  body request = Some b ->
  deleteImagesSchema env b = Some imageIds ->
  Pg.uuid_in uid = Some u ->
  FilesPg.DELETE env w request t
  = match resolved u (map Pg.lower imageIds) t with
    | [] => (NoImagesFound, t)
    | _ :: _ =>
        match filter
                (fun i =>
                   negb (Js.includes
                           (map fst (resolved u (map Pg.lower imageIds) t)) i))
                imageIds
        with
        | x :: xs => (SomeImagesMissing (x :: xs), t)
        | [] =>
            match deleteFiles w
                    (map snd (resolved u (map Pg.lower imageIds) t)) with
            | None => (StorageDeleteFailed, t)
            | Some response =>
                if Files.has_errors response
                then (StorageDeleteErrors
                        (match Errors response with
                         | Some l => l
                         | None => []
                         end), t)
                else
                  let m :=
                    Db.markImagesAsDeleted w (map Pg.lower imageIds) u t in
                  (DeleteOk (List.length (fst m))
                     (map (fun img => (Db.id img, Db.objectKey img)) (fst m)),
                   snd m)
            end
        end
    end.
Proof.
  intros Hc Hb Hs Hu. unfold FilesPg.DELETE. rewrite Hc, Hb, Hs.
  pose proof (deleteImagesSchema_uuid env b imageIds Hs) as Hz.
  rewrite (looked_up_run uid u imageIds t Hz Hu).
  destruct (resolved u (map Pg.lower imageIds) t) as [|k ks] eqn:Hr;
    [reflexivity|].
  cbn [List.length Nat.eqb].
  destruct (filter _ imageIds) as [|x xs]; [|reflexivity].
  cbn [List.length Nat.ltb Nat.leb].
  destruct (deleteFiles w _) as [response|]; [|reflexivity].
  destruct (Files.has_errors response); [reflexivity|].
  unfold Pg.markImagesAsDeleted.
  rewrite Hu, (uuid_in_all_zod imageIds Hz).
  destruct (Db.markImagesAsDeleted w (map Pg.lower imageIds) u t).
  reflexivity.
Qed.

(** With a token that is no uuid the lookup throws. *)
Lemma FilesPg_DELETE_throws env w request t uid b imageIds :
  caller env request = Some uid ->
  body request = Some b ->
  deleteImagesSchema env b = Some imageIds ->
  Pg.uuid_in uid = None ->
  FilesPg.DELETE env w request t = (InternalError, t).
Proof.
  intros Hc Hb Hs Hu. unfold FilesPg.DELETE. rewrite Hc, Hb, Hs.
  unfold Pg.getImageObjectKeysByUserAndIds. now rewrite Hu.
Qed.

(** The table after a delete request is the old table, or the old table
    after [markImagesAsDeleted] for the uuid of the caller, behind a
    lookup that resolved every requested id as it is spelled. *)
Lemma FilesPg_DELETE_table env w request t :
  snd (FilesPg.DELETE env w request t) = t
  \/ exists uid u b imageIds,
      caller env request = Some uid /\ body request = Some b
      /\ deleteImagesSchema env b = Some imageIds
      /\ Pg.uuid_in uid = Some u
      /\ resolved u (map Pg.lower imageIds) t <> []
      /\ (forall i, In i imageIds ->
                    In i (map fst (resolved u (map Pg.lower imageIds) t)))
      /\ storage_clean w (map snd (resolved u (map Pg.lower imageIds) t))
         = true
      /\ FilesPg.DELETE env w request t
         = (DeleteOk
              (List.length
                 (fst (Db.markImagesAsDeleted w (map Pg.lower imageIds) u t)))
              (map (fun img => (Db.id img, Db.objectKey img))
                 (fst (Db.markImagesAsDeleted w (map Pg.lower imageIds) u t))),
            snd (Db.markImagesAsDeleted w (map Pg.lower imageIds) u t)).
Proof.
  destruct (caller env request) as [uid|] eqn:Hc;
    [|left; unfold FilesPg.DELETE; now rewrite Hc].
  destruct (body request) as [b|] eqn:Hb;
    [|left; unfold FilesPg.DELETE; now rewrite Hc, Hb].
  destruct (deleteImagesSchema env b) as [ids|] eqn:Hs;
    [|left; unfold FilesPg.DELETE; now rewrite Hc, Hb, Hs].
  destruct (Pg.uuid_in uid) as [u|] eqn:Hu;
    [|left; now rewrite (FilesPg_DELETE_throws env w request t uid b ids)].
  rewrite (FilesPg_DELETE_run env w request t uid u b ids Hc Hb Hs Hu).
  unfold storage_clean.
  destruct (resolved u (map Pg.lower ids) t) as [|k ks] eqn:Hr;
    [left; reflexivity|].
  destruct (filter _ ids) as [|x xs] eqn:Hm; [|left; reflexivity].
  destruct (deleteFiles w _) as [response|] eqn:Hd; [|left; reflexivity].
  destruct (Files.has_errors response) eqn:He; [left; reflexivity|].
  right. exists uid, u, b, ids. rewrite Hr, Hd, He.
  repeat split; trivial; [discriminate|].
  intros i Hi. apply includes_In.
  apply (proj1 (filter_nil_iff _ _)) with (x := i) in Hm; [|exact Hi].
  now apply negb_false_iff in Hm.
Qed.

(** A requested id that the lookup resolved as it is spelled is spelled
    the way the database prints it. *)
Lemma resolved_spelling u imageIds t i :
  In i (map fst (resolved u (map Pg.lower imageIds) t)) -> Pg.lower i = i.
Proof.
  intros H. apply resolved_In in H as (_ & _ & _ & _ & H & _).
  apply in_map_iff in H as (j & <- & _). apply lower_idem.
Qed.

Lemma all_resolved_spelling u imageIds t :
  (forall i, In i imageIds ->
             In i (map fst (resolved u (map Pg.lower imageIds) t))) ->
  map Pg.lower imageIds = imageIds.
Proof.
  intros H. rewrite <- (map_id imageIds) at 2.
  apply map_ext_in. intros i Hi. apply (resolved_spelling u imageIds t).
  now apply H.
Qed.

(** On a token and ids in the spelling the database prints, the handler
    is the one of module [Files]. *)
Lemma FilesPg_DELETE_canonical env w request t :
  (forall uid, caller env request = Some uid -> Pg.uuid_in uid = Some uid) ->
  (forall b imageIds,
      body request = Some b -> deleteImagesSchema env b = Some imageIds ->
      map Pg.lower imageIds = imageIds) ->
  FilesPg.DELETE env w request t = Files.DELETE env w request t.
Proof.
  intros Hu Hl.
  destruct (caller env request) as [uid|] eqn:Hc;
    [|unfold FilesPg.DELETE, Files.DELETE; now rewrite Hc].
  destruct (body request) as [b|] eqn:Hb;
    [|unfold FilesPg.DELETE, Files.DELETE; now rewrite Hc, Hb].
  destruct (deleteImagesSchema env b) as [ids|] eqn:Hs;
    [|unfold FilesPg.DELETE, Files.DELETE; now rewrite Hc, Hb, Hs].
  rewrite (FilesPg_DELETE_run env w request t uid uid b ids Hc Hb Hs
             (Hu uid eq_refl)).
  rewrite (Files_DELETE_run env w request t uid b ids Hc Hb Hs).
  rewrite (Hl b ids eq_refl Hs). unfold missing.
  destruct (resolved uid ids t); [reflexivity|].
  destruct (filter _ ids); reflexivity.
Qed.

(** C4, as the code has it.  Ids and owner are compared as uuids.  A
    delete request that names, in any spelling, a record which is not
    completed, or not the caller's, is answered 403 and changes no row.
    The answer lists the unresolved ids, this one among them, when at
    least one requested id resolves; when none resolves it is the bare 403
    without a list of ids.  With a token that is no uuid the lookup throws
    and the answer is 500, again without a change.  And a row is [deleted]
    after a delete request only if it was [deleted] before or was a
    completed row of the caller. *)
Theorem DELETE_only_completed env w request t uid b imageIds :
  caller env request = Some uid ->
  body request = Some b ->
  deleteImagesSchema env b = Some imageIds ->
  (Pg.uuid_in uid = None ->
   FilesPg.DELETE env w request t = (InternalError, t))
  /\ (forall u r i,
         Pg.uuid_in uid = Some u ->
         NoDup (map Db.id t) -> In r t ->
         In i imageIds -> Pg.uuid_in i = Some (Db.id r) ->
         Db.status r <> Db.completed \/ Db.userId r <> u ->
         snd (FilesPg.DELETE env w request t) = t
         /\ http_status (fst (FilesPg.DELETE env w request t)) = 403
         /\ ((looked_up uid imageIds t = []
              /\ reported_ids (fst (FilesPg.DELETE env w request t)) = None)
             \/ (looked_up uid imageIds t <> []
                 /\ exists ids,
                     reported_ids (fst (FilesPg.DELETE env w request t))
                     = Some ids
                     /\ In i ids)))
  /\ (forall k r r',
         nth_error t k = Some r ->
         nth_error (snd (FilesPg.DELETE env w request t)) k = Some r' ->
         Db.status r' = Db.deleted ->
         Db.status r <> Db.deleted ->
         Db.status r = Db.completed
         /\ Pg.uuid_in uid = Some (Db.userId r)).
Proof.
  intros Hc Hb Hs.
  pose proof (deleteImagesSchema_uuid env b imageIds Hs) as Hz.
  split; [|split].
  - now apply (FilesPg_DELETE_throws env w request t uid b imageIds).
  - intros u r i Hu Hnd Hr Hi Hread Hbad.
    assert (Hli : Db.id r = Pg.lower i).
    { rewrite Forall_forall in Hz.
      rewrite (uuid_in_zod i (Hz i Hi)) in Hread. congruence. }
    assert (Hnot : ~ In i (map fst (resolved u (map Pg.lower imageIds) t))).
    { intros H. pose proof (resolved_spelling u imageIds t i H) as Hsp.
      apply resolved_In in H as (r0 & Hr0 & E & Ho & _ & Hst).
      assert (r0 = r) as ->
        by (apply (same_id_same_row t); trivial; congruence).
      tauto. }
    unfold looked_up. rewrite (looked_up_run uid u imageIds t Hz Hu).
    rewrite (FilesPg_DELETE_run env w request t uid u b imageIds Hc Hb Hs Hu).
    destruct (resolved u (map Pg.lower imageIds) t) as [|p ps] eqn:Hres.
    + cbn. repeat split. left. auto.
    + destruct (filter _ imageIds) as [|x xs] eqn:Hm.
      * exfalso. apply Hnot. apply includes_In.
        apply (proj1 (filter_nil_iff _ _)) with (x := i) in Hm;
          [|exact Hi].
        now apply negb_false_iff in Hm.
      * cbn. repeat split. right. split; [discriminate|].
        exists (x :: xs). split; [reflexivity|].
        rewrite <- Hm. apply filter_In. split; [exact Hi|].
        apply negb_true_iff.
        destruct (Js.includes (map fst (p :: ps)) i) eqn:E; [|reflexivity].
        apply includes_In in E. contradiction.
  - intros k r r' Hn Hn' Hdel Hwas.
    destruct (FilesPg_DELETE_table env w request t)
      as [Ht|(uid' & u & b' & ids' & Hc' & _ & _ & Hu & _ & _ & _ & Hrun)].
    + rewrite Ht, Hn in Hn'. congruence.
    + rewrite Hrun in Hn'. cbn [snd] in Hn'.
      unfold Db.markImagesAsDeleted in Hn'.
      rewrite (update_returning_nth _ _ _ _ _ Hn) in Hn'.
      fold (delete_hit (map Pg.lower ids') u r) in Hn'.
      destruct (delete_hit (map Pg.lower ids') u r) eqn:Hh.
      * apply delete_hit_inv in Hh as (_ & Ho & Hst).
        split; [exact Hst|congruence].
      * congruence.
Qed.

(** C4 fails on the code: a delete of a single pending record is answered
    with the bare 403, which names no id. *)
Lemma delete_pending_names_no_id :
  FilesPg.DELETE Sample.env Sample.world (Sample.delete [Sample.r1])
    [Sample.row Sample.r1 Sample.alice Db.pending]
  = (NoImagesFound, [Sample.row Sample.r1 Sample.alice Db.pending])
  /\ http_status NoImagesFound = 403
  /\ reported_ids NoImagesFound = None.
Proof. repeat split; vm_compute; reflexivity. Qed.

(** A concrete instance: a completed record of the caller requested in
    upper case together with a pending one; both ids are reported, and
    nothing is deleted. *)
Lemma DELETE_only_completed_witness :
  snd (FilesPg.DELETE Sample.env Sample.world
         (Sample.delete [Sample.RA; Sample.r2])
         [Sample.row Sample.ra Sample.alice Db.completed;
          Sample.row Sample.r2 Sample.alice Db.pending])
  = [Sample.row Sample.ra Sample.alice Db.completed;
     Sample.row Sample.r2 Sample.alice Db.pending]
  /\ fst (FilesPg.DELETE Sample.env Sample.world
            (Sample.delete [Sample.RA; Sample.r2])
            [Sample.row Sample.ra Sample.alice Db.completed;
             Sample.row Sample.r2 Sample.alice Db.pending])
     = SomeImagesMissing [Sample.RA; Sample.r2].
Proof.
  destruct (proj1 (proj2
              (DELETE_only_completed Sample.env Sample.world
                 (Sample.delete [Sample.RA; Sample.r2])
                 [Sample.row Sample.ra Sample.alice Db.completed;
                  Sample.row Sample.r2 Sample.alice Db.pending]
                 Sample.alice
                 (JObj [("imageIds",
                         JArr [JStr Sample.RA; JStr Sample.r2])])
                 [Sample.RA; Sample.r2] eq_refl eq_refl eq_refl))
              Sample.alice
              (Sample.row Sample.r2 Sample.alice Db.pending)
              Sample.r2 eq_refl)
    as (Ht & _ & _).
  - repeat constructor; cbn; intuition discriminate.
  - right. left. reflexivity.
  - right. left. reflexivity.
  - reflexivity.
  - left. discriminate.
  - split; [exact Ht|reflexivity].
Defined.

(** X16. When a delete request is answered 200, the token reads as a
    uuid, and the images the answer reports are the completed rows of
    that owner whose id the request names: every requested id is the id
    of one of them, letter for letter, the storage delete was asked for
    exactly their keys and came back clean, and exactly these rows have
    now the status [deleted] and the time of the request as completion
    time, while every other row is as it was. *)
Theorem DELETE_ok_marks_what_it_resolved env w request t uid b imageIds
    n imgs :
  caller env request = Some uid ->
  body request = Some b ->
  deleteImagesSchema env b = Some imageIds ->
  fst (FilesPg.DELETE env w request t) = DeleteOk n imgs ->
  exists u,
    Pg.uuid_in uid = Some u
    /\ n = List.length imgs
    /\ (forall p,
           In p imgs
           <-> exists r, In r t /\ p = (Db.id r, Db.objectKey r)
                         /\ In (Db.id r) imageIds /\ Db.userId r = u
                         /\ Db.status r = Db.completed)
    /\ (forall i, In i imageIds -> In i (map fst imgs))
    /\ storage_clean w (map snd imgs) = true
    /\ (forall k r,
           nth_error t k = Some r ->
           exists r',
             nth_error (snd (FilesPg.DELETE env w request t)) k = Some r'
             /\ (In (Db.id r) imageIds -> Db.userId r = u ->
                 Db.status r = Db.completed ->
                 Db.status r' = Db.deleted
                 /\ Db.completedAt r' = Some (now w)
                 /\ same_identity r r')
             /\ (~ In (Db.id r) imageIds \/ Db.userId r <> u
                 \/ Db.status r <> Db.completed ->
                 r' = r)).
Proof.
  intros Hc Hb Hs Hok.
  destruct (FilesPg_DELETE_table env w request t)
    as [Ht|(uid' & u & b' & ids' & Hc' & Hb' & Hs' & Hu & Hne & Hall
            & Hclean & Hrun)].
  - exfalso. revert Hok.
    destruct (Pg.uuid_in uid) as [u|] eqn:Hu;
      [|now rewrite (FilesPg_DELETE_throws env w request t uid b imageIds)].
    pose proof Ht as Ht'. revert Ht'.
    rewrite (FilesPg_DELETE_run env w request t uid u b imageIds
               Hc Hb Hs Hu).
    destruct (resolved u (map Pg.lower imageIds) t) as [|p ps] eqn:Hres;
      [discriminate|].
    destruct (filter _ imageIds) as [|x xs] eqn:Hm; [|discriminate].
    destruct (deleteFiles w _) as [response|]; [|discriminate].
    destruct (Files.has_errors response); [discriminate|].
    cbn [snd fst]. intros Ht' [= _ _].
    (* the soft delete changed no row although one was resolved *)
    assert (Hp : In p (resolved u (map Pg.lower imageIds) t))
      by (rewrite Hres; left; reflexivity).
    unfold resolved, Db.getImageObjectKeysByUserAndIds in Hp.
    apply in_map_iff in Hp as (r & _ & Hr).
    apply filter_In in Hr as [Hr Hh]. rewrite delete_hit_resolves in Hh.
    apply In_nth_error in Hr as [k Hk].
    pose proof (f_equal (fun l => nth_error l k) Ht') as E. cbn beta in E.
    rewrite markImagesAsDeleted_rows, nth_error_map, Hk in E.
    cbn [option_map] in E. rewrite Hh in E.
    apply delete_hit_inv in Hh as (_ & _ & Hst).
    injection E as E. apply (f_equal Db.status) in E. cbn in E.
    congruence.
  - assert (uid' = uid) as -> by congruence.
    assert (b' = b) as -> by congruence.
    assert (ids' = imageIds) as -> by congruence.
    pose proof (all_resolved_spelling u imageIds t Hall) as Hsp.
    rewrite Hsp in *.
    rewrite Hrun in Hok. unfold fst at 1 in Hok. cbv beta iota in Hok.
    assert (Ei : imgs
                 = map (fun img => (Db.id img, Db.objectKey img))
                     (fst (Db.markImagesAsDeleted w imageIds u t)))
      by congruence.
    assert (En : n = List.length
                       (fst (Db.markImagesAsDeleted w imageIds u t)))
      by congruence.
    subst n imgs. clear Hok.
    assert (Hsnd : snd (FilesPg.DELETE env w request t)
                   = snd (Db.markImagesAsDeleted w imageIds u t))
      by (rewrite Hrun; reflexivity).
    rewrite Hsnd, marked_are_resolved.
    exists u. split; [exact Hu|].
    split; [now rewrite <- (marked_are_resolved w), length_map|].
    split; [|split; [exact Hall|split; [exact Hclean|]]].
    + intros p. unfold resolved, Db.getImageObjectKeysByUserAndIds.
      rewrite in_map_iff. split.
      * intros (r & <- & Hr). apply filter_In in Hr as [Hr Hh].
        rewrite delete_hit_resolves in Hh.
        apply delete_hit_inv in Hh as (Hi & Ho & Hst).
        exists r. auto.
      * intros (r & Hr & -> & Hi & Ho & Hst). exists r.
        split; [reflexivity|]. apply filter_In. split; [exact Hr|].
        rewrite delete_hit_resolves. unfold delete_hit.
        rewrite (proj2 (inArray_In _ _) Hi), Ho, Hst, String.eqb_refl.
        reflexivity.
    + intros k r Hk.
      rewrite markImagesAsDeleted_rows, nth_error_map, Hk.
      cbn [option_map]. eexists. split; [reflexivity|]. split.
      * intros Hi Ho Hst.
        assert (Hh : delete_hit imageIds u r = true).
        { unfold delete_hit.
          rewrite (proj2 (inArray_In _ _) Hi), Ho, Hst, String.eqb_refl.
          reflexivity. }
        rewrite Hh. repeat split.
      * intros Hno.
        destruct (delete_hit imageIds u r) eqn:Hh; [|reflexivity].
        apply delete_hit_inv in Hh. tauto.
Qed.

(** A concrete instance: the delete of one completed record. *)
Lemma DELETE_ok_marks_what_it_resolved_witness :
  exists r',
    nth_error
      (snd (FilesPg.DELETE Sample.env Sample.world
              (Sample.delete [Sample.r1])
              [Sample.row Sample.r1 Sample.alice Db.completed])) 0
    = Some r'
    /\ Db.status r' = Db.deleted.
Proof.
  destruct (DELETE_ok_marks_what_it_resolved Sample.env Sample.world
              (Sample.delete [Sample.r1])
              [Sample.row Sample.r1 Sample.alice Db.completed]
              Sample.alice
              (JObj [("imageIds", JArr [JStr Sample.r1])])
              [Sample.r1] _ _ eq_refl eq_refl eq_refl eq_refl)
    as (u & Hu & _ & _ & _ & _ & Hrows).
  destruct (Hrows 0%nat (Sample.row Sample.r1 Sample.alice Db.completed)
              eq_refl) as (r' & Hn & Hmark & _).
  exists r'. split; [exact Hn|].
  apply Hmark; [left; reflexivity| |reflexivity].
  vm_compute in Hu. now injection Hu as <-.
Defined.

(** ** What carries over from the handlers on printed spelling *)

(** Storage before records: the delete handler changes the table only
    behind a clean storage delete of the keys it looked up, and the
    change is the soft delete. *)
Lemma FilesPg_DELETE_storage_first env w request t :
  (forall uid b imageIds,
      caller env request = Some uid ->
      body request = Some b ->
      deleteImagesSchema env b = Some imageIds ->
      storage_clean w (map snd (looked_up uid imageIds t)) = false ->
      snd (FilesPg.DELETE env w request t) = t
      /\ (http_status (fst (FilesPg.DELETE env w request t)) = 403
          \/ http_status (fst (FilesPg.DELETE env w request t)) = 500))
  /\ (snd (FilesPg.DELETE env w request t) <> t ->
      exists uid b imageIds,
        caller env request = Some uid /\ body request = Some b
        /\ deleteImagesSchema env b = Some imageIds
        /\ storage_clean w (map snd (looked_up uid imageIds t)) = true
        /\ Some (fst (FilesPg.DELETE env w request t),
                 snd (FilesPg.DELETE env w request t))
           = option_map
               (fun m => (DeleteOk (List.length (fst m))
                            (map (fun img => (Db.id img, Db.objectKey img))
                               (fst m)), snd m))
               (Pg.markImagesAsDeleted w imageIds uid t)).
Proof.
  split.
  - intros uid b ids Hc Hb Hs Hclean.
    pose proof (deleteImagesSchema_uuid env b ids Hs) as Hz.
    destruct (Pg.uuid_in uid) as [u|] eqn:Hu.
    + revert Hclean. unfold looked_up.
      rewrite (looked_up_run uid u ids t Hz Hu).
      rewrite (FilesPg_DELETE_run env w request t uid u b ids Hc Hb Hs Hu).
      unfold storage_clean.
      destruct (resolved u (map Pg.lower ids) t) as [|k ks]; [cbn; auto|].
      destruct (filter _ ids) as [|x xs]; [|cbn; auto].
      destruct (deleteFiles w _) as [response|]; [|cbn; auto].
      destruct (Files.has_errors response); [cbn; auto|discriminate].
    + rewrite (FilesPg_DELETE_throws env w request t uid b ids Hc Hb Hs Hu).
      cbn. auto.
  - intros Hne.
    destruct (FilesPg_DELETE_table env w request t)
      as [H|(uid & u & b & ids & Hc & Hb & Hs & Hu & _ & _ & Hclean & Hrun)];
      [contradiction|].
    pose proof (deleteImagesSchema_uuid env b ids Hs) as Hz.
    exists uid, b, ids. unfold looked_up.
    rewrite (looked_up_run uid u ids t Hz Hu), Hrun.
    unfold Pg.markImagesAsDeleted. rewrite Hu, (uuid_in_all_zod ids Hz).
    repeat split; trivial.
Qed.

(** Repeating a confirm request matches the same rows again. *)
Lemma ConfirmPg_POST_twice env w1 w2 request t :
  fst (ConfirmPg.POST env w2 request (snd (ConfirmPg.POST env w1 request t)))
  = fst (ConfirmPg.POST env w1 request t)
  /\ map Db.status
       (snd (ConfirmPg.POST env w2 request
               (snd (ConfirmPg.POST env w1 request t))))
     = map Db.status (snd (ConfirmPg.POST env w1 request t)).
Proof.
  destruct (caller env request) as [uid|] eqn:Hc;
    [|unfold ConfirmPg.POST; rewrite Hc; split; reflexivity].
  destruct (body request) as [b|] eqn:Hb;
    [|unfold ConfirmPg.POST; rewrite Hc, Hb; split; reflexivity].
  destruct (confirmUploadSchema env b) as [updates|] eqn:Hs;
    [|unfold ConfirmPg.POST; rewrite Hc, Hb, Hs; split; reflexivity].
  destruct (Pg.uuid_in uid) as [u|] eqn:Hu.
  - rewrite (ConfirmPg_POST_count env w2 request _ uid u b updates Hc Hb Hs Hu).
    rewrite (ConfirmPg_POST_rows env w2 request _ uid u b updates Hc Hb Hs Hu).
    rewrite (ConfirmPg_POST_count env w1 request _ uid u b updates Hc Hb Hs Hu).
    rewrite (ConfirmPg_POST_rows env w1 request _ uid u b updates Hc Hb Hs Hu).
    split.
    + rewrite !matched_map; [reflexivity| |];
        intros r; apply confirm_hit_confirm_row.
    + rewrite !map_map. apply map_ext. intros r.
      apply confirm_row_status_again.
  - rewrite !(ConfirmPg_POST_throws env _ request _ uid b updates Hc Hb Hs Hu).
    split; reflexivity.
Qed.

(** A row whose owner is not the uuid the token of the caller stands for
    stays as it is, under confirm and under delete. *)
Lemma Pg_other_owners env w request t uid i r :
  caller env request = Some uid ->
  nth_error t i = Some r ->
  Pg.uuid_in uid <> Some (Db.userId r) ->
  nth_error (snd (ConfirmPg.POST env w request t)) i = Some r
  /\ nth_error (snd (FilesPg.DELETE env w request t)) i = Some r.
Proof.
  intros Hc Hn Ho. split.
  - destruct (body request) as [b|] eqn:Hb;
      [|unfold ConfirmPg.POST; now rewrite Hc, Hb].
    destruct (confirmUploadSchema env b) as [updates|] eqn:Hs;
      [|unfold ConfirmPg.POST; now rewrite Hc, Hb, Hs].
    destruct (Pg.uuid_in uid) as [u|] eqn:Hu.
    + rewrite (ConfirmPg_POST_run env w request t uid u b updates
                 Hc Hb Hs Hu).
      cbn [snd].
      assert (Hne : Db.userId r <> u) by congruence.
      apply updateImageStatusBatch_other; [|assumption].
      now apply updateImageStatusBatch_other.
    + now rewrite (ConfirmPg_POST_throws env w request t uid b updates).
  - destruct (FilesPg_DELETE_table env w request t)
      as [->|(uid' & u & b & ids & Hc' & _ & _ & Hu & _ & _ & _ & ->)];
      [assumption|].
    assert (uid' = uid) as -> by congruence.
    cbn [snd]. apply markImagesAsDeleted_other; [assumption|congruence].
Qed.
